(** * Cumulus execution indexer and exclusive task runner

    A shallow embedding of the lambda job that indexes Step Functions
    executions in Elasticsearch ([findAndIndexExecutions] and its helpers)
    and of [GenerateMrfTask.run], followed by the properties established
    about them. *)

From Stdlib Require Import ZArith List Bool Lia.
From stdpp Require Import gmap strings list.

Local Open Scope string_scope.
Local Open Scope list_scope.
Local Open Scope Z_scope.

(** ** JavaScript values used by the indexer *)

Module Js.

(** The numbers the indexer computes with are time values and counts:
    integer-valued doubles, or NaN when a date does not parse. *)
Inductive Num : Type :=
| NaN
| Int (z : Z).

(** Nearest double of an integer, ties to even: integers below 2^53 in
    absolute value are doubles; above, the 53-bit significand is kept. *)
Definition round_double (z : Z) : Z :=
  let a := Z.abs z in
  if a <? 2 ^ 53 then z
  else
    let e := Z.log2 a - 52 in
    let q := Z.shiftr a e in
    let r := a - Z.shiftl q e in
    let half := Z.shiftl 1 (e - 1) in
    let q' := if (half <? r) || ((r =? half) && Z.odd q) then q + 1 else q in
    Z.sgn z * Z.shiftl q' e.

(** [a - b] *)
Definition sub (a b : Num) : Num :=
  match a, b with
  | Int x, Int y => Int (round_double (x - y))
  | _, _ => NaN
  end.

(** [a < b]: false as soon as one side is NaN *)
Definition ltb (a b : Num) : bool :=
  match a, b with
  | Int x, Int y => x <? y
  | _, _ => false
  end.

(** ToNumber of a value that is a number or [null] ([null] is +0) *)
Definition of_nullable (v : option Num) : Num :=
  match v with
  | Some n => n
  | None => Int 0
  end.

(** [!s] for a value that is a string, [null] or [undefined] *)
Definition falsy (s : option string) : bool :=
  match s with
  | None => true
  | Some s => String.eqb s ""
  end.

End Js.

Import Js.

(** ** Data *)

(** An item of [listExecutions]: the fields the indexer reads. A running
    execution has no [stopDate]. *)
Record Execution : Type := {
  name : string;
  status : string;
  startDate : option string;
  stopDate : option string
}.

(** Result of [parseExecutionName] (module [./execution-name-parser]). *)
Record ParsedName : Type := {
  collectionId : option string;
  granuleId : option string
}.

(** What the indexer takes from outside this file: the builtin [Date.parse]
    and the required [parseExecutionName]. *)
Class Runtime : Type := {
  Date_parse : string -> Num;
  parseExecutionName : string -> ParsedName
}.

(** [Date.parse(v)] for a field that may be absent: [undefined] is turned
    into the string "undefined", which is not a date. *)
Definition Date_parse_field `{Runtime} (v : option string) : Num :=
  match v with
  | Some s => Date_parse s
  | None => NaN
  end.

(** The document built by [executionToDoc]. *)
Record Doc : Type := {
  _id : string;
  workflow_id : string;
  collection_id : option string;
  granule_id : option string;
  start_date : Num;
  stop_date : Num;
  elapsed_ms : Num;
  success : bool
}.

(** A document without its [_id] ([delete indexDoc._id]). *)
Record DocSource : Type := {
  src_workflow_id : string;
  src_collection_id : option string;
  src_granule_id : option string;
  src_start_date : Num;
  src_stop_date : Num;
  src_elapsed_ms : Num;
  src_success : bool
}.

(** The entries of a bulk request body. *)
Inductive BulkArg : Type :=
| BulkIndex (_index _type _id : string)
| BulkDoc (source : DocSource).

(** ** Pure helpers of the indexer *)

Section Pure.
Context `{Runtime}.

Definition executionToDoc (workflowId : string) (execution : Execution) : Doc :=
  let parsed := parseExecutionName (name execution) in
  let startDateEpoch := Date_parse_field (startDate execution) in
  let stopDateEpoch := Date_parse_field (stopDate execution) in
  {| _id := name execution;
     workflow_id := workflowId;
     collection_id := collectionId parsed;
     granule_id := granuleId parsed;
     start_date := startDateEpoch;
     stop_date := stopDateEpoch;
     elapsed_ms := Js.sub stopDateEpoch startDateEpoch;
     success := String.eqb (status execution) "SUCCEEDED" |}.

Definition withoutId (doc : Doc) : DocSource :=
  {| src_workflow_id := workflow_id doc;
     src_collection_id := collection_id doc;
     src_granule_id := granule_id doc;
     src_start_date := start_date doc;
     src_stop_date := stop_date doc;
     src_elapsed_ms := elapsed_ms doc;
     src_success := success doc |}.

Definition docsToBulk (docs : list Doc) : list BulkArg :=
  flat_map (fun doc =>
              [BulkIndex "executions" "execution" (_id doc); BulkDoc (withoutId doc)])
           docs.

Definition LAST_INDEXED_THRESHOLD : Z := 5 * 60 * 1000.

Definition executionBeforeLastIndexed (lastIndexedDate : option Num) (e : Execution) : bool :=
  Js.ltb (Date_parse_field (stopDate e))
         (Js.sub (Js.of_nullable lastIndexedDate) (Int LAST_INDEXED_THRESHOLD)).

(** [e => e.status !== 'RUNNING'] *)
Definition notRunning (e : Execution) : bool :=
  negb (String.eqb (status e) "RUNNING").

(** The documents of [indexExecutions]: non-running executions, converted. *)
Definition executionDocs (workflowId : string) (executions : list Execution) : list Doc :=
  List.map (executionToDoc workflowId) (List.filter notRunning executions).

End Pure.

(** ** The services the indexer calls *)

(** A workflow of the collection configuration ([w.toJS()]). *)
Record Workflow : Type := {
  id : string;
  arn : string
}.

(** Response of [listExecutions]. *)
Record ListExecutionsResp : Type := {
  executions : list Execution;
  resp_nextToken : option string
}.

(** Response of [es().bulk]; [errors] is [None] when the field is missing
    or is not a boolean. *)
Record BulkResp : Type := {
  errors : option bool
}.

(** Response of [indices.putMapping] and [indices.create]. *)
Record IndexResp : Type := {
  acknowledged : bool
}.

(** Response of [es().search] with [stored_fields: ['last_indexed_date']]:
    [hits.total] and, per hit, [fields.last_indexed_date]. *)
Record Hit : Type := {
  fields_last_indexed_date : list string
}.

Record SearchResp : Type := {
  hits_total : Z;
  hits_hits : list Hit
}.

(** What can be observed of a run: the calls that leave the process, the
    [errors] field of each bulk response, and the readings of the clock. *)
Inductive Event : Type :=
| IndicesExists (index : string)
| IndicesPutMapping (index type : string)
| IndicesCreate (index : string)
| Search (index : string)
| Index (index type id : string) (last_indexed_date : Z)
| Bulk (body : list BulkArg)
| ListExecutions (stateMachineArn : string) (nextToken : option string) (maxResults : Z)
| LoadCollectionConfig (stackName : string)
| BulkReplied (errors : option bool)
| DateNow.

(** The world the lambda runs in: the clock ([Date.now()], in milliseconds,
    which only moves forward), the Elasticsearch indices with the documents
    of [executions-meta] and [executions] by id, and the events so far with
    the time of each, newest first. *)
Record World : Type := {
  now : Z;
  indices : gset string;
  executions_meta : gmap string Z;
  executions_index : gmap string DocSource;
  events : list (Z * Event)
}.

(** What the services answer. Every answer may depend on the whole world,
    events so far included, so that two calls need not be answered alike. *)
Record Env : Type := {
  (** time a call takes *)
  latency : World -> N;
  (** the call that is being answered fails, with this message *)
  fault : Event -> World -> option string;
  (** [acknowledged] of the index response in progress *)
  acknowledge : World -> bool;
  (** [errors] of the bulk response in progress *)
  bulk_errors : World -> option bool;
  (** the page Step Functions returns for a state machine and token *)
  page : World -> string -> option string -> ListExecutionsResp;
  (** [_workflow_meta] of the collection configuration of a stack *)
  workflow_meta : World -> string -> list Workflow;
  (** how Elasticsearch renders a stored date *)
  es_date : Z -> string
}.

(** ** Promises and the monad of asynchronous code *)

(** The three states of a promise. *)
Inductive Promise (A : Type) : Type :=
| Pending
| Fulfilled (a : A)
| Rejected (message : string).
Arguments Pending {A}.
Arguments Fulfilled {A} a.
Arguments Rejected {A} message.

(** An asynchronous computation: it changes the world and leaves a promise. *)
Definition Async (A : Type) : Type := World -> World * Promise A.

Definition ret {A} (a : A) : Async A := fun w => (w, Fulfilled a).

Definition throw {A} (message : string) : Async A := fun w => (w, Rejected message).

Definition bind {A B} (c : Async A) (k : A -> Async B) : Async B :=
  fun w =>
    match c w with
    | (w', Fulfilled a) => k a w'
    | (w', Rejected message) => (w', Rejected message)
    | (w', Pending) => (w', Pending)
    end.

Notation "x <- c ;; k" := (bind c (fun x => k))
  (at level 100, c at next level, right associativity).
Notation "c ;;; k" := (bind c (fun _ => k))
  (at level 100, right associativity).

(** [try { c } catch (e) { h(e.message) }] *)
Definition try_catch {A} (c : Async A) (h : string -> Async A) : Async A :=
  fun w =>
    match c w with
    | (w', Rejected message) => h message w'
    | other => other
    end.

Definition record (c : Event) (w : World) : World :=
  {| now := now w;
     indices := indices w;
     executions_meta := executions_meta w;
     executions_index := executions_index w;
     events := (now w, c) :: events w |}.

Definition advance (d : N) (w : World) : World :=
  {| now := now w + Z.of_N d;
     indices := indices w;
     executions_meta := executions_meta w;
     executions_index := executions_index w;
     events := events w |}.

Definition set_indices (s : gset string) (w : World) : World :=
  {| now := now w;
     indices := s;
     executions_meta := executions_meta w;
     executions_index := executions_index w;
     events := events w |}.

Definition set_executions_meta (m : gmap string Z) (w : World) : World :=
  {| now := now w;
     indices := indices w;
     executions_meta := m;
     executions_index := executions_index w;
     events := events w |}.

Definition set_executions_index (m : gmap string DocSource) (w : World) : World :=
  {| now := now w;
     indices := indices w;
     executions_meta := executions_meta w;
     executions_index := m;
     events := events w |}.

(** The documents a bulk body upserts, in order. *)
Fixpoint bulk_upsert (body : list BulkArg) (m : gmap string DocSource) : gmap string DocSource :=
  match body with
  | BulkIndex _ _ i :: BulkDoc source :: rest => bulk_upsert rest (<[i := source]> m)
  | _ => m
  end.

Section Services.
Context `{Runtime} (env : Env).

(** A call is made: the request leaves the process. *)
Definition send (c : Event) : Async unit :=
  fun w => (record c w, Fulfilled tt).

(** The call [c] is answered: it has taken its time, and has succeeded or
    failed. This is where an [await] is resumed; between [send] and
    [receive] other asynchronous functions may run. *)
Definition receive (c : Event) : Async unit :=
  fun w =>
    let w2 := advance (latency env w) w in
    match fault env c w2 with
    | Some message => (w2, Rejected message)
    | None => (w2, Fulfilled tt)
    end.

(** A call that is awaited with nothing else running. *)
Definition request (c : Event) : Async unit :=
  send c ;;; receive c.

(** [await x] where [x] is already a value. *)
Definition get {A} (f : World -> A) : Async A := fun w => (w, Fulfilled (f w)).

Definition Date_now : Async Z :=
  fun w => (record DateNow w, Fulfilled (now w)).

(** [new Promise(resolve => setTimeout(resolve, ms))]: the timer fires after
    [ms] at the earliest, at once when [ms] is not positive. *)
Definition sleep (ms : Z) : Async unit :=
  fun w => (advance (Z.to_N ms + latency env w) w, Fulfilled tt).

Definition es_indices_exists (index : string) : Async bool :=
  request (IndicesExists index) ;;;
  get (fun w => bool_decide (index ∈ indices w)).

Definition es_indices_putMapping (index type : string) : Async IndexResp :=
  request (IndicesPutMapping index type) ;;;
  get (fun w => {| acknowledged := acknowledge env w |}).

Definition es_indices_create (index : string) : Async IndexResp :=
  request (IndicesCreate index) ;;;
  fun w =>
    if acknowledge env w
    then (set_indices ({[index]} ∪ indices w) w, Fulfilled {| acknowledged := true |})
    else (w, Fulfilled {| acknowledged := false |}).

(** The [match_all] search over [executions-meta]. *)
Definition es_search_meta : Async SearchResp :=
  request (Search "executions-meta") ;;;
  get (fun w =>
         let docs := map_to_list (executions_meta w) in
         {| hits_total := Z.of_nat (length docs);
            hits_hits := List.map (fun d => {| fields_last_indexed_date := [es_date env (snd d)] |})
                                  docs |}).

Definition es_index_meta (index type i : string) (last_indexed_date : Z) : Async unit :=
  request (Index index type i last_indexed_date) ;;;
  fun w => (set_executions_meta (<[i := last_indexed_date]> (executions_meta w)) w, Fulfilled tt).

(** The answer to a bulk write: it stores the documents when it reports
    no error. *)
Definition es_bulk_answer (body : list BulkArg) : Async BulkResp :=
  receive (Bulk body) ;;;
  fun w =>
    let e := bulk_errors env w in
    let w1 := record (BulkReplied e) w in
    match e with
    | Some false =>
        (set_executions_index (bulk_upsert body (executions_index w1)) w1,
         Fulfilled {| errors := e |})
    | _ => (w1, Fulfilled {| errors := e |})
    end.

Definition es_bulk (body : list BulkArg) : Async BulkResp :=
  send (Bulk body) ;;;
  es_bulk_answer body.

(** The answer to [listExecutions]. *)
Definition listExecutions_answer (stateMachineArn : string) (nextToken : option string)
           (maxResults : Z) : Async ListExecutionsResp :=
  receive (ListExecutions stateMachineArn nextToken maxResults) ;;;
  get (fun w => page env w stateMachineArn nextToken).

Definition listExecutions (stateMachineArn : string) (nextToken : option string)
           (maxResults : Z) : Async ListExecutionsResp :=
  send (ListExecutions stateMachineArn nextToken maxResults) ;;;
  listExecutions_answer stateMachineArn nextToken maxResults.

(** [loadCollectionConfig(stackName)] followed by [.get('_workflow_meta')]. *)
Definition loadCollectionConfig (stackName : string) : Async (list Workflow) :=
  request (LoadCollectionConfig stackName) ;;;
  get (fun w => workflow_meta env w stackName).

End Services.

(** ** The indexer *)

Inductive FieldType : Type := stringType | dateType | longType | booleanType.

Record IndexDef : Type := {
  index_name : string;
  index_type : string;
  number_of_shards : Z;
  number_of_replicas : Z;
  properties : list (string * FieldType)
}.

Definition executionsIndex : IndexDef :=
  {| index_name := "executions";
     index_type := "execution";
     number_of_shards := 5;
     number_of_replicas := 1;
     properties :=
       [("workflow_id", stringType); ("collection_id", stringType);
        ("granule_id", stringType); ("start_date", dateType);
        ("stop_date", dateType); ("elapsed_ms", longType);
        ("success", booleanType)] |}.

Definition executionsMetaIndex : IndexDef :=
  {| index_name := "executions-meta";
     index_type := "executionMeta";
     number_of_shards := 1;
     number_of_replicas := 1;
     properties := [("last_indexed_date", dateType)] |}.

Definition MAX_EXECUTIONS_TO_INDEX : Z := 50000.

(** Where the asynchronous function of one workflow stands: suspended at the
    [await] of [listExecutions], the request made; suspended at the [await]
    of [es().bulk] inside [indexExecutions], with the page [resp] it is
    indexing; returned; or ended by an exception. *)
Inductive TaskState : Type :=
| Paging
| Indexing (resp : ListExecutionsResp)
| Returned
| Thrown (message : string).

(** The asynchronous function of one workflow with its local variables. *)
Record Task : Type := {
  workflow : Workflow;
  totalIndexed : Z;
  nextToken : option string;
  state : TaskState
}.

Definition with_state (s : TaskState) (t : Task) : Task :=
  {| workflow := workflow t;
     totalIndexed := totalIndexed t;
     nextToken := nextToken t;
     state := s |}.

(** The lambda event and what the handler passes to its callback. *)
Record LambdaEvent : Type := {
  StackName : string
}.

Inductive Callback : Type :=
| CallbackError (message : string)
| CallbackResult (data : string).

Section Indexer.
Context `{Runtime} (env : Env).

Definition verifySuccessfulIndexResponse (resp : IndexResp) : Async unit :=
  if negb (acknowledged resp)
  then throw "Unexpected index response: [object Object]"
  else ret tt.

Definition createOrUpdateIndex (index : IndexDef) : Async unit :=
  present <- es_indices_exists env (index_name index) ;;
  if (present : bool) then
    resp <- es_indices_putMapping env (index_name index) (index_type index) ;;
    verifySuccessfulIndexResponse resp
  else
    resp <- es_indices_create env (index_name index) ;;
    verifySuccessfulIndexResponse resp.

Definition getLastIndexedDate : Async (option Num) :=
  resp <- es_search_meta env ;;
  if 0 <? hits_total resp then
    match hits_hits resp with
    | hit :: _ => ret (Some (Date_parse_field (head (fields_last_indexed_date hit))))
    | [] => throw "Cannot read property 'fields' of undefined"
    end
  else ret None.

Definition saveIndexedDate (date : Z) : Async unit :=
  es_index_meta env "executions-meta" "executionMeta" "executionMeta-id" date.

Definition indexExecutions (workflowId : string) (executions : list Execution) : Async Z :=
  let docs := executionDocs workflowId executions in
  let numIndexed := Z.of_nat (length docs) in
  (if 0 <? numIndexed then
     let bulkArgs := docsToBulk docs in
     esResp <- es_bulk env bulkArgs ;;
     match errors esResp with
     | Some false => ret tt
     | _ => throw "Failed saving to elasticsearch"
     end
   else ret tt) ;;;
  ret numIndexed.

(** The local variables of the asynchronous function of a workflow when it
    enters its loop. *)
Definition newTask (w : Workflow) : Task :=
  {| workflow := w; totalIndexed := 0; nextToken := None; state := Paging |}.

(** The body of the loop after [indexExecutions]: what becomes of the local
    variables, and of [done]. *)
Definition afterIndexing (lastIndexedDate : option Num) (maxIndexExecutions : Z)
           (t : Task) (resp : ListExecutionsResp) (numIndexed : Z) : Task :=
  if 0 <? numIndexed then
    let totalIndexed := totalIndexed t + numIndexed in
    let done := totalIndexed >=? maxIndexExecutions in
    let nextToken := resp_nextToken resp in
    let done := if Js.falsy nextToken then true else done in
    let foundOlderExecutions :=
      (0 <? length (List.filter (executionBeforeLastIndexed lastIndexedDate)
                                (executions resp)))%nat in
    let done := if foundOlderExecutions then true else done in
    {| workflow := workflow t;
       totalIndexed := totalIndexed;
       nextToken := nextToken;
       state := if done then Returned else Paging |}
  else
    with_state Returned t.

(** One turn of [while (!done)], with nothing else running. *)
Definition loopBody (lastIndexedDate : option Num) (maxIndexExecutions : Z)
           (t : Task) : Async Task :=
  resp <- listExecutions env (arn (workflow t)) (nextToken t) 100 ;;
  numIndexed <- indexExecutions (id (workflow t)) (executions resp) ;;
  ret (afterIndexing lastIndexedDate maxIndexExecutions t resp numIndexed).

(** The asynchronous functions of the workflows run interleaved: each runs
    from one [await] to the next, and there another may be resumed. The
    function of a workflow is therefore cut at its two [await]s. *)

(** Where the loop goes on, the request of the next turn is made, and the
    function is suspended until it is answered. *)
Definition nextRequest (t : Task) : Async Task :=
  match state t with
  | Paging => send (ListExecutions (arn (workflow t)) (nextToken t) 100) ;;; ret t
  | _ => ret t
  end.

(** The asynchronous function of a workflow up to its first [await]. *)
Definition startTask (w : Workflow) : Async Task :=
  nextRequest (newTask w).

(** [workflows.map(async (w) => ...)]: the functions are started one after
    the other, and each runs up to its first [await]. *)
Fixpoint start_all (workflows : list Workflow) : Async (list Task) :=
  match workflows with
  | [] => ret []
  | w :: rest =>
      t <- startTask w ;;
      promises <- start_all rest ;;
      ret (t :: promises)
  end.

(** From the answer of [listExecutions] to the next [await]. That is the
    one of [es().bulk] in [indexExecutions] when the page has documents to
    index; when it has none [indexExecutions] returns 0 and the loop ends. *)
Definition pageAnswered (lastIndexedDate : option Num) (maxIndexExecutions : Z)
           (t : Task) : Async Task :=
  resp <- listExecutions_answer env (arn (workflow t)) (nextToken t) 100 ;;
  let docs := executionDocs (id (workflow t)) (executions resp) in
  let numIndexed := Z.of_nat (length docs) in
  if 0 <? numIndexed then
    let bulkArgs := docsToBulk docs in
    send (Bulk bulkArgs) ;;;
    ret (with_state (Indexing resp) t)
  else
    nextRequest (afterIndexing lastIndexedDate maxIndexExecutions t resp numIndexed).

(** From the answer of [es().bulk] to the next [await], that of the next
    [listExecutions], or to the end. [docs] and [numIndexed] are what
    [indexExecutions] computed from the page before it was suspended. *)
Definition bulkAnswered (lastIndexedDate : option Num) (maxIndexExecutions : Z)
           (t : Task) (resp : ListExecutionsResp) : Async Task :=
  let docs := executionDocs (id (workflow t)) (executions resp) in
  let numIndexed := Z.of_nat (length docs) in
  esResp <- es_bulk_answer env (docsToBulk docs) ;;
  match errors esResp with
  | Some false =>
      nextRequest (afterIndexing lastIndexedDate maxIndexExecutions t resp numIndexed)
  | _ => throw "Failed saving to elasticsearch"
  end.

(** A suspended task is resumed with the answer it awaits and runs to its
    next [await] or to its end; an exception ends it. A task that has ended
    stays as it is. *)
Definition resume (lastIndexedDate : option Num) (maxIndexExecutions : Z)
           (t : Task) (w : World) : World * Task :=
  let settled (r : World * Promise Task) :=
    match r with
    | (w', Fulfilled t') => (w', t')
    | (w', Rejected message) => (w', with_state (Thrown message) t)
    | (w', Pending) => (w', t)
    end in
  match state t with
  | Paging => settled (pageAnswered lastIndexedDate maxIndexExecutions t w)
  | Indexing resp => settled (bulkAnswered lastIndexedDate maxIndexExecutions t resp w)
  | _ => (w, t)
  end.

(** A whole turn of the loop of a task that nothing interrupts: it is
    resumed with the page, and again with the answer to the bulk write if
    it made one. *)
Definition turn (lastIndexedDate : option Num) (maxIndexExecutions : Z)
           (t : Task) (w : World) : World * Task :=
  let '(w1, t1) := resume lastIndexedDate maxIndexExecutions t w in
  match state t1 with
  | Indexing _ => resume lastIndexedDate maxIndexExecutions t1 w1
  | _ => (w1, t1)
  end.

(** [Promise.all(promises)] as the tasks stand: pending while a task is
    suspended and none has thrown, fulfilled once all have returned,
    rejected when one has thrown. [await_all] looks at it after every turn,
    so that the rejection it sees is that of the first task to throw. *)
Fixpoint promise_all (promises : list Task) : Promise unit :=
  match promises with
  | [] => Fulfilled tt
  | t :: rest =>
      match state t, promise_all rest with
      | Thrown message, _ => Rejected message
      | _, Rejected message => Rejected message
      | Returned, p => p
      | _, _ => Pending
      end
  end.

Fixpoint resume_nth (lastIndexedDate : option Num) (maxIndexExecutions : Z)
         (i : nat) (promises : list Task) (w : World) : World * list Task :=
  match promises, i with
  | [], _ => (w, [])
  | t :: rest, O =>
      let '(w', t') := resume lastIndexedDate maxIndexExecutions t w in (w', t' :: rest)
  | t :: rest, S j =>
      let '(w', rest') := resume_nth lastIndexedDate maxIndexExecutions j rest w in
      (w', t :: rest')
  end.

(** The tasks run interleaved: [schedule] names, turn after turn, the task
    whose answer arrives and that is resumed. Nothing stops a task but its
    own end: a task that throws leaves the others running. *)
Fixpoint run_tasks (lastIndexedDate : option Num) (maxIndexExecutions : Z)
         (schedule : list nat) (promises : list Task) (w : World) : World * list Task :=
  match schedule with
  | [] => (w, promises)
  | i :: schedule' =>
      let '(w', promises') := resume_nth lastIndexedDate maxIndexExecutions i promises w in
      run_tasks lastIndexedDate maxIndexExecutions schedule' promises' w'
  end.

(** The turns of [schedule] up to the one that settles [Promise.all]: the
    world and the tasks as they are then, and the turns that remain for
    the tasks still running. *)
Fixpoint until_settled (lastIndexedDate : option Num) (maxIndexExecutions : Z)
         (schedule : list nat) (promises : list Task) (w : World)
  : World * (list Task * list nat) :=
  match promise_all promises, schedule with
  | Pending, i :: schedule' =>
      let '(w', promises') := resume_nth lastIndexedDate maxIndexExecutions i promises w in
      until_settled lastIndexedDate maxIndexExecutions schedule' promises' w'
  | _, _ => (w, (promises, schedule))
  end.

(** [await Promise.all(promises)]: the function that awaits is resumed when
    [Promise.all] settles, whatever tasks are still running then. *)
Definition await_all (lastIndexedDate : option Num) (maxIndexExecutions : Z)
           (schedule : list nat) (promises : list Task) : Async unit :=
  fun w =>
    let '(w', (promises', _)) :=
      until_settled lastIndexedDate maxIndexExecutions schedule promises w in
    (w', promise_all promises').

Definition findAndIndexExecutions (schedule : list nat) (stackName : string)
           (maxIndexExecutions : Z) : Async unit :=
  createOrUpdateIndex executionsIndex ;;;
  createOrUpdateIndex executionsMetaIndex ;;;
  lastIndexedDate <- getLastIndexedDate ;;
  indexingStartTime <- Date_now ;;
  workflows <- loadCollectionConfig env stackName ;;
  promises <- start_all workflows ;;
  await_all lastIndexedDate maxIndexExecutions schedule promises ;;;
  saveIndexedDate indexingStartTime.

(** The handler; the outcome is the value passed to [callback]. *)
Definition handler (schedule1 schedule2 : list nat) (event : LambdaEvent) : Async Callback :=
  try_catch
    (let stackName := StackName event in
     startTime <- Date_now ;;
     findAndIndexExecutions schedule1 stackName MAX_EXECUTIONS_TO_INDEX ;;;
     finished <- Date_now ;;
     let elapsed := finished - startTime in
     sleep env (30000 - elapsed) ;;;
     findAndIndexExecutions schedule2 stackName MAX_EXECUTIONS_TO_INDEX ;;;
     ret (CallbackResult "Elasticsearch indexing complete"))
    (fun message => ret (CallbackError message)).

End Indexer.

(** ** Cycles, one after another *)

(** The watermark document as stored. *)
Definition watermark (w : World) : option Z :=
  executions_meta w !! "executionMeta-id".

(** What starts a cycle: the time since the cycle before, the stack, and the
    interleaving of its tasks. *)
Record Trigger : Type := {
  idle : N;
  trigger_stack : string;
  trigger_schedule : list nat
}.

Section Cycles.
Context `{Runtime} (env : Env).

(** The tasks of workflows from their start through a whole schedule. *)
Definition pool (lastIndexedDate : option Num) (maxIndexExecutions : Z)
           (schedule : list nat) (workflows : list Workflow) (w : World)
  : World * list Task :=
  match start_all workflows w with
  | (w1, Fulfilled promises) =>
      run_tasks env lastIndexedDate maxIndexExecutions schedule promises w1
  | (w1, _) => (w1, [])
  end.

(** The cycle up to the start of the tasks, with what it has found then:
    the last indexed date, the time it started at, and the workflows. *)
Definition cycle_setup (stackName : string) : Async (option Num * Z * list Workflow) :=
  createOrUpdateIndex env executionsIndex ;;;
  createOrUpdateIndex env executionsMetaIndex ;;;
  lastIndexedDate <- getLastIndexedDate env ;;
  indexingStartTime <- Date_now ;;
  workflows <- loadCollectionConfig env stackName ;;
  ret (lastIndexedDate, indexingStartTime, workflows).

(** The tasks of a cycle when the whole schedule has run, those that a
    rejected [Promise.all] left running included, and the world then; no
    tasks when the cycle fails before it starts them. *)
Definition cycle_pool (schedule : list nat) (stackName : string)
           (maxIndexExecutions : Z) (w : World) : World * list Task :=
  match cycle_setup stackName w with
  | (w1, Fulfilled (lastIndexedDate, _, workflows)) =>
      pool lastIndexedDate maxIndexExecutions schedule workflows w1
  | (w1, _) => (w1, [])
  end.

Definition cycle_tasks (schedule : list nat) (stackName : string)
           (maxIndexExecutions : Z) (w : World) : list Task :=
  snd (cycle_pool schedule stackName maxIndexExecutions w).

Definition thrown (t : Task) : bool :=
  match state t with
  | Thrown _ => true
  | _ => false
  end.

(** The world a cycle leaves behind. When a task has thrown, the cycle was
    rejected then and the other tasks have run on: it is the world at the
    end of the schedule. Otherwise it is the world in which
    [findAndIndexExecutions] ended. *)
Definition cycle_end (schedule : list nat) (stackName : string)
           (maxIndexExecutions : Z) (w : World) : World :=
  let '(we, promises) := cycle_pool schedule stackName maxIndexExecutions w in
  if existsb thrown promises then we
  else fst (findAndIndexExecutions env schedule stackName maxIndexExecutions w).

(** Cycles run one after another, each from the world the one before left
    behind; the result lists the world and the outcome of each at the time
    [findAndIndexExecutions] ended. *)
Fixpoint run_cycles (maxIndexExecutions : Z) (triggers : list Trigger) (w : World)
  : list (World * Promise unit) :=
  match triggers with
  | [] => []
  | c :: rest =>
      let w0 := advance (idle c) w in
      findAndIndexExecutions env (trigger_schedule c) (trigger_stack c)
                             maxIndexExecutions w0
        :: run_cycles maxIndexExecutions rest
             (cycle_end (trigger_schedule c) (trigger_stack c) maxIndexExecutions w0)
  end.

End Cycles.

(** ** Exclusive execution of a task *)

Module Lock.

(** A lease on a key: its holder and the time it expires at. *)
Record Lease : Type := {
  holderId : string;
  expiresAt : Z
}.

Definition unexpired (now : Z) (l : Lease) : bool := now <? expiresAt l.

(** Modelled from the spec: [tryAcquire(key, holderId, ttl)] of the lease
    store, which [Task.exclusive] (module [gitc-common/task], not part of
    the sources at hand) relies on. It is one atomic conditional write,
    which succeeds only if no unexpired lease exists for [key]; an expired
    lease may be reclaimed by any caller. *)
Definition tryAcquire (key holder : string) (ttl now : Z) (leases : gmap string Lease)
  : bool * gmap string Lease :=
  match leases !! key with
  | Some l =>
      if unexpired now l then (false, leases)
      else (true, <[key := {| holderId := holder; expiresAt := now + ttl |}]> leases)
  | None => (true, <[key := {| holderId := holder; expiresAt := now + ttl |}]> leases)
  end.

(** Modelled from the spec: [release(key, holderId)] of the lease store
    gives up the lease on [key] that [holderId] holds. *)
Definition release (key holder : string) (leases : gmap string Lease) : gmap string Lease :=
  match leases !! key with
  | Some l => if String.eqb (holderId l) holder then delete key leases else leases
  | None => leases
  end.

(** How the function run under the lease ends. *)
Inductive Outcome : Type :=
| Completed (result : string)
| Failed (message : string).

(** Result of an exclusive execution. *)
Inductive Result : Type :=
| Ran (o : Outcome)
| Busy.

Inductive Stage : Type :=
| Calling
| Holding
| Done (r : Result).

(** A call [exclusive(key, timeoutMs, fn)] in progress; [fn] is given by
    the way it will end. *)
Record Caller : Type := {
  holder : string;
  key : string;
  timeoutMs : Z;
  fn : Outcome;
  stage : Stage
}.

Definition at_stage (s : Stage) (c : Caller) : Caller :=
  {| holder := holder c; key := key c; timeoutMs := timeoutMs c; fn := fn c; stage := s |}.

(** The clock, the lease store, and the calls in progress. *)
Record System : Type := {
  clock : Z;
  leases : gmap string Lease;
  callers : list Caller
}.

(** Modelled from the spec: [exclusive(key, timeoutMs, fn)], the spec's
    [withLease], of [gitc-common/task], which is not part of the sources at
    hand. It acquires the lease, or returns [Busy] at once; it runs [fn];
    it releases the lease however [fn] ends. A call advances in two atomic
    steps: the attempt to acquire, and the end of [fn] with the release. *)
Definition exclusive_step (now : Z) (c : Caller) (ls : gmap string Lease)
  : Caller * gmap string Lease :=
  match stage c with
  | Calling =>
      let '(acquired, ls') := tryAcquire (key c) (holder c) (timeoutMs c) now ls in
      if acquired then (at_stage Holding c, ls')
      else (at_stage (Done Busy) c, ls')
  | Holding => (at_stage (Done (Ran (fn c))) c, release (key c) (holder c) ls)
  | Done _ => (c, ls)
  end.

(** What happens in a system: time passes, or a call advances by a step. *)
Inductive Action : Type :=
| Tick (d : N)
| Step (i : nat).

Definition act (a : Action) (s : System) : System :=
  match a with
  | Tick d => {| clock := clock s + Z.of_N d; leases := leases s; callers := callers s |}
  | Step i =>
      match callers s !! i with
      | Some c =>
          let '(c', ls') := exclusive_step (clock s) c (leases s) in
          {| clock := clock s; leases := ls'; callers := <[i := c']> (callers s) |}
      | None => s
      end
  end.

Definition run_actions (actions : list Action) (s : System) : System :=
  fold_left (fun s a => act a s) actions s.

Definition LOCK_TIMEOUT_MS : Z := 20 * 60 * 1000.

(** [GenerateMrfTask]: what [run] reads of the task. *)
Record GenerateMrfTask : Type := {
  transactionKey : string;
  instanceId : string;
  runExclusive : Outcome
}.

(** [run()]: [this.exclusive(this.transactionKey, LOCK_TIMEOUT_MS, this.runExclusive.bind(this))] *)
Definition run (task : GenerateMrfTask) : Caller :=
  {| holder := instanceId task;
     key := transactionKey task;
     timeoutMs := LOCK_TIMEOUT_MS;
     fn := runExclusive task;
     stage := Calling |}.

Definition result_of (s : System) (i : nat) : option Result :=
  match callers s !! i with
  | Some c => match stage c with Done r => Some r | _ => None end
  | None => None
  end.

(** While the leases taken since [t0] with time-out [ttl] cannot have
    expired: every call that holds has the lease of its key in its name,
    and no two calls have the same holder. *)
Definition lease_inv (t0 ttl : Z) (s : System) : Prop :=
  (forall i c, callers s !! i = Some c -> timeoutMs c = ttl) /\
  (forall i j c c',
      callers s !! i = Some c -> callers s !! j = Some c' ->
      holder c = holder c' -> i = j) /\
  t0 <= clock s /\
  (forall i c,
      callers s !! i = Some c -> stage c = Holding ->
      exists l, leases s !! key c = Some l /\ holderId l = holder c /\
                t0 + ttl <= expiresAt l).

End Lock.

(** ** Classes of events *)

(** Events of the set-up of a cycle. *)
Definition admin_event (e : Event) : bool :=
  match e with
  | IndicesExists _ | IndicesPutMapping _ _ | IndicesCreate _
  | Search _ | LoadCollectionConfig _ => true
  | _ => false
  end.

(** A page fetch. *)
Definition page_fetch (e : Event) : bool :=
  match e with
  | ListExecutions _ _ _ => true
  | _ => false
  end.

(** A bulk write or its response. *)
Definition bulk_event (e : Event) : bool :=
  match e with
  | Bulk _ | BulkReplied _ => true
  | _ => false
  end.

(** Events of the loop of a workflow. *)
Definition paging_event (e : Event) : bool :=
  page_fetch e || bulk_event e.

(** A bulk response that reports errors ([errors !== false]). *)
Definition bulk_failure (e : Event) : bool :=
  match e with
  | BulkReplied (Some false) => false
  | BulkReplied _ => true
  | _ => false
  end.

(** A write of the watermark document. *)
Definition watermark_write (e : Event) : bool :=
  match e with
  | Index _ _ _ _ => true
  | _ => false
  end.

(** Number of page fetches among events. *)
Definition fetches (evs : list (Z * Event)) : nat :=
  length (List.filter (fun te => page_fetch (snd te)) evs).

(** ** Outcomes of a cycle *)

(** A cycle that ends before [saveIndexedDate]: nothing is written to the
    watermark document, and a bulk response with errors, if there is one, is
    what ended it. *)
Definition stopped_short (w w' : World) (r : Promise unit) : Prop :=
  executions_meta w' = executions_meta w /\
  now w <= now w' /\
  r <> Fulfilled tt /\
  exists evs,
    events w' = evs ++ events w /\
    Forall (fun te : Z * Event => ~ watermark_write (snd te)) evs /\
    (Exists (fun te : Z * Event => bulk_failure (snd te)) evs ->
     r = Rejected "Failed saving to elasticsearch").

(** A cycle that reaches [saveIndexedDate]: the clock was read at [t0] after
    the set-up [pre], then came the paging [mid], then the write of [t0]. *)
Definition reached_save (w w' : World) (r : Promise unit) : Prop :=
  exists t0 t1 mid pre,
    events w' =
      (t1, Index "executions-meta" "executionMeta" "executionMeta-id" t0)
        :: mid ++ (t0, DateNow) :: pre ++ events w /\
    Forall (fun te : Z * Event => admin_event (snd te)) pre /\
    Forall (fun te : Z * Event =>
              t0 <= fst te /\ ~ watermark_write (snd te) /\ ~ bulk_failure (snd te)) mid /\
    now w <= t0 /\ t0 <= t1 /\ t1 <= now w' /\
    ((r = Fulfilled tt /\
      executions_meta w' = <["executionMeta-id" := t0]> (executions_meta w)) \/
     (exists m, r = Rejected m /\ executions_meta w' = executions_meta w)).

(** No task has thrown. *)
Definition none_thrown (promises : list Task) : Prop :=
  Forall (fun t => forall m, state t <> Thrown m) promises.

(** ** Notions used in the proofs *)

(** What a piece of code may do to the world: time does not go back, the
    watermark document is left alone, and the events it adds, stamped within
    the time it takes, all satisfy [Q]. *)
Definition quiet {X} (Q : Event -> Prop) (c : World -> World * X) : Prop :=
  forall w w' x, c w = (w', x) ->
    now w <= now w' /\
    executions_meta w' = executions_meta w /\
    exists evs, events w' = evs ++ events w /\
                Forall (fun te => now w <= te.1 <= now w' /\ Q te.2) evs.

(** The world once a call has been made and has taken its time. *)
Definition called (env : Env) (c : Event) (w : World) : World :=
  advance (latency env (record c w)) (record c w).

(** The world once an answer has taken its time. *)
Definition answered (env : Env) (w : World) : World :=
  advance (latency env w) w.

(** A task that has ended. *)
Definition ended (t : Task) : Prop :=
  state t = Returned \/ exists m, state t = Thrown m.

(** Page fetches that remain, at most, to a task. *)
Definition fetches_left (max : Z) (t : Task) : nat :=
  match state t with
  | Paging | Indexing _ => Z.to_nat (max - totalIndexed t)
  | _ => 0
  end.

(** A task after the turns it takes in the worlds [ws], one after the
    other. *)
Definition after_turns `{Runtime} (env : Env) (lastIndexedDate : option Num)
           (maxIndexExecutions : Z) (ws : list World) (t : Task) : Task :=
  fold_left (fun t w => snd (resume env lastIndexedDate maxIndexExecutions t w)) ws t.

(** A task that is suspended. *)
Definition running (t : Task) : Prop :=
  state t = Paging \/ exists resp, state t = Indexing resp.

(** Turns that remain, at most, to a task: two for every turn of its loop,
    one when it is in the middle of it. *)
Definition turns_left (max : Z) (t : Task) : nat :=
  match state t with
  | Paging => 2 * Z.to_nat (max - totalIndexed t) + 2
  | Indexing _ => 2 * Z.to_nat (max - totalIndexed t) + 1
  | _ => 0
  end.

(** The stored watermark is at least [d] and not in the future. *)
Definition watermark_from (d : Z) (w : World) : Prop :=
  exists d', watermark w = Some d' /\ d <= d' /\ d' <= now w.

(** ** Sample data *)

Module Sample.

(** [Date.parse] on the dates of the samples; any other string is taken
    not to be a date. *)
Definition parse_date (s : string) : Num :=
  if String.eqb s "2018-06-01T00:00:00.000Z" then Int 1527811200000
  else if String.eqb s "2018-06-01T00:10:00.000Z" then Int 1527811800000
  else if String.eqb s "2018-05-31T23:54:00.000Z" then Int 1527810840000
  else if String.eqb s "1969-12-31T23:54:59.999Z" then Int (-300001)
  else NaN.

Definition runtime : Runtime :=
  {| Date_parse := parse_date;
     parseExecutionName :=
       fun n => {| collectionId := Some "VNGCR_LQD_C1"; granuleId := Some n |} |}.

Definition succeeded : Execution :=
  {| name := "VNGCR_LQD_C1-2018152-0001";
     status := "SUCCEEDED";
     startDate := Some "2018-06-01T00:00:00.000Z";
     stopDate := Some "2018-06-01T00:10:00.000Z" |}.

Definition failed : Execution :=
  {| name := "VNGCR_LQD_C1-2018152-0002";
     status := "FAILED";
     startDate := Some "2018-06-01T00:00:00.000Z";
     stopDate := Some "2018-06-01T00:10:00.000Z" |}.

Definition running : Execution :=
  {| name := "VNGCR_LQD_C1-2018152-0003";
     status := "RUNNING";
     startDate := Some "2018-06-01T00:10:00.000Z";
     stopDate := None |}.

(** Stopped six minutes before 2018-06-01T00:00:00Z. *)
Definition older : Execution :=
  {| name := "VNGCR_LQD_C1-2018151-0009";
     status := "SUCCEEDED";
     startDate := Some "2018-05-31T23:54:00.000Z";
     stopDate := Some "2018-05-31T23:54:00.000Z" |}.

(** Stopped a little more than five minutes before 1970. *)
Definition before_epoch : Execution :=
  {| name := "VNGCR_LQD_C1-1969365-0001";
     status := "SUCCEEDED";
     startDate := Some "1969-12-31T23:54:59.999Z";
     stopDate := Some "1969-12-31T23:54:59.999Z" |}.

Definition wf_a : Workflow := {| id := "IngestVIIRS"; arn := "arn:aws:states:IngestVIIRS" |}.
Definition wf_b : Workflow := {| id := "DiscoverVIIRS"; arn := "arn:aws:states:DiscoverVIIRS" |}.

Definition token_eqb (a b : option string) : bool :=
  match a, b with
  | None, None => true
  | Some x, Some y => String.eqb x y
  | _, _ => false
  end.

(** A Step Functions service that answers from a table of pages, by state
    machine and token; there is nothing where the table has no entry. *)
Definition page_of (pages : list (string * option string * ListExecutionsResp))
           (a : string) (tok : option string) : ListExecutionsResp :=
  match List.find (fun p => String.eqb (fst (fst p)) a && token_eqb (snd (fst p)) tok) pages with
  | Some p => snd p
  | None => {| executions := []; resp_nextToken := None |}
  end.

(** Services that answer from [pages], fail every [listExecutions] on the
    state machine [throttled] if there is one, answer every bulk write with
    [errs], and take a millisecond per call. *)
Definition services (pages : list (string * option string * ListExecutionsResp))
           (workflows : list Workflow) (throttled : option string) (errs : option bool) : Env :=
  {| latency := fun _ => 1%N;
     fault := fun c _ =>
                match throttled, c with
                | Some a', ListExecutions a _ _ =>
                    if String.eqb a a' then Some "ThrottlingException" else None
                | _, _ => None
                end;
     acknowledge := fun _ => true;
     bulk_errors := fun _ => errs;
     page := fun _ a tok => page_of pages a tok;
     workflow_meta := fun _ _ => workflows;
     es_date := fun _ => "2018-06-01T00:00:00.000Z" |}.

(** 2018-06-01T00:01:00Z, nothing indexed yet. *)
Definition world0 : World :=
  {| now := 1527811260000;
     indices := ∅;
     executions_meta := ∅;
     executions_index := ∅;
     events := [] |}.

(** One page for [wf_a] with a finished and a running execution. *)
Definition one_page : list (string * option string * ListExecutionsResp) :=
  [(arn wf_a, None, {| executions := [succeeded; running]; resp_nextToken := None |})].

(** Three pages of 100, 100 and 40 finished executions for [wf_a]. *)
Definition three_pages : list (string * option string * ListExecutionsResp) :=
  [(arn wf_a, None,
    {| executions := repeat succeeded 100; resp_nextToken := Some "page-2" |});
   (arn wf_a, Some "page-2",
    {| executions := repeat failed 100; resp_nextToken := Some "page-3" |});
   (arn wf_a, Some "page-3",
    {| executions := repeat succeeded 40; resp_nextToken := None |})].

(** A page with an execution that stopped before the cutoff, and more to come. *)
Definition page_with_older : list (string * option string * ListExecutionsResp) :=
  [(arn wf_a, None,
    {| executions := [succeeded; older]; resp_nextToken := Some "page-2" |})].

(** A page of running executions, and more to come. *)
Definition page_of_running : list (string * option string * ListExecutionsResp) :=
  [(arn wf_a, None,
    {| executions := [running; running]; resp_nextToken := Some "page-2" |})].

(** A page with an execution that stopped before 1970, and more to come. *)
Definition page_before_epoch : list (string * option string * ListExecutionsResp) :=
  [(arn wf_a, None,
    {| executions := [before_epoch]; resp_nextToken := Some "page-2" |})].

(** Two finished executions for [wf_a], where [one_page] has one. *)
Definition two_finished : list (string * option string * ListExecutionsResp) :=
  [(arn wf_a, None, {| executions := [succeeded; failed]; resp_nextToken := None |})].

Definition event0 : LambdaEvent := {| StackName := "gitc-stack" |}.

(** Two cycles, half a minute apart. *)
Definition two_triggers : list Trigger :=
  [{| idle := 0; trigger_stack := "gitc-stack"; trigger_schedule := [0%nat; 0%nat] |};
   {| idle := 30000; trigger_stack := "gitc-stack"; trigger_schedule := [0%nat; 0%nat] |}].

(** Two instances of the task on the same transaction. *)
Definition mrf_a : Lock.GenerateMrfTask :=
  {| Lock.transactionKey := "VNGCR_LQD_C1/2018-06-01";
     Lock.instanceId := "instance-a";
     Lock.runExclusive := Lock.Failed "ENOSPC: no space left on device, mkdtemp" |}.

Definition mrf_b : Lock.GenerateMrfTask :=
  {| Lock.transactionKey := "VNGCR_LQD_C1/2018-06-01";
     Lock.instanceId := "instance-b";
     Lock.runExclusive := Lock.Completed "complete" |}.

End Sample.

(** ** Further notions used in the proofs *)

(** The index [executions-meta] holds no document but the watermark's. *)
Definition only_watermark_document (w : World) : Prop :=
  forall i, is_Some (executions_meta w !! i) -> i = "executionMeta-id".

(** The writes of the watermark document among events. *)
Definition watermark_writes (evs : list (Z * Event)) : list (Z * Event) :=
  List.filter (fun te => watermark_write (snd te)) evs.

(** A schedule names every task as often as the task has turns left. *)
Definition fair (max : Z) (schedule : list nat) (promises : list Task) : Prop :=
  forall i t, promises !! i = Some t ->
              (turns_left max t <= count_occ Nat.eq_dec schedule i)%nat.

(** A task within the cap, as far as a task can be: it has indexed at most
    the cap and 99 documents more, while it is running it has indexed
    nothing yet or less than the cap, and the page it is indexing holds 100
    executions at most. *)
Definition within_cap (max : Z) (t : Task) : Prop :=
  0 <= totalIndexed t <= Z.max max 1 + 99 /\
  (running t -> totalIndexed t = 0 \/ totalIndexed t < max) /\
  (forall resp, state t = Indexing resp -> (length (executions resp) <= 100)%nat).

(** ** The body of the exclusive task: [GenerateMrfTask.runExclusive] *)

From Stdlib Require Import Ascii.

Module Mrf.

(** [s] has no dot. *)
Fixpoint no_dot (s : string) : bool :=
match s with
| EmptyString => true
| String c rest => negb (Ascii.eqb c "."%char) && no_dot rest
end.

(** [name.replace(re, '_.$1')] where [re] matches a dot, then any number
  of characters that are not dots, then the end of the string: at the
  first position where it matches, an underscore is put before the dot; a
  name where it matches nowhere is returned as it is. *)
Fixpoint underscoreBeforeExtension (s : string) : string :=
match s with
| EmptyString => EmptyString
| String c rest =>
    if Ascii.eqb c "."%char && no_dot rest
    then String "_"%char (String c rest)
    else String c (underscoreBeforeExtension rest)
end.

(** What the task takes from Node: [path.join] of two segments,
  [path.basename] and [__dirname]. *)
Class Node : Type := {
path_join : string -> string -> string;
path_basename : string -> string;
dirname : string
}.

(** A file of [config.files] or of the payload. *)
Record File : Type := {
filename : option string;
Key : string;
contents : string
}.

(** What [runExclusive] reads of the task: the event and the configuration. *)
Record Task : Type := {
payload : list File;
transaction_epsg : string;
transaction_date : string;
transaction_zoom : string;
config_files : list File;
output_Bucket : string;
output_Key : string
}.

(** An error: an exception with its message, or the rejection of
  [runMrfgen] with the exit code of the process. *)
Inductive Error : Type :=
| Exception (message : string)
| MrfgenExited (code : Z).

(** What the task does to the outside; the lines it logs on its way are
  left out, but for the error it catches. *)
Inductive Op : Type :=
| MkdtempSync (name : string)
| ExistsSync (path : string)
| MkdirSync (path : string)
| ReaddirSync (path : string)
| LinkSync (existingPath newPath : string)
| GenerateConfig (crs date zoom : string)
| WriteFileSync (path data : string)
| DownloadS3Files (files : list File) (dir : string)
| SpawnMrfgen (configPath : string)
| UploadS3Files (paths : list string) (bucket : string) (keyPath : string -> string)
| ExecSync (command : string)
| ConsoleLog (e : Error).

(** What the outside answers, each answer depending on the operations so
  far, the one in progress first. *)
Record Env : Type := {
(** the operation in progress throws, with this message *)
throws : list Op -> option string;
(** the directory [mkdtempSync] made *)
made_dir : list Op -> string;
(** answer of [existsSync] *)
is_there : list Op -> bool;
(** answer of [readdirSync] *)
listing : list Op -> list string;
(** the configuration [generateConfig] returns *)
config_xml : list Op -> string;
(** exit code of [mrfgen] *)
exit_code : list Op -> Z
}.

(** Result of a step: a value, or an error. *)
Inductive Result (A : Type) : Type :=
| Ok (a : A)
| Err (e : Error).
Arguments Ok {A} a.
Arguments Err {A} e.

(** A computation of the task: it adds to the operations done, newest
  first, and ends with a value or an error. *)
Definition Exec (A : Type) : Type := list Op -> list Op * Result A.

Definition pure {A} (a : A) : Exec A := fun ops => (ops, Ok a).

Definition and_then {A B} (c : Exec A) (k : A -> Exec B) : Exec B :=
fun ops =>
  match c ops with
  | (ops', Ok a) => k a ops'
  | (ops', Err e) => (ops', Err e)
  end.

(** [try { c } catch (e) { h(e) }] *)
Definition catch {A} (c : Exec A) (h : Error -> Exec A) : Exec A :=
fun ops =>
  match c ops with
  | (ops', Err e) => h e ops'
  | done => done
  end.

(** [try { c } finally { f }]: [f] runs however [c] ends, and its error, if
  it has one, is the error of the whole. *)
Definition finally {A} (c : Exec A) (f : Exec unit) : Exec A :=
fun ops =>
  let '(ops1, r) := c ops in
  match f ops1 with
  | (ops2, Ok _) => (ops2, r)
  | (ops2, Err e) => (ops2, Err e)
  end.

(** [for (const x of l) { f(x) }] *)
Fixpoint for_of {A} (l : list A) (f : A -> Exec unit) : Exec unit :=
match l with
| [] => pure tt
| x :: rest => and_then (f x) (fun _ => for_of rest f)
end.

(** What [runExclusive] returns: the completion of the event without files,
  or nothing. *)
Inductive Returned : Type :=
| Complete (files : list File)
| Undefined.

Section Task.
Context `{Node} (env : Env).

(** An operation that may throw. *)
Definition op (o : Op) : Exec unit :=
fun ops =>
match throws env (o :: ops) with
| Some message => (o :: ops, Err (Exception message))
| None => (o :: ops, Ok tt)
end.

(** An operation that may throw and answers [answer]. *)
Definition ask {A} (o : Op) (answer : list Op -> A) : Exec A :=
and_then (op o) (fun _ => fun ops => (ops, Ok (answer ops))).

(** [fs.existsSync] does not throw. *)
Definition existsSync (path : string) : Exec bool :=
fun ops => (ExistsSync path :: ops, Ok (is_there env (ExistsSync path :: ops))).

(** [console.log] does not throw. *)
Definition console_log (e : Error) : Exec unit :=
fun ops => (ConsoleLog e :: ops, Ok tt).

(** [runMrfgen(configPath)]: resolved with the path when the process exits
with code 0, rejected with the code otherwise. *)
Definition runMrfgen (configPath : string) : Exec string :=
fun ops =>
let ops' := SpawnMrfgen configPath :: ops in
if exit_code env ops' =? 0 then (ops', Ok configPath)
else (ops', Err (MrfgenExited (exit_code env ops'))).

(** The key a file of the output is uploaded under. *)
Definition destKeyFn (destKey filename : string) : string :=
path_join destKey (underscoreBeforeExtension (path_basename filename)).

(** What is inside [try]. *)
Definition stage_and_generate (task : Task) (tempDir : string) : Exec unit :=
let paths_mrfgenConfig := path_join tempDir "mrfgenConfig.xml" in
let paths_templates := path_join dirname "templates" in
and_then
(for_of ["work"; "input"; "output"; "logs"; "emptyTiles"]
        (fun tempPath =>
           and_then (existsSync (path_join tempDir tempPath))
                    (fun there =>
                       if (there : bool) then pure tt
                       else op (MkdirSync (path_join tempDir tempPath)))))
(fun _ =>
let paths_input := path_join tempDir "input" in
let paths_output := path_join tempDir "output" in
let paths_emptyTiles := path_join tempDir "emptyTiles" in
let emptyTileSrcDir := path_join paths_templates "empty-tiles" in
and_then (ask (ReaddirSync emptyTileSrcDir) (listing env)) (fun tilefiles =>
and_then
(for_of tilefiles
        (fun tilefile =>
           op (LinkSync (path_join emptyTileSrcDir tilefile)
                        (path_join paths_emptyTiles tilefile))))
(fun _ =>
and_then
(ask (GenerateConfig (String.append "EPSG:" (transaction_epsg task))
                     (transaction_date task) (transaction_zoom task))
     (config_xml env)) (fun mrfConfig =>
let destBucket := output_Bucket task in
let destKey := output_Key task in
and_then (op (WriteFileSync paths_mrfgenConfig mrfConfig)) (fun _ =>
and_then
(for_of (config_files task)
        (fun file =>
           match filename file with
           | Some name =>
               if String.eqb name "" then op (DownloadS3Files [file] paths_input)
               else op (WriteFileSync (path_join paths_input name) (contents file))
           | None => op (DownloadS3Files [file] paths_input)
           end))
(fun _ =>
and_then (op (DownloadS3Files (payload task) paths_input)) (fun _ =>
and_then (runMrfgen paths_mrfgenConfig) (fun _ =>
and_then (ask (ReaddirSync paths_output) (listing env)) (fun outputs =>
let fullPaths := List.map (fun f => path_join paths_output f) outputs in
op (UploadS3Files fullPaths destBucket (destKeyFn destKey))))))))))).

Definition runExclusive (task : Task) : Exec Returned :=
if (length (payload task) =? 0)%nat then
pure (Complete [])
else
and_then (ask (MkdtempSync "GenerateMrfTask") (made_dir env)) (fun tempDir =>
and_then
  (finally
     (catch (stage_and_generate task tempDir) (fun e => console_log e))
     (op (ExecSync (String.append "rm -rf " tempDir))))
  (fun _ => pure Undefined)).

End Task.

Definition is_upload (o : Op) : bool :=
match o with
| UploadS3Files _ _ _ => true
| _ => false
end.

Definition is_exec (o : Op) : bool :=
match o with
| ExecSync _ => true
| _ => false
end.

(** The operations inside [try]: none is an [execSync]; the one process
  started there is [mrfgen], spawned on the configuration file of the
  directory; and an upload, if there is one, goes to the bucket of the
  task under the keys of [destKeyFn]. *)
Definition staged `{Node} (task : Task) (tempDir : string) (o : Op) : Prop :=
~ is_exec o /\
match o with
| UploadS3Files _ bucket keyPath =>
    bucket = output_Bucket task /\ keyPath = destKeyFn (output_Key task)
| SpawnMrfgen configPath => configPath = path_join tempDir "mrfgenConfig.xml"
| MkdtempSync _ => False
| _ => True
end.

End Mrf.

(** What a computation of the task adds to the operations done all
    satisfies [Q]. *)
Definition adds {A} (Q : Mrf.Op -> Prop) (c : Mrf.Exec A) : Prop :=
  forall ops ops' r, c ops = (ops', r) ->
                     exists new, ops' = new ++ ops /\ Forall Q new.

(** ** Samples for the task *)

Module MrfSample.

Fixpoint has_slash (s : string) : bool :=
match s with
| EmptyString => false
| String c rest => Ascii.eqb c "/"%char || has_slash rest
end.

(** What follows the last slash. *)
Fixpoint basename (s : string) : string :=
match s with
| EmptyString => EmptyString
| String c rest =>
    if has_slash rest then basename rest
    else if Ascii.eqb c "/"%char then rest
    else String c rest
end.

Definition node : Mrf.Node :=
{| Mrf.path_join := fun a b => String.append a (String.append "/" b);
   Mrf.path_basename := basename;
   Mrf.dirname := "/var/task" |}.

(** An outside where nothing throws, no directory is there yet, every
  directory read holds two files, and [mrfgen] exits with [code]. *)
Definition outside (code : Z) : Mrf.Env :=
{| Mrf.throws := fun _ => None;
   Mrf.made_dir := fun _ => "/tmp/GenerateMrfTask-k3x9";
   Mrf.is_there := fun _ => false;
   Mrf.listing := fun _ => ["VNGCR_LQD_C1.mrf"; "VNGCR_LQD_C1.idx"];
   Mrf.config_xml := fun _ => "<mrfgen_configuration/>";
   Mrf.exit_code := fun _ => code |}.

Definition granule : Mrf.File :=
{| Mrf.filename := None; Mrf.Key := "sources/VNGCR_LQD_C1-2018152.jpg"; Mrf.contents := "" |}.

Definition task : Mrf.Task :=
{| Mrf.payload := [granule];
   Mrf.transaction_epsg := "4326";
   Mrf.transaction_date := "2018-06-01";
   Mrf.transaction_zoom := "250m";
   Mrf.config_files :=
     [{| Mrf.filename := Some "colormap.xml"; Mrf.Key := ""; Mrf.contents := "<ColorMap/>" |}];
   Mrf.output_Bucket := "gitc-public";
   Mrf.output_Key := "EPSG4326/VNGCR_LQD_C1/2018" |}.

End MrfSample.

(** * Properties *)

(** ** Reasoning about asynchronous code *)

Lemma bind_inv {A B} (c : Async A) (k : A -> Async B) w w' r :
  bind c k w = (w', r) ->
  (exists w1 a, c w = (w1, Fulfilled a) /\ k a w1 = (w', r)) \/
  (exists m, c w = (w', Rejected m) /\ r = Rejected m) \/
  (c w = (w', Pending) /\ r = Pending).
Proof.
  unfold bind. destruct (c w) as [w1 [|a|m]]; intros Hk.
  - right; right. by inversion Hk.
  - left. by exists w1, a.
  - right; left. exists m. by inversion Hk.
Qed.


Lemma quiet_weaken {X} (Q Q' : Event -> Prop) (c : World -> World * X) :
  (forall e, Q e -> Q' e) -> quiet Q c -> quiet Q' c.
Proof.
  intros HQ Hc w w' x Hrun. destruct (Hc _ _ _ Hrun) as (Hn & Hm & evs & He & Hall).
  repeat split; try done. exists evs. split; [done|].
  eapply Forall_impl; [exact Hall|]. intros te [? ?]. auto.
Qed.

Lemma quiet_ret {A} Q (a : A) : quiet Q (ret a).
Proof.
  intros w w' x [= <- <-]. repeat split; try lia. by exists [].
Qed.

Lemma quiet_throw {A} Q m : quiet Q (@throw A m).
Proof.
  intros w w' x [= <- <-]. repeat split; try lia. by exists [].
Qed.

Lemma quiet_get {A} Q (f : World -> A) : quiet Q (get f).
Proof.
  intros w w' x [= <- <-]. repeat split; try lia. by exists [].
Qed.

Lemma quiet_seq {X Y} Q (c : World -> World * X) (k : X -> World -> World * Y) :
  quiet Q c -> (forall x, quiet Q (k x)) ->
  quiet Q (fun w => let '(w1, x) := c w in k x w1).
Proof.
  intros Hc Hk w w' y Hrun. destruct (c w) as [w1 x] eqn:Ec.
  destruct (Hc _ _ _ Ec) as (Hn1 & Hm1 & evs1 & He1 & Hall1).
  destruct (Hk x _ _ _ Hrun) as (Hn2 & Hm2 & evs2 & He2 & Hall2).
  split; [lia|]. split; [congruence|].
  exists (evs2 ++ evs1). split.
  - rewrite He2, He1. by rewrite app_assoc.
  - apply Forall_app. split.
    + eapply Forall_impl; [exact Hall2|]. intros te [? ?]. split; [lia|done].
    + eapply Forall_impl; [exact Hall1|]. intros te [? ?]. split; [lia|done].
Qed.

Lemma quiet_bind {A B} Q (c : Async A) (k : A -> Async B) :
  quiet Q c -> (forall a, quiet Q (k a)) -> quiet Q (bind c k).
Proof.
  intros Hc Hk w w' r Hrun.
  destruct (bind_inv _ _ _ _ _ Hrun) as [(w1 & a & Ec & Ek)|[(m & Ec & ->)|[Ec ->]]].
  - destruct (Hc _ _ _ Ec) as (Hn1 & Hm1 & evs1 & He1 & Hall1).
    destruct (Hk a _ _ _ Ek) as (Hn2 & Hm2 & evs2 & He2 & Hall2).
    split; [lia|]. split; [congruence|].
    exists (evs2 ++ evs1). split.
    + rewrite He2, He1. by rewrite app_assoc.
    + apply Forall_app. split.
      * eapply Forall_impl; [exact Hall2|]. intros te [? ?]. split; [lia|done].
      * eapply Forall_impl; [exact Hall1|]. intros te [? ?]. split; [lia|done].
  - exact (Hc _ _ _ Ec).
  - exact (Hc _ _ _ Ec).
Qed.

Section ServiceFacts.
Context `{Runtime} (env : Env).

Lemma request_run c w w' r :
  request env c w = (w', r) ->
  w' = advance (latency env (record c w)) (record c w) /\
  (r = Fulfilled tt \/ exists m, r = Rejected m).
Proof.
  unfold request, bind, send, receive.
  destruct (fault env c _) as [m|]; intros [= <- <-]; split; eauto.
Qed.

Lemma quiet_send (Q : Event -> Prop) c : Q c -> quiet Q (send c).
Proof.
  intros Hc w w' r [= <- <-]. simpl. repeat split; try lia.
  exists [(now w, c)]. split; [done|].
  constructor; [|constructor]. simpl. split; [lia|done].
Qed.

Lemma quiet_receive (Q : Event -> Prop) c : quiet Q (receive env c).
Proof.
  intros w w' r. unfold receive.
  destruct (fault env c _) as [m|]; intros [= <- <-]; simpl;
    (repeat split; try lia; by exists []).
Qed.

Lemma quiet_request (Q : Event -> Prop) c : Q c -> quiet Q (request env c).
Proof.
  intros Hc. apply quiet_bind; [by apply quiet_send|]. intros _. apply quiet_receive.
Qed.

End ServiceFacts.

Section IndexerFacts.
Context `{Runtime} (env : Env).

Lemma quiet_es_indices_exists (Q : Event -> Prop) index :
  Q (IndicesExists index) -> quiet Q (es_indices_exists env index).
Proof.
  intros. apply quiet_bind; [by apply quiet_request|]. intros _. apply quiet_get.
Qed.

Lemma quiet_es_indices_putMapping (Q : Event -> Prop) index type :
  Q (IndicesPutMapping index type) -> quiet Q (es_indices_putMapping env index type).
Proof.
  intros. apply quiet_bind; [by apply quiet_request|]. intros _. apply quiet_get.
Qed.

Lemma quiet_es_indices_create (Q : Event -> Prop) index :
  Q (IndicesCreate index) -> quiet Q (es_indices_create env index).
Proof.
  intros. apply quiet_bind; [by apply quiet_request|]. intros _ w w' r.
  destruct (acknowledge env w); intros [= <- <-]; simpl;
    (repeat split; try lia; by exists []).
Qed.

Lemma quiet_verify Q resp : quiet Q (verifySuccessfulIndexResponse resp).
Proof.
  unfold verifySuccessfulIndexResponse.
  destruct (negb _); [apply quiet_throw|apply quiet_ret].
Qed.

Lemma quiet_createOrUpdateIndex index : quiet (fun e => admin_event e) (createOrUpdateIndex env index).
Proof.
  unfold createOrUpdateIndex. apply quiet_bind.
  - by apply quiet_es_indices_exists.
  - intros [|]; (apply quiet_bind; [|intros; apply quiet_verify]).
    + by apply quiet_es_indices_putMapping.
    + by apply quiet_es_indices_create.
Qed.

Lemma quiet_getLastIndexedDate : quiet (fun e => admin_event e) (getLastIndexedDate env).
Proof.
  unfold getLastIndexedDate, es_search_meta. apply quiet_bind.
  - apply quiet_bind; [by apply quiet_request|]. intros _. apply quiet_get.
  - intros resp. destruct (0 <? _); [|apply quiet_ret].
    destruct (hits_hits resp); [apply quiet_throw|apply quiet_ret].
Qed.

Lemma quiet_loadCollectionConfig stackName :
  quiet (fun e => admin_event e) (loadCollectionConfig env stackName).
Proof.
  apply quiet_bind; [by apply quiet_request|]. intros _. apply quiet_get.
Qed.

Lemma quiet_es_bulk_answer body : quiet (fun e => bulk_event e) (es_bulk_answer env body).
Proof.
  apply quiet_bind; [apply quiet_receive|]. intros _ w w' r.
  destruct (bulk_errors env w) as [[|]|] eqn:E; rewrite ?E; intros [= <- <-]; simpl;
    (repeat split; try lia; eexists [_]; split; [reflexivity|];
     constructor; [|constructor]; simpl; split; [lia|done]).
Qed.

Lemma quiet_es_bulk body : quiet (fun e => bulk_event e) (es_bulk env body).
Proof.
  apply quiet_bind; [by apply quiet_send|]. intros _. apply quiet_es_bulk_answer.
Qed.

Lemma quiet_indexExecutions workflowId executions :
  quiet (fun e => bulk_event e) (indexExecutions env workflowId executions).
Proof.
  unfold indexExecutions. apply quiet_bind; [|intros; apply quiet_ret].
  destruct (0 <? _); [|apply quiet_ret].
  apply quiet_bind; [apply quiet_es_bulk|].
  intros resp. destruct (errors resp) as [[|]|]; try apply quiet_throw. apply quiet_ret.
Qed.

Lemma quiet_listExecutions_answer Q a tok n : quiet Q (listExecutions_answer env a tok n).
Proof.
  apply quiet_bind; [apply quiet_receive|]. intros _. apply quiet_get.
Qed.

Lemma quiet_listExecutions a tok n : quiet (fun e => paging_event e) (listExecutions env a tok n).
Proof.
  apply quiet_bind; [by apply quiet_send|]. intros _. apply quiet_listExecutions_answer.
Qed.

Lemma bulk_is_paging e : bulk_event e -> paging_event e.
Proof.
  intros He. unfold paging_event. by destruct (bulk_event e), (page_fetch e).
Qed.

Lemma quiet_loopBody lid max t : quiet (fun e => paging_event e) (loopBody env lid max t).
Proof.
  unfold loopBody. apply quiet_bind; [apply quiet_listExecutions|].
  intros resp. apply quiet_bind.
  { eapply quiet_weaken; [|apply quiet_indexExecutions]. apply bulk_is_paging. }
  intros n. apply quiet_ret.
Qed.

Lemma quiet_refl {X} Q (x : X) : quiet Q (fun w => (w, x)).
Proof. intros w w' y [= <- <-]. repeat split; try lia. by exists []. Qed.

Lemma quiet_nextRequest t : quiet (fun e => page_fetch e) (nextRequest t).
Proof.
  unfold nextRequest. destruct (state t); try apply quiet_ret.
  apply quiet_bind; [by apply quiet_send|]. intros _. apply quiet_ret.
Qed.

Lemma fetch_is_paging e : page_fetch e -> paging_event e.
Proof.
  intros He. unfold paging_event. by destruct (page_fetch e).
Qed.

Lemma quiet_start_all wfs : quiet (fun e => page_fetch e) (start_all wfs).
Proof.
  induction wfs as [|wf wfs IH]; simpl; [apply quiet_ret|].
  apply quiet_bind; [apply quiet_nextRequest|]. intros t.
  apply quiet_bind; [apply IH|]. intros ts. apply quiet_ret.
Qed.

Lemma quiet_pageAnswered lid max t :
  quiet (fun e => paging_event e) (pageAnswered env lid max t).
Proof.
  unfold pageAnswered. apply quiet_bind; [apply quiet_listExecutions_answer|].
  intros resp. destruct (0 <? _).
  - apply quiet_bind; [by apply quiet_send|]. intros _. apply quiet_ret.
  - eapply quiet_weaken; [|apply quiet_nextRequest]. apply fetch_is_paging.
Qed.

Lemma quiet_bulkAnswered lid max t resp :
  quiet (fun e => paging_event e) (bulkAnswered env lid max t resp).
Proof.
  unfold bulkAnswered. apply quiet_bind.
  { eapply quiet_weaken; [|apply quiet_es_bulk_answer]. apply bulk_is_paging. }
  intros esResp. destruct (errors esResp) as [[|]|]; try apply quiet_throw.
  eapply quiet_weaken; [|apply quiet_nextRequest]. apply fetch_is_paging.
Qed.

Lemma quiet_resume lid max t : quiet (fun e => paging_event e) (resume env lid max t).
Proof.
  unfold resume. intros w w' t'.
  destruct (state t) as [|resp| |m]; try (intros [= <- <-]; repeat split; try lia; by exists []).
  - destruct (pageAnswered env lid max t w) as [w1 r] eqn:E.
    pose proof (quiet_pageAnswered lid max t _ _ _ E) as Hq.
    destruct r; intros [= <- <-]; exact Hq.
  - destruct (bulkAnswered env lid max t resp w) as [w1 r] eqn:E.
    pose proof (quiet_bulkAnswered lid max t resp _ _ _ E) as Hq.
    destruct r; intros [= <- <-]; exact Hq.
Qed.

Lemma quiet_turn lid max t : quiet (fun e => paging_event e) (turn env lid max t).
Proof.
  unfold turn.
  apply (quiet_seq _ (resume env lid max t)
                     (fun t1 w1 => match state t1 with
                                   | Indexing _ => resume env lid max t1 w1
                                   | _ => (w1, t1)
                                   end)).
  - apply quiet_resume.
  - intros t1. destruct (state t1); try apply quiet_refl. apply quiet_resume.
Qed.

Lemma quiet_resume_nth lid max i ts : quiet (fun e => paging_event e) (resume_nth env lid max i ts).
Proof.
  revert i. induction ts as [|t ts IH]; intros i; simpl.
  - destruct i; apply quiet_refl.
  - destruct i as [|j].
    + intros w w' x; simpl. destruct (resume env lid max t w) as [w1 t1] eqn:E.
      intros [= <- <-]. exact (quiet_resume lid max t _ _ _ E).
    + intros w w' x; simpl. destruct (resume_nth env lid max j ts w) as [w1 ts1] eqn:E.
      intros [= <- <-]. exact (IH j _ _ _ E).
Qed.

Lemma quiet_run_tasks lid max schedule ts :
  quiet (fun e => paging_event e) (run_tasks env lid max schedule ts).
Proof.
  revert ts. induction schedule as [|i schedule IH]; intros ts; simpl.
  - apply quiet_refl.
  - apply (quiet_seq _ (resume_nth env lid max i ts)
                       (fun ts' => run_tasks env lid max schedule ts')).
    + apply quiet_resume_nth.
    + intros ts'. apply IH.
Qed.

Lemma quiet_until_settled lid max schedule ts :
  quiet (fun e => paging_event e) (until_settled env lid max schedule ts).
Proof.
  revert ts. induction schedule as [|i schedule IH]; intros ts; simpl.
  - destruct (promise_all ts); apply quiet_refl.
  - destruct (promise_all ts); try apply quiet_refl.
    apply (quiet_seq _ (resume_nth env lid max i ts)
                       (fun ts' => until_settled env lid max schedule ts')).
    + apply quiet_resume_nth.
    + intros ts'. apply IH.
Qed.

Lemma quiet_await_all lid max schedule ts :
  quiet (fun e => paging_event e) (await_all env lid max schedule ts).
Proof.
  unfold await_all. intros w w' r.
  destruct (until_settled env lid max schedule ts w) as [w1 [ts1 rest]] eqn:E.
  intros [= <- <-]. exact (quiet_until_settled lid max schedule ts _ _ _ E).
Qed.

(** The run of a whole schedule is the run up to the settling of
    [Promise.all], followed by the turns that remain. *)
Lemma run_tasks_until_settled lid max : forall schedule ts w w1 ts1 rest,
    until_settled env lid max schedule ts w = (w1, (ts1, rest)) ->
    run_tasks env lid max schedule ts w = run_tasks env lid max rest ts1 w1.
Proof.
  induction schedule as [|i schedule IH]; intros ts w w1 ts1 rest; simpl.
  - destruct (promise_all ts); by intros [= <- <- <-].
  - destruct (promise_all ts); try by intros [= <- <- <-].
    destruct (resume_nth env lid max i ts w) as [w2 ts2]. apply IH.
Qed.

End IndexerFacts.

Section LoopFacts.
Context `{Runtime} (env : Env).

Lemma receive_run c w :
  receive env c w =
    (answered env w,
     match fault env c (answered env w) with Some m => Rejected m | None => Fulfilled tt end).
Proof. unfold receive, answered. by destruct (fault env c _). Qed.

Lemma request_called c w :
  request env c w =
    (called env c w,
     match fault env c (called env c w) with Some m => Rejected m | None => Fulfilled tt end).
Proof. unfold request, called, bind, send, receive. by destruct (fault env c _). Qed.

Lemma called_answered c w : called env c w = answered env (record c w).
Proof. reflexivity. Qed.

Lemma es_bulk_answer_cases body w w' r :
  es_bulk_answer env body w = (w', r) ->
  let w1 := answered env w in
  (exists m, fault env (Bulk body) w1 = Some m /\ w' = w1 /\ r = Rejected m) \/
  (fault env (Bulk body) w1 = None /\ bulk_errors env w1 = Some false /\
   w' = set_executions_index
          (bulk_upsert body (executions_index w1))
          (record (BulkReplied (Some false)) w1) /\
   r = Fulfilled {| errors := Some false |}) \/
  (fault env (Bulk body) w1 = None /\ bulk_errors env w1 <> Some false /\
   w' = record (BulkReplied (bulk_errors env w1)) w1 /\
   r = Fulfilled {| errors := bulk_errors env w1 |}).
Proof.
  intros Hrun w1. unfold es_bulk_answer, bind in Hrun. rewrite receive_run in Hrun.
  fold w1 in Hrun. destruct (fault env (Bulk body) w1) as [m|].
  - left. exists m. by inversion Hrun.
  - right. destruct (bulk_errors env w1) as [[|]|] eqn:Eb; simpl in Hrun;
      inversion Hrun; subst; [right|left|right]; repeat split; congruence.
Qed.

Lemma indexExecutions_cases workflowId executions w w' r :
  indexExecutions env workflowId executions w = (w', r) ->
  let docs := executionDocs workflowId executions in
  let w1 := called env (Bulk (docsToBulk docs)) w in
  (docs = [] /\ w' = w /\ r = Fulfilled 0) \/
  (docs <> [] /\
   ((exists m, fault env (Bulk (docsToBulk docs)) w1 = Some m /\ w' = w1 /\ r = Rejected m) \/
    (fault env (Bulk (docsToBulk docs)) w1 = None /\ bulk_errors env w1 = Some false /\
     w' = set_executions_index
            (bulk_upsert (docsToBulk docs) (executions_index w1))
            (record (BulkReplied (Some false)) w1) /\
     r = Fulfilled (Z.of_nat (length docs))) \/
    (fault env (Bulk (docsToBulk docs)) w1 = None /\ bulk_errors env w1 <> Some false /\
     w' = record (BulkReplied (bulk_errors env w1)) w1 /\
     r = Rejected "Failed saving to elasticsearch"))).
Proof.
  intros Hrun docs w1. unfold indexExecutions in Hrun. fold docs in Hrun.
  destruct docs as [|d ds] eqn:Ed.
  - left. simpl in Hrun. by inversion Hrun.
  - right. split; [done|].
    assert ((0 <? Z.of_nat (length (d :: ds))) = true) as E0
        by (apply Z.ltb_lt; simpl length; lia).
    rewrite E0 in Hrun. unfold es_bulk in Hrun.
    change (bind (bind (bind (send (Bulk (docsToBulk (d :: ds))))
                             (fun _ => es_bulk_answer env (docsToBulk (d :: ds))))
                       (fun esResp => match errors esResp with
                                      | Some false => ret tt
                                      | _ => throw "Failed saving to elasticsearch"
                                      end))
                 (fun _ => ret (Z.of_nat (length (d :: ds)))) w = (w', r)) in Hrun.
    unfold bind at 1 2 3 in Hrun. unfold send at 1 in Hrun.
    destruct (es_bulk_answer env (docsToBulk (d :: ds)) (record (Bulk (docsToBulk (d :: ds))) w))
      as [w2 r2] eqn:Ea.
    apply es_bulk_answer_cases in Ea. rewrite <- called_answered in Ea. fold w1 in Ea.
    destruct Ea as [(m & Hf & -> & ->)|[(Hf & Hb & -> & ->)|(Hf & Hb & -> & ->)]].
    + left. exists m. by inversion Hrun.
    + right. left. simpl in Hrun. by inversion Hrun.
    + right. right. simpl in Hrun.
      destruct (bulk_errors env w1) as [[|]|]; try done; by inversion Hrun.
Qed.

Lemma listExecutions_answer_run a tok n w :
  listExecutions_answer env a tok n w =
    (answered env w,
     match fault env (ListExecutions a tok n) (answered env w) with
     | Some m => Rejected m
     | None => Fulfilled (page env (answered env w) a tok)
     end).
Proof.
  unfold listExecutions_answer, bind. rewrite receive_run.
  by destruct (fault env _ _).
Qed.

Lemma listExecutions_run a tok n w :
  listExecutions env a tok n w =
    (called env (ListExecutions a tok n) w,
     match fault env (ListExecutions a tok n) (called env (ListExecutions a tok n) w) with
     | Some m => Rejected m
     | None => Fulfilled (page env (called env (ListExecutions a tok n) w) a tok)
     end).
Proof.
  unfold listExecutions, bind, send. by rewrite listExecutions_answer_run.
Qed.

Lemma nextRequest_run t w :
  nextRequest t w =
    (match state t with
     | Paging => record (ListExecutions (arn (workflow t)) (nextToken t) 100) w
     | _ => w
     end, Fulfilled t).
Proof. unfold nextRequest. by destruct (state t). Qed.

(** A task is resumed with the answer to [listExecutions]: the call has
    failed, or the page has nothing to index and the task returns, or the
    bulk request is made. *)
Lemma pageAnswered_cases lid max t w w' r :
  pageAnswered env lid max t w = (w', r) ->
  let c := ListExecutions (arn (workflow t)) (nextToken t) 100 in
  let w1 := answered env w in
  let resp := page env w1 (arn (workflow t)) (nextToken t) in
  let docs := executionDocs (id (workflow t)) (executions resp) in
  (exists m, fault env c w1 = Some m /\ w' = w1 /\ r = Rejected m) \/
  (fault env c w1 = None /\ docs = [] /\ w' = w1 /\ r = Fulfilled (with_state Returned t)) \/
  (fault env c w1 = None /\ docs <> [] /\
   w' = record (Bulk (docsToBulk docs)) w1 /\
   r = Fulfilled (with_state (Indexing resp) t)).
Proof.
  intros Hrun c w1 resp docs. unfold pageAnswered, bind in Hrun.
  rewrite listExecutions_answer_run in Hrun. fold c w1 in Hrun.
  destruct (fault env c w1) as [m|].
  - left. exists m. by inversion Hrun.
  - right. fold resp docs in Hrun. destruct docs as [|d ds] eqn:Ed.
    + left. simpl in Hrun. by inversion Hrun.
    + right. assert ((0 <? Z.of_nat (length (d :: ds))) = true) as E0
          by (apply Z.ltb_lt; simpl length; lia).
      rewrite E0 in Hrun. simpl in Hrun. by inversion Hrun.
Qed.

(** A task is resumed with the answer to the bulk write: the call has
    failed, or the response reports errors, or the loop decides. *)
Lemma bulkAnswered_cases lid max t resp w w' r :
  bulkAnswered env lid max t resp w = (w', r) ->
  let docs := executionDocs (id (workflow t)) (executions resp) in
  let c := Bulk (docsToBulk docs) in
  let w1 := answered env w in
  (exists m, fault env c w1 = Some m /\ w' = w1 /\ r = Rejected m) \/
  (fault env c w1 = None /\ bulk_errors env w1 <> Some false /\
   w' = record (BulkReplied (bulk_errors env w1)) w1 /\
   r = Rejected "Failed saving to elasticsearch") \/
  (fault env c w1 = None /\ bulk_errors env w1 = Some false /\
   let w2 := set_executions_index
               (bulk_upsert (docsToBulk docs) (executions_index w1))
               (record (BulkReplied (Some false)) w1) in
   let t' := afterIndexing lid max t resp (Z.of_nat (length docs)) in
   w' = match state t' with
        | Paging => record (ListExecutions (arn (workflow t')) (nextToken t') 100) w2
        | _ => w2
        end /\
   r = Fulfilled t').
Proof.
  intros Hrun docs c w1. unfold bulkAnswered in Hrun. fold docs in Hrun.
  unfold bind in Hrun.
  destruct (es_bulk_answer env (docsToBulk docs) w) as [w2 r2] eqn:Ea.
  apply es_bulk_answer_cases in Ea. fold c w1 in Ea.
  destruct Ea as [(m & Hf & -> & ->)|[(Hf & Hb & -> & ->)|(Hf & Hb & -> & ->)]].
  - left. exists m. by inversion Hrun.
  - right. right. simpl in Hrun. rewrite nextRequest_run in Hrun.
    split; [done|]. split; [done|]. by inversion Hrun.
  - right. left. simpl in Hrun.
    destruct (bulk_errors env w1) as [[|]|]; try done; by inversion Hrun.
Qed.

Lemma resume_ended lid max t w :
  ended t -> resume env lid max t w = (w, t).
Proof. unfold resume. intros [Hs|[m Hs]]; by rewrite Hs. Qed.

Lemma running_or_ended t : running t \/ ended t.
Proof.
  unfold running, ended. destruct (state t); eauto.
Qed.

Lemma running_not_ended t : running t -> ended t -> False.
Proof.
  intros [Hr|[resp Hr]] [He|[m He]]; congruence.
Qed.

End LoopFacts.

Section TurnFacts.
Context `{Runtime} (env : Env).

Lemma afterIndexing_zero lid max t resp :
  afterIndexing lid max t resp 0 = with_state Returned t.
Proof. reflexivity. Qed.

Lemma afterIndexing_pos lid max t resp n :
  0 < n ->
  let t' := afterIndexing lid max t resp n in
  workflow t' = workflow t /\
  totalIndexed t' = totalIndexed t + n /\
  nextToken t' = resp_nextToken resp /\
  (state t' = Returned \/ state t' = Paging) /\
  (state t' = Paging <->
     totalIndexed t + n < max /\
     Js.falsy (resp_nextToken resp) = false /\
     List.filter (executionBeforeLastIndexed lid) (executions resp) = []).
Proof.
  intros Hn. unfold afterIndexing.
  assert ((0 <? n) = true) as -> by (by apply Z.ltb_lt).
  cbn [workflow totalIndexed nextToken state].
  assert (((0 <? length (List.filter (executionBeforeLastIndexed lid) (executions resp)))%nat
           = false) <->
          List.filter (executionBeforeLastIndexed lid) (executions resp) = []) as Ho.
  { destruct (List.filter _ _); simpl; split; try done. }
  assert ((totalIndexed t + n >=? max) = false <-> totalIndexed t + n < max) as Hm.
  { rewrite Z.geb_leb. apply Z.leb_gt. }
  destruct (0 <? length _)%nat, (Js.falsy _), (_ >=? _); simpl;
    repeat split; auto; try discriminate;
    try (by apply Hm); try (by apply Ho);
    intros (H1 & H2 & H3); try done;
    try (apply Hm in H1; discriminate); try (apply Ho in H3; discriminate).
Qed.

(** [afterIndexing] does not look at where the task stands. *)
Lemma afterIndexing_with_state lid max s t resp n :
  0 < n ->
  afterIndexing lid max (with_state s t) resp n = afterIndexing lid max t resp n.
Proof.
  intros Hn. unfold afterIndexing.
  assert ((0 <? n) = true) as -> by (by apply Z.ltb_lt). reflexivity.
Qed.

Lemma indexExecutions_count workflowId executions w w' n :
  indexExecutions env workflowId executions w = (w', Fulfilled n) ->
  n = Z.of_nat (length (executionDocs workflowId executions)).
Proof.
  intros Hrun. apply indexExecutions_cases in Hrun.
  destruct Hrun as [(-> & _ & [= ->])|(_ & [(? & _ & _ & ?)|[(_ & _ & _ & [= ->])|(_ & _ & _ & ?)]])];
    try done.
Qed.

Lemma listExecutions_answer_fulfilled a tok n w w1 resp :
  listExecutions_answer env a tok n w = (w1, Fulfilled resp) ->
  w1 = answered env w /\
  fault env (ListExecutions a tok n) w1 = None /\
  resp = page env w1 a tok.
Proof.
  rewrite listExecutions_answer_run. intros [= <- E].
  destruct (fault env _ _); [done|]. by inversion E.
Qed.

Lemma executionDocs_length workflowId executions :
  length (executionDocs workflowId executions) = length (List.filter notRunning executions).
Proof. unfold executionDocs. by rewrite length_map. Qed.

Lemma docs_pos {A} (docs : list A) : docs <> [] -> 0 < Z.of_nat (length docs).
Proof. destruct docs; [done|]. simpl length. lia. Qed.

(** The turn of a task that awaits a page. *)
Lemma resume_paging lid max t w w' t' :
  state t = Paging ->
  resume env lid max t w = (w', t') ->
  let c := ListExecutions (arn (workflow t)) (nextToken t) 100 in
  let w1 := answered env w in
  let resp := page env w1 (arn (workflow t)) (nextToken t) in
  let docs := executionDocs (id (workflow t)) (executions resp) in
  (exists m, fault env c w1 = Some m /\ w' = w1 /\ t' = with_state (Thrown m) t) \/
  (fault env c w1 = None /\ docs = [] /\ w' = w1 /\ t' = with_state Returned t) \/
  (fault env c w1 = None /\ docs <> [] /\
   w' = record (Bulk (docsToBulk docs)) w1 /\
   t' = with_state (Indexing resp) t).
Proof.
  intros Hs Hrun c w1 resp docs. unfold resume in Hrun. rewrite Hs in Hrun.
  destruct (pageAnswered env lid max t w) as [w2 r] eqn:E.
  apply pageAnswered_cases in E. fold c w1 resp docs in E.
  destruct E as [(m & Hf & -> & ->)|[(Hf & Hd & -> & ->)|(Hf & Hd & -> & ->)]];
    inversion Hrun; subst.
  - left. by exists m.
  - right. by left.
  - right. by right.
Qed.

(** The turn of a task that awaits the answer to its bulk write. *)
Lemma resume_indexing lid max t resp w w' t' :
  state t = Indexing resp ->
  resume env lid max t w = (w', t') ->
  let docs := executionDocs (id (workflow t)) (executions resp) in
  let c := Bulk (docsToBulk docs) in
  let w1 := answered env w in
  (exists m, fault env c w1 = Some m /\ w' = w1 /\ t' = with_state (Thrown m) t) \/
  (fault env c w1 = None /\ bulk_errors env w1 <> Some false /\
   w' = record (BulkReplied (bulk_errors env w1)) w1 /\
   t' = with_state (Thrown "Failed saving to elasticsearch") t) \/
  (fault env c w1 = None /\ bulk_errors env w1 = Some false /\
   let w2 := set_executions_index
               (bulk_upsert (docsToBulk docs) (executions_index w1))
               (record (BulkReplied (Some false)) w1) in
   t' = afterIndexing lid max t resp (Z.of_nat (length docs)) /\
   w' = match state t' with
        | Paging => record (ListExecutions (arn (workflow t')) (nextToken t') 100) w2
        | _ => w2
        end).
Proof.
  intros Hs Hrun docs c w1. unfold resume in Hrun. rewrite Hs in Hrun.
  destruct (bulkAnswered env lid max t resp w) as [w2 r] eqn:E.
  apply bulkAnswered_cases in E. fold docs c w1 in E.
  destruct E as [(m & Hf & -> & ->)|[(Hf & Hb & -> & ->)|(Hf & Hb & E)]].
  - left. exists m. by inversion Hrun.
  - right. left. by inversion Hrun.
  - right. right. simpl in E. destruct E as [-> ->]. by inversion Hrun.
Qed.

Lemma resume_workflow lid max t w w' t' :
  resume env lid max t w = (w', t') -> workflow t' = workflow t.
Proof.
  intros Hrun. destruct (state t) as [|resp| |m] eqn:Hs.
  - destruct (resume_paging lid max t w w' t' Hs Hrun)
      as [(m & _ & _ & ->)|[(_ & _ & _ & ->)|(_ & _ & _ & ->)]]; done.
  - destruct (resume_indexing lid max t resp w w' t' Hs Hrun)
      as [(m & _ & _ & ->)|[(_ & _ & _ & ->)|(_ & _ & E)]]; try done.
    simpl in E. destruct E as [-> _]. unfold afterIndexing.
    by destruct (0 <? _).
  - rewrite resume_ended in Hrun by (by left). by inversion Hrun.
  - rewrite resume_ended in Hrun by (right; by exists m). by inversion Hrun.
Qed.

End TurnFacts.

Lemma fetches_app evs1 evs2 : fetches (evs1 ++ evs2) = (fetches evs1 + fetches evs2)%nat.
Proof. unfold fetches. by rewrite List.filter_app, length_app. Qed.

Lemma fetches_bulk evs : Forall (fun te : Z * Event => bulk_event te.2) evs -> fetches evs = 0%nat.
Proof.
  induction 1 as [|[t e] evs He _ IH]; [done|].
  unfold fetches in *. simpl in *. by destruct e.
Qed.

Lemma no_fetch_bulk evs :
  Forall (fun te : Z * Event => bulk_event te.2) evs -> Forall (fun te : Z * Event => ~ page_fetch te.2) evs.
Proof.
  intros Hall. eapply Forall_impl; [exact Hall|]. intros [t e]; simpl. destruct e; simpl; tauto.
Qed.

Lemma fetches_none evs :
  Forall (fun te : Z * Event => ~ page_fetch te.2) evs -> fetches evs = 0%nat.
Proof.
  induction 1 as [|[t e] evs He _ IH]; [done|].
  unfold fetches in *. simpl in *. destruct (page_fetch e); [by destruct He|done].
Qed.

Section LoopTheorems.
Context `{Runtime} (env : Env).

Lemma resume_nth_ended lid max : forall ts i w,
    Forall ended ts -> resume_nth env lid max i ts w = (w, ts).
Proof.
  induction ts as [|t ts IH]; intros i w Hall; [by destruct i|].
  inversion Hall as [|? ? Ht Hts]; subst. destruct i as [|j]; simpl.
  - by rewrite resume_ended.
  - by rewrite IH.
Qed.

Lemma run_tasks_all_ended lid max : forall schedule ts w,
    Forall ended ts -> run_tasks env lid max schedule ts w = (w, ts).
Proof.
  induction schedule as [|i schedule IH]; intros ts w Hall; [done|].
  simpl. rewrite resume_nth_ended by done. by apply IH.
Qed.

Lemma run_tasks_ended lid max schedule t w :
  ended t -> run_tasks env lid max schedule [t] w = (w, [t]).
Proof. intros Ht. apply run_tasks_all_ended. by constructor. Qed.

(** What a turn does to the task: it throws; or, resumed with a page, it
    is left waiting for the answer to its bulk write; or it has indexed
    [n] documents and the loop has decided. *)
Lemma resume_turn lid max t w w' t' :
  running t ->
  resume env lid max t w = (w', t') ->
  workflow t' = workflow t /\
  ((exists m, state t' = Thrown m /\ totalIndexed t' = totalIndexed t) \/
   (exists resp, state t = Paging /\ state t' = Indexing resp /\
                 totalIndexed t' = totalIndexed t /\ nextToken t' = nextToken t /\
                 List.filter notRunning (executions resp) <> []) \/
   (exists n, 0 <= n /\ totalIndexed t' = totalIndexed t + n /\
              (n = 0 -> state t' = Returned) /\
              (0 < n -> exists resp, state t = Indexing resp) /\
              (max <= totalIndexed t' -> state t' = Returned) /\
              (state t' = Returned \/ state t' = Paging))).
Proof.
  intros Hrunning Hr. split; [by eapply resume_workflow|].
  destruct Hrunning as [Hs|[resp Hs]].
  - destruct (resume_paging env lid max t w w' t' Hs Hr)
      as [(m & _ & _ & ->)|[(_ & _ & _ & ->)|(_ & Hd & _ & ->)]].
    + left. by exists m.
    + right. right. exists 0. simpl. repeat split; auto; try lia.
    + right. left. eexists. repeat split; try done. simpl.
      intros E. apply Hd. unfold executionDocs. by rewrite E.
  - destruct (resume_indexing env lid max t resp w w' t' Hs Hr)
      as [(m & _ & _ & ->)|[(_ & _ & _ & ->)|(_ & _ & E)]].
    + left. by exists m.
    + left. by eexists.
    + simpl in E. destruct E as [-> _]. right. right.
      set (n := Z.of_nat (length (executionDocs (id (workflow t)) (executions resp)))).
      destruct (Z.eq_dec n 0) as [E0|Hn].
      * rewrite E0, afterIndexing_zero. exists 0. simpl. repeat split; auto; lia.
      * assert (0 < n) as Hpos by (unfold n in *; lia).
        destruct (afterIndexing_pos lid max t resp n Hpos) as (Hw & Ht & _ & Hst & Hp).
        exists n. repeat split; try done; try lia.
        -- intros _. by exists resp.
        -- intros Hmax. destruct Hst as [?|Hst]; [done|]. apply Hp in Hst. lia.
Qed.

Lemma resume_turns_left lid max t w w' t' :
  running t ->
  resume env lid max t w = (w', t') ->
  (S (turns_left max t') <= turns_left max t)%nat.
Proof.
  intros Hrunning Hr.
  destruct (resume_turn lid max t w w' t' Hrunning Hr) as (_ & Hc).
  unfold turns_left.
  destruct Hc as [(m & -> & _)|[(resp & -> & -> & Ht & _)|(n & Hn & Ht & H0 & Hi & Hmax & Hst)]].
  - destruct Hrunning as [->|[resp ->]]; lia.
  - rewrite Ht. lia.
  - destruct Hst as [->| Hp]; [destruct Hrunning as [->|[resp ->]]; lia|]. rewrite Hp.
    destruct (Z.eq_dec n 0) as [E0|Hne]; [rewrite (H0 E0) in Hp; discriminate|].
    destruct Hi as [resp ->]; [lia|].
    destruct (Z_lt_le_dec (totalIndexed t') max) as [Hlt|Hge].
    + lia.
    + rewrite Hmax in Hp; [discriminate|lia].
Qed.

(** A turn makes at most one page fetch, and only one that was left to
    the task. *)
Lemma resume_fetches lid max t w w' t' :
  resume env lid max t w = (w', t') ->
  exists evs, events w' = evs ++ events w /\
              (fetches evs + fetches_left max t' <= fetches_left max t)%nat.
Proof.
  intros Hr. destruct (state t) as [|resp| |m] eqn:Hs.
  - destruct (resume_paging env lid max t w w' t' Hs Hr)
      as [(m & _ & -> & ->)|[(_ & _ & -> & ->)|(_ & _ & -> & ->)]].
    + exists []. split; [done|]. unfold fetches, fetches_left. simpl. lia.
    + exists []. split; [done|]. unfold fetches, fetches_left. simpl. lia.
    + eexists [_]. split; [reflexivity|]. unfold fetches, fetches_left. simpl. rewrite Hs. lia.
  - destruct (resume_indexing env lid max t resp w w' t' Hs Hr)
      as [(m & _ & -> & ->)|[(_ & _ & -> & ->)|(_ & _ & E)]].
    + exists []. split; [done|]. unfold fetches, fetches_left. simpl. lia.
    + eexists [_]. split; [reflexivity|]. unfold fetches, fetches_left. simpl. lia.
    + simpl in E. destruct E as [Et ->].
      set (n := Z.of_nat (length (executionDocs (id (workflow t)) (executions resp)))) in *.
      destruct (state t') eqn:Hs'.
      * eexists [_; _]. split; [reflexivity|]. unfold fetches, fetches_left.
        rewrite Hs, Hs'. simpl.
        destruct (Z.eq_dec n 0) as [E0|Hn].
        { rewrite Et, E0, afterIndexing_zero in Hs'. discriminate. }
        assert (0 < n) as Hpos by (unfold n in *; lia).
        destruct (afterIndexing_pos lid max t resp n Hpos) as (_ & Ht & _ & _ & Hp).
        rewrite <- Et in Ht, Hp. apply Hp in Hs'. lia.
      * exfalso. rewrite Et in Hs'. unfold afterIndexing in Hs'.
        destruct (0 <? n); simpl in Hs'; [|discriminate].
        by destruct (if (0 <? length _)%nat then _ else _).
      * eexists [_]. split; [reflexivity|]. unfold fetches, fetches_left. rewrite Hs'. simpl. lia.
      * eexists [_]. split; [reflexivity|]. unfold fetches, fetches_left. rewrite Hs'. simpl. lia.
  - rewrite resume_ended in Hr by (by left). inversion Hr; subst.
    exists []. split; [done|]. unfold fetches. simpl. lia.
  - rewrite resume_ended in Hr by (right; by exists m). inversion Hr; subst.
    exists []. split; [done|]. unfold fetches. simpl. lia.
Qed.

Lemma single_run_fetches lid max schedule :
  forall t w w' ts',
    run_tasks env lid max schedule [t] w = (w', ts') ->
    exists t' evs, ts' = [t'] /\ events w' = evs ++ events w /\
                   (fetches evs + fetches_left max t' <= fetches_left max t)%nat.
Proof.
  induction schedule as [|i schedule IH]; intros t w w' ts' Hrun.
  - exists t, []. simpl in Hrun. inversion Hrun; subst.
    repeat split; try done; unfold fetches; simpl; lia.
  - simpl in Hrun. destruct i as [|j]; simpl in Hrun.
    + destruct (resume env lid max t w) as [w1 t1] eqn:Hr.
      destruct (IH _ _ _ _ Hrun) as (t' & evs & -> & He & Hf).
      destruct (resume_fetches lid max t w w1 t1 Hr) as (evs1 & He1 & Hf1).
      exists t', (evs ++ evs1). split; [done|]. split.
      * rewrite He, He1. by rewrite app_assoc.
      * rewrite fetches_app. lia.
    + assert (resume_nth env lid max j [] w = (w, [])) as E by (by destruct j).
      rewrite E in Hrun.
      destruct (IH _ _ _ _ Hrun) as (t' & evs & -> & He & Hf). by exists t', evs.
Qed.

Lemma single_run_ends lid max : forall n t w,
    (turns_left max t <= n)%nat ->
    exists w' t', run_tasks env lid max (repeat 0%nat n) [t] w = (w', [t']) /\
                  ended t'.
Proof.
  induction n as [|n IH]; intros t w Hn.
  - exists w, t. split; [done|]. destruct (running_or_ended t) as [Hr|He]; [|done].
    unfold turns_left in Hn. destruct Hr as [Hs|[resp Hs]]; rewrite Hs in Hn; lia.
  - destruct (running_or_ended t) as [Hr|He].
    2: { exists w, t. split; [|done]. by apply run_tasks_ended. }
    simpl. destruct (resume env lid max t w) as [w1 t1] eqn:Hres.
    pose proof (resume_turns_left lid max t w w1 t1 Hr Hres) as Hl.
    apply IH. lia.
Qed.

(** A task that starts makes its first request. *)
Lemma startTask_run wf w :
  startTask wf w =
    (record (ListExecutions (arn wf) None 100) w, Fulfilled (newTask wf)).
Proof. reflexivity. Qed.

Lemma start_all_fulfilled wfs : forall w,
    exists w1, start_all wfs w = (w1, Fulfilled (List.map newTask wfs)).
Proof.
  induction wfs as [|wf wfs IH]; intros w; simpl; [by exists w|].
  unfold bind at 1. rewrite startTask_run.
  destruct (IH (record (ListExecutions (arn wf) None 100) w)) as (w1 & E).
  exists w1. unfold bind. by rewrite E.
Qed.

End LoopTheorems.

Section TurnAndBody.
Context `{Runtime} (env : Env).

(** X17. The two parts of a turn make up the body of the loop as it is
  written: once the request of a task that awaits a page is made, a
  whole turn that nothing interrupts does what [loopBody] does,
  [listExecutions] then [indexExecutions] then the tests of the loop,
  followed by the request of the next turn when the loop goes on; and
  the task throws exactly when [loopBody] is rejected, with the same
  message. *)
Theorem turn_is_loopBody lid max t w :
  state t = Paging ->
  let w0 := record (ListExecutions (arn (workflow t)) (nextToken t) 100) w in
  match loopBody env lid max t w with
  | (w', Fulfilled t') => turn env lid max t w0 = (fst (nextRequest t' w'), t')
  | (w', Rejected m) => turn env lid max t w0 = (w', with_state (Thrown m) t)
  | (w', Pending) => False
  end.
Proof.
  intros Hs w0. unfold loopBody, bind. rewrite listExecutions_run.
  rewrite called_answered. fold w0.
  unfold turn. destruct (resume env lid max t w0) as [w1 t1] eqn:Hr1.
  pose proof (resume_paging env lid max t w0 w1 t1 Hs Hr1) as Hc. simpl in Hc.
  set (c := ListExecutions (arn (workflow t)) (nextToken t) 100) in *.
  set (wa := answered env w0) in *.
  set (resp := page env wa (arn (workflow t)) (nextToken t)) in *.
  set (docs := executionDocs (id (workflow t)) (executions resp)) in *.
  destruct Hc as [(m & Hf & -> & ->)|[(Hf & Hd & -> & ->)|(Hf & Hd & -> & ->)]];
    rewrite Hf; cbn [state with_state].
  - reflexivity.
  - unfold indexExecutions. fold docs. rewrite Hd. simpl. reflexivity.
  - destruct (indexExecutions env (id (workflow t)) (executions resp) wa) as [w2 r2] eqn:Ei.
    pose proof (indexExecutions_cases env _ _ _ _ _ Ei) as Hi. cbv zeta in Hi.
    fold docs in Hi. rewrite called_answered in Hi.
    set (t1 := with_state (Indexing resp) t).
    destruct (resume env lid max t1 (record (Bulk (docsToBulk docs)) wa)) as [w3 t3] eqn:Hr2.
    pose proof (resume_indexing env lid max t1 resp _ w3 t3 eq_refl Hr2) as Hb.
    change (executionDocs (id (workflow t1)) (executions resp)) with docs in Hb.
    destruct Hi as [(? & _)|(_ & [(m & Hf2 & -> & ->)|[(Hf2 & Hb2 & -> & ->)|(Hf2 & Hb2 & -> & ->)]])];
      [done| | |];
      destruct Hb as [(m' & Hf3 & -> & ->)|[(Hf3 & Hb3 & -> & ->)|(Hf3 & Hb3 & E)]];
      try congruence; try reflexivity.
    + f_equal. unfold with_state. simpl. congruence.
    + simpl in E. destruct E as [-> ->]. subst t1.
      rewrite afterIndexing_with_state by (by apply docs_pos).
      unfold ret. rewrite nextRequest_run. reflexivity.
Qed.

End TurnAndBody.

Section PartitionClaims.
Context `{Runtime} (env : Env).

Lemma older_found (T : Num) resp e :
  In e (executions resp) ->
  Js.ltb (Date_parse_field (stopDate e)) (Js.sub T (Int 300000)) = true ->
  List.filter (executionBeforeLastIndexed (Some T)) (executions resp) <> [].
Proof.
  intros He Hold Hnone.
  assert (In e (List.filter (executionBeforeLastIndexed (Some T)) (executions resp))) as Hin.
  { apply filter_In. split; [done|]. exact Hold. }
  rewrite Hnone in Hin. destruct Hin.
Qed.

(** C3. In the loop of a workflow with a last indexed date [T], let a
  page hold an execution whose parsed stop date is below [T - 300000].
  The task that is resumed with this page has ended after the turn, or has
  made its bulk write and waits for the answer; a whole turn that nothing
  interrupts ends it. The task that indexes this page and is resumed with
  the answer to its bulk write has ended after the turn. This holds
  whatever token the page came with; none of these turns adds a page
  fetch, and no schedule makes the ended task fetch again. *)
Theorem overlap_cutoff_stops_paging (T : Num) max t resp e :
  In e (executions resp) ->
  Js.ltb (Date_parse_field (stopDate e)) (Js.sub T (Int 300000)) = true ->
  (forall w w1,
      state t = Paging ->
      listExecutions_answer env (arn (workflow t)) (nextToken t) 100 w = (w1, Fulfilled resp) ->
      (exists w' t',
          resume env (Some T) max t w = (w', t') /\
          (ended t' \/ t' = with_state (Indexing resp) t) /\
          exists evs, events w' = evs ++ events w /\
                      Forall (fun te : Z * Event => ~ page_fetch te.2) evs) /\
      (exists w' t',
          turn env (Some T) max t w = (w', t') /\
          ended t' /\
          exists evs, events w' = evs ++ events w /\
                      Forall (fun te : Z * Event => ~ page_fetch te.2) evs)) /\
  (forall w,
      state t = Indexing resp ->
      exists w' t',
        resume env (Some T) max t w = (w', t') /\
        ended t' /\
        exists evs, events w' = evs ++ events w /\
                    Forall (fun te : Z * Event => ~ page_fetch te.2) evs) /\
  (forall t' schedule w2,
      ended t' -> run_tasks env (Some T) max schedule [t'] w2 = (w2, [t'])).
Proof.
  intros He Hold.
  assert (forall t0 w,
             state t0 = Indexing resp ->
             exists w' t',
               resume env (Some T) max t0 w = (w', t') /\
               ended t' /\
               exists evs, events w' = evs ++ events w /\
                           Forall (fun te : Z * Event => ~ page_fetch te.2) evs) as Hbulk.
  { intros t0 w Hs. destruct (resume env (Some T) max t0 w) as [w' t'] eqn:Hr.
    exists w', t'. split; [done|].
    destruct (resume_indexing env _ max t0 resp w w' t' Hs Hr)
      as [(m & _ & -> & ->)|[(_ & _ & -> & ->)|(_ & _ & E)]].
    - split; [right; by exists m|]. by exists [].
    - split; [right; by eexists|]. eexists [_]. split; [reflexivity|]. (repeat (constructor; [simpl; tauto|]); constructor).
    - simpl in E. destruct E as [Et ->].
      set (n := Z.of_nat (length (executionDocs (id (workflow t0)) (executions resp)))) in *.
      assert (state t' = Returned) as Hret.
      { rewrite Et. destruct (Z.eq_dec n 0) as [E0|Hn]; [by rewrite E0|].
        assert (0 < n) as Hpos by (unfold n in *; lia).
        destruct (afterIndexing_pos (Some T) max t0 resp n Hpos) as (_ & _ & _ & [?|Hp] & Hiff);
          [done|].
        apply Hiff in Hp as (_ & _ & Hnone). by destruct (older_found T resp e). }
      split; [by left|]. rewrite Hret.
      eexists [_]. split; [reflexivity|]. (repeat (constructor; [simpl; tauto|]); constructor). }
  split; [|split].
  - intros w w1 Hs Hl.
    apply listExecutions_answer_fulfilled in Hl as (-> & Hf & Hresp).
    assert (exists w' t',
               resume env (Some T) max t w = (w', t') /\
               (ended t' \/ t' = with_state (Indexing resp) t) /\
               exists evs, events w' = evs ++ events w /\
                           Forall (fun te : Z * Event => ~ page_fetch te.2) evs) as Hpage.
    { destruct (resume env (Some T) max t w) as [w' t'] eqn:Hr. exists w', t'.
      split; [done|].
      destruct (resume_paging env _ max t w w' t' Hs Hr)
        as [(m & Hm & _)|[(_ & _ & -> & ->)|(_ & _ & -> & ->)]]; [congruence| |].
      - split; [left; by left|]. by exists [].
      - rewrite <- Hresp. split; [by right|].
        eexists [_]. split; [reflexivity|]. (repeat (constructor; [simpl; tauto|]); constructor). }
    split; [exact Hpage|].
    destruct Hpage as (w1 & t1 & Hr1 & Hst & evs1 & He1 & Hn1).
    unfold turn. rewrite Hr1. destruct Hst as [Hend| ->].
    + exists w1, t1. split; [by destruct Hend as [->|[m ->]]|]. split; [done|]. by exists evs1.
    + cbn [state with_state].
      destruct (Hbulk (with_state (Indexing resp) t) w1 eq_refl)
        as (w2 & t2 & Hr2 & Hend & evs2 & He2 & Hn2).
      exists w2, t2. split; [done|]. split; [done|].
      exists (evs2 ++ evs1). split; [rewrite He2, He1; by rewrite app_assoc|].
      by apply Forall_app.
  - intros w Hs. by apply Hbulk.
  - intros t' schedule w2 Hend. by apply run_tasks_ended.
Qed.

(** C5. When all the executions of the page a task is resumed with are
  running (the filtered batch is empty), [indexExecutions] returns 0 and
  leaves the world as it is, so that no bulk write is issued: the turn
  adds no event; the task has returned, and no schedule makes it fetch
  again. *)
Theorem empty_batch_stops_paging lid max t w w1 resp :
  state t = Paging ->
  listExecutions_answer env (arn (workflow t)) (nextToken t) 100 w = (w1, Fulfilled resp) ->
  List.filter notRunning (executions resp) = [] ->
  indexExecutions env (id (workflow t)) (executions resp) w1 = (w1, Fulfilled 0) /\
  resume env lid max t w = (w1, with_state Returned t) /\
  turn env lid max t w = (w1, with_state Returned t) /\
  events w1 = events w /\
  (forall schedule w2,
      run_tasks env lid max schedule [with_state Returned t] w2 = (w2, [with_state Returned t])).
Proof.
  intros Hs Hl Hnone.
  assert (indexExecutions env (id (workflow t)) (executions resp) w1 = (w1, Fulfilled 0)) as Hi.
  { unfold indexExecutions, executionDocs. rewrite Hnone. reflexivity. }
  split; [done|].
  apply listExecutions_answer_fulfilled in Hl as (-> & Hf & Hresp).
  assert (resume env lid max t w = (answered env w, with_state Returned t)) as Hres.
  { destruct (resume env lid max t w) as [w' t'] eqn:Hr.
    destruct (resume_paging env lid max t w w' t' Hs Hr)
      as [(m & Hm & _)|[(_ & _ & -> & ->)|(_ & Hd & _)]]; [congruence|done|].
    exfalso. apply Hd. rewrite <- Hresp. unfold executionDocs. by rewrite Hnone. }
  split; [done|]. split.
  - unfold turn. by rewrite Hres.
  - split; [done|]. intros schedule w2. apply run_tasks_ended. by left.
Qed.

Lemma pool_one lid max schedule wf w :
  pool env lid max schedule [wf] w =
    run_tasks env lid max schedule [newTask wf] (record (ListExecutions (arn wf) None 100) w).
Proof. reflexivity. Qed.

(** A whole turn of the loop, as one turn of the task after the other
    makes it. *)
Lemma turn_cases lid max t w w' t' :
  state t = Paging ->
  turn env lid max t w = (w', t') ->
  (exists m, state t' = Thrown m /\ totalIndexed t' = totalIndexed t) \/
  (exists n, 0 <= n /\ totalIndexed t' = totalIndexed t + n /\
             (n = 0 -> state t' = Returned) /\
             (max <= totalIndexed t' -> 0 < n -> state t' = Returned) /\
             (state t' = Returned \/ state t' = Paging)).
Proof.
  intros Hs Hturn. unfold turn in Hturn.
  destruct (resume env lid max t w) as [w1 t1] eqn:Hr1.
  destruct (resume_turn env lid max t w w1 t1 (or_introl Hs) Hr1) as (_ & Hc).
  destruct Hc as [(m & Hm & Ht)|[(resp & _ & Hs1 & Ht1 & _)|(n & Hn & Ht & H0 & Hi & Hmax & Hst)]].
  - rewrite Hm in Hturn. inversion Hturn; subst. left. by exists m.
  - rewrite Hs1 in Hturn.
    assert (running t1) as Hrun1 by (right; by exists resp).
    destruct (resume_turn env lid max t1 w1 w' t' Hrun1 Hturn) as (_ & Hc).
    destruct Hc as [(m & Hm & Ht)|[(resp' & Hp & _)|(n & Hn & Ht & H0 & Hi & Hmax & Hst)]].
    + left. exists m. split; [done|]. congruence.
    + congruence.
    + right. exists n. rewrite <- Ht1. repeat split; auto.
  - assert (n = 0) as ->.
    { destruct (Z.eq_dec n 0) as [|Hne]; [done|]. destruct Hi as [resp Hresp]; [lia|congruence]. }
    assert (state t1 = Returned) as Hret by auto. rewrite Hret in Hturn.
    inversion Hturn; subst. right. exists 0. repeat split; auto; lia.
Qed.

(** C8. Every whole turn of the loop of a workflow ends with an
  exception, or indexes no document and returns, or indexes at least one
  document, adds their number to [totalIndexed], and returns once the
  total has reached the cap. The same holds of the two parts of a turn,
  the first of which may leave the task waiting for the answer to its
  bulk write. Resumed [2 * (max + 1)] times, twice for every turn of the
  loop, a task has ended, and whatever the schedule it makes at most
  [max + 1] page fetches; the cap of the handler is 50000. *)
Theorem paging_loop_terminates lid max :
  (forall t w w' t',
      state t = Paging ->
      turn env lid max t w = (w', t') ->
      (exists m, state t' = Thrown m /\ totalIndexed t' = totalIndexed t) \/
      (exists n, 0 <= n /\ totalIndexed t' = totalIndexed t + n /\
                 (n = 0 -> state t' = Returned) /\
                 (max <= totalIndexed t' -> 0 < n -> state t' = Returned) /\
                 (state t' = Returned \/ state t' = Paging))) /\
  (forall t w w' t',
      running t ->
      resume env lid max t w = (w', t') ->
      (exists m, state t' = Thrown m /\ totalIndexed t' = totalIndexed t) \/
      (exists resp, state t = Paging /\ state t' = Indexing resp /\
                    totalIndexed t' = totalIndexed t /\ nextToken t' = nextToken t /\
                    List.filter notRunning (executions resp) <> []) \/
      (exists n, 0 <= n /\ totalIndexed t' = totalIndexed t + n /\
                 (n = 0 -> state t' = Returned) /\
                 (0 < n -> exists resp, state t = Indexing resp) /\
                 (max <= totalIndexed t' -> state t' = Returned) /\
                 (state t' = Returned \/ state t' = Paging))) /\
  (forall wf w n,
      (2 * (Z.to_nat max + 1) <= n)%nat ->
      exists w' t', pool env lid max (repeat 0%nat n) [wf] w = (w', [t']) /\
                    ended t') /\
  (forall wf w schedule w' ts',
      pool env lid max schedule [wf] w = (w', ts') ->
      exists evs, events w' = evs ++ events w /\ (fetches evs <= Z.to_nat max + 1)%nat) /\
  MAX_EXECUTIONS_TO_INDEX = 50000.
Proof.
  split; [|split; [|split; [|split]]].
  - intros t w w' t' Hs Hr. by eapply turn_cases.
  - intros t w w' t' Hs Hr. by destruct (resume_turn env lid max t w w' t' Hs Hr) as (_ & Hc).
  - intros wf w n Hn. rewrite pool_one. apply single_run_ends. unfold turns_left. simpl.
    rewrite Z.sub_0_r. lia.
  - intros wf w schedule w' ts' Hrun. rewrite pool_one in Hrun.
    destruct (single_run_fetches env lid max schedule _ _ _ _ Hrun) as (t' & evs & _ & He & Hf).
    exists (evs ++ [(now w, ListExecutions (arn wf) None 100)]). split.
    + rewrite He. by rewrite <- app_assoc.
    + rewrite fetches_app. unfold fetches at 2. simpl.
      unfold fetches_left in Hf at 2. simpl in Hf. rewrite Z.sub_0_r in Hf. lia.
  - reflexivity.
Qed.

End PartitionClaims.

Lemma filter_all {A} (f : A -> bool) (l : list A) :
  (forall x, In x l -> f x = true) -> List.filter f l = l.
Proof.
  induction l as [|x l IH]; intros Hall; [done|]. simpl.
  rewrite (Hall x) by (by left). f_equal. apply IH. intros y Hy. apply Hall. by right.
Qed.

Lemma filter_none {A} (f : A -> bool) (l : list A) :
  (forall x, In x l -> f x = false) -> List.filter f l = [].
Proof.
  induction l as [|x l IH]; intros Hall; [done|]. simpl.
  rewrite (Hall x) by (by left). apply IH. intros y Hy. apply Hall. by right.
Qed.

Lemma notRunning_true e : notRunning e = true <-> status e <> "RUNNING".
Proof.
  unfold notRunning. rewrite negb_true_iff. split.
  - intros E Hs. rewrite Hs in E. by rewrite String.eqb_refl in E.
  - intros Hne. by apply String.eqb_neq.
Qed.

Section Exhaustion.
Context `{Runtime} (env : Env).

Lemma afterIndexing_continue lid max t resp n :
  0 < n -> totalIndexed t + n < max ->
  Js.falsy (resp_nextToken resp) = false ->
  List.filter (executionBeforeLastIndexed lid) (executions resp) = [] ->
  afterIndexing lid max t resp n =
    {| workflow := workflow t; totalIndexed := totalIndexed t + n;
       nextToken := resp_nextToken resp; state := Paging |}.
Proof.
  intros Hn Hlt Hf Ho. unfold afterIndexing.
  assert ((0 <? n) = true) as -> by (by apply Z.ltb_lt).
  rewrite Hf, Ho. simpl.
  assert ((totalIndexed t + n >=? max) = false) as ->; [|done].
  rewrite Z.geb_leb. by apply Z.leb_gt.
Qed.

Lemma afterIndexing_exhausted lid max t resp n :
  0 < n ->
  Js.falsy (resp_nextToken resp) = true ->
  afterIndexing lid max t resp n =
    {| workflow := workflow t; totalIndexed := totalIndexed t + n;
       nextToken := resp_nextToken resp; state := Returned |}.
Proof.
  intros Hn Hf. unfold afterIndexing.
  assert ((0 <? n) = true) as -> by (by apply Z.ltb_lt).
  rewrite Hf. simpl. by destruct (0 <? length _)%nat.
Qed.

(** A task resumed with the answer to its bulk write, when the page has
    no continuation token, has ended. *)
Lemma indexing_exhausted lid max t resp w w' t' :
  state t = Indexing resp ->
  Js.falsy (resp_nextToken resp) = true ->
  resume env lid max t w = (w', t') ->
  ended t'.
Proof.
  intros Hs Hf Hr.
  destruct (resume_indexing env lid max t resp w w' t' Hs Hr)
    as [(m & _ & _ & ->)|[(_ & _ & _ & ->)|(_ & _ & E)]].
  - right. by exists m.
  - right. by eexists.
  - simpl in E. destruct E as [-> _]. left.
    set (n := Z.of_nat (length (executionDocs (id (workflow t)) (executions resp)))).
    destruct (Z.eq_dec n 0) as [E0|Hn]; [by rewrite E0|].
    rewrite afterIndexing_exhausted; [done|unfold n in *; lia|done].
Qed.

(** A whole turn when no call fails, the bulk write reports no error and
    the page has documents to index. *)
Lemma turn_ok lid max t w :
  (forall c w, fault env c w = None) ->
  (forall w, bulk_errors env w = Some false) ->
  state t = Paging ->
  let resp := page env (answered env w) (arn (workflow t)) (nextToken t) in
  let n := Z.of_nat (length (List.filter notRunning (executions resp))) in
  let t' := afterIndexing lid max t resp n in
  0 < n ->
  exists w' evs,
    (forall schedule,
        run_tasks env lid max (0 :: 0 :: schedule)%nat [t] w =
        run_tasks env lid max schedule [t'] w') /\
    turn env lid max t w = (w', t') /\
    events w' = evs ++ events w /\
    fetches evs = match state t' with Paging => 1%nat | _ => 0%nat end.
Proof.
  intros Hnf Hok Hs resp n t' Hn.
  destruct (resume env lid max t w) as [w1 t1] eqn:Hr1.
  pose proof (resume_paging env lid max t w w1 t1 Hs Hr1) as Hc. cbv zeta in Hc.
  fold resp in Hc.
  destruct Hc as [(m & Hm & _)|[(_ & Hd & _)|(_ & Hd & Hw1 & Ht1)]].
  { by rewrite Hnf in Hm. }
  { exfalso. unfold n in Hn. rewrite <- executionDocs_length with (workflowId := id (workflow t)), Hd in Hn.
    simpl in Hn. lia. }
  assert (state t1 = Indexing resp) as Hs1 by (by rewrite Ht1).
  destruct (resume env lid max t1 w1) as [w2 t2] eqn:Hr2.
  pose proof (resume_indexing env lid max t1 resp w1 w2 t2 Hs1 Hr2) as Hc. cbv zeta in Hc.
  destruct Hc as [(m & Hm & _)|[(_ & Hb & _)|(_ & _ & Ht2 & Hw2)]].
  { by rewrite Hnf in Hm. }
  { by rewrite Hok in Hb. }
  assert (t2 = t') as Et.
  { rewrite Ht2, Ht1. cbn [workflow with_state]. rewrite executionDocs_length. fold n.
    by apply afterIndexing_with_state. }
  rewrite Et in *. clear Et.
  assert (exists evs, events w2 = evs ++ events w /\
                      fetches evs = match state t' with Paging => 1%nat | _ => 0%nat end)
    as (evs & He & Hf).
  { rewrite Hw2, Hw1.
    destruct (state t'); [eexists [_; _; _]|eexists [_; _]|eexists [_; _]|eexists [_; _]];
      split; reflexivity. }
  exists w2, evs. split; [|split; [|split]]; try done.
  - intros schedule. simpl. by rewrite Hr1, Hr2.
  - unfold turn. by rewrite Hr1, Hs1.
Qed.

(** C4. With services that do not fail, three pages of 100, 100 and 40
  executions, none running, none before the cutoff, the first two with a
  continuation token and the third without, and a cap above 200: the
  task of the workflow, once the six turns that three pages take are
  over, has returned with 240 documents indexed, and exactly three page
  fetches were made, that of its start included. In general a page
  without continuation token ends the loop: the task has ended after the
  whole turn on such a page, and after the turn that receives the answer
  to the bulk write of such a page. *)
Theorem three_pages_exhaust_source lid max wf p1 p2 p3 t1 t2 rest w :
  (forall c w, fault env c w = None) ->
  (forall w, bulk_errors env w = Some false) ->
  (forall w, page env w (arn wf) None = p1) ->
  (forall w, page env w (arn wf) (Some t1) = p2) ->
  (forall w, page env w (arn wf) (Some t2) = p3) ->
  resp_nextToken p1 = Some t1 -> resp_nextToken p2 = Some t2 ->
  t1 <> "" -> t2 <> "" -> Js.falsy (resp_nextToken p3) = true ->
  length (executions p1) = 100%nat ->
  length (executions p2) = 100%nat ->
  length (executions p3) = 40%nat ->
  (forall e, In e (executions p1 ++ executions p2 ++ executions p3) ->
             status e <> "RUNNING" /\ executionBeforeLastIndexed lid e = false) ->
  200 < max ->
  (exists w' t' evs,
      pool env lid max (0 :: 0 :: 0 :: 0 :: 0 :: 0 :: rest)%nat [wf] w = (w', [t']) /\
      state t' = Returned /\ totalIndexed t' = 240 /\
      events w' = evs ++ events w /\ fetches evs = 3%nat) /\
  (forall t w w1 resp w' t',
      state t = Paging ->
      listExecutions_answer env (arn (workflow t)) (nextToken t) 100 w = (w1, Fulfilled resp) ->
      Js.falsy (resp_nextToken resp) = true ->
      turn env lid max t w = (w', t') ->
      ended t') /\
  (forall t resp w w' t',
      state t = Indexing resp ->
      Js.falsy (resp_nextToken resp) = true ->
      resume env lid max t w = (w', t') ->
      ended t').
Proof.
  intros Hnf Hok Hp1 Hp2 Hp3 Hk1 Hk2 Hne1 Hne2 Hk3 Hl1 Hl2 Hl3 Hall Hmax.
  assert (forall p, (forall e, In e (executions p) ->
                               In e (executions p1 ++ executions p2 ++ executions p3)) ->
                    List.filter notRunning (executions p) = executions p /\
                    List.filter (executionBeforeLastIndexed lid) (executions p) = []) as Hpage.
  { intros p Hin. split.
    - apply filter_all. intros e He. apply notRunning_true. by apply Hall, Hin.
    - apply filter_none. intros e He. by apply Hall, Hin. }
  destruct (Hpage p1) as [Hr1 Ho1]; [intros e He; apply in_or_app; by left|].
  destruct (Hpage p2) as [Hr2 Ho2];
    [intros e He; apply in_or_app; right; apply in_or_app; by left|].
  destruct (Hpage p3) as [Hr3 Ho3];
    [intros e He; apply in_or_app; right; apply in_or_app; by right|].
  assert (forall s, s <> "" -> Js.falsy (Some s) = false) as Htruthy.
  { intros s Hs. simpl. by apply String.eqb_neq. }
  split; [|split].
  - rewrite pool_one.
    set (w0 := record (ListExecutions (arn wf) None 100) w).
    (* first page *)
    pose proof (turn_ok lid max (newTask wf) w0 Hnf Hok eq_refl) as Ha.
    cbn [workflow nextToken newTask] in Ha. rewrite Hp1, Hr1, Hl1 in Ha.
    destruct Ha as (wa & evsa & Hra & _ & Hea & Hfa); [lia|].
    rewrite afterIndexing_continue in Hra, Hfa;
      [|lia|simpl; lia| rewrite Hk1; by apply Htruthy | done
       |lia|simpl; lia| rewrite Hk1; by apply Htruthy | done].
    rewrite Hk1 in Hra. cbn [totalIndexed newTask workflow state] in Hra, Hfa.
    change (0 + Z.of_nat 100) with 100 in Hra.
    set (ta := {| workflow := wf; totalIndexed := 100; nextToken := Some t1; state := Paging |})
      in Hra.
    (* second page *)
    pose proof (turn_ok lid max ta wa Hnf Hok eq_refl) as Hb.
    cbn [workflow nextToken ta] in Hb. rewrite Hp2, Hr2, Hl2 in Hb.
    destruct Hb as (wb & evsb & Hrb & _ & Heb & Hfb); [lia|].
    rewrite afterIndexing_continue in Hrb, Hfb;
      [|lia|simpl; lia| rewrite Hk2; by apply Htruthy | done
       |lia|simpl; lia| rewrite Hk2; by apply Htruthy | done].
    rewrite Hk2 in Hrb. cbn [totalIndexed ta workflow state] in Hrb, Hfb.
    change (100 + Z.of_nat 100) with 200 in Hrb.
    set (tb := {| workflow := wf; totalIndexed := 200; nextToken := Some t2; state := Paging |})
      in Hrb.
    (* third page *)
    pose proof (turn_ok lid max tb wb Hnf Hok eq_refl) as Hc.
    cbn [workflow nextToken tb] in Hc. rewrite Hp3, Hr3, Hl3 in Hc.
    destruct Hc as (wc & evsc & Hrc & _ & Hec & Hfc); [lia|].
    rewrite afterIndexing_exhausted in Hrc, Hfc; [|lia|done|lia|done].
    cbn [totalIndexed tb workflow state] in Hrc, Hfc.
    change (200 + Z.of_nat 40) with 240 in Hrc.
    exists wc, {| workflow := wf; totalIndexed := 240; nextToken := resp_nextToken p3;
                  state := Returned |},
           (evsc ++ evsb ++ evsa ++ [(now w, ListExecutions (arn wf) None 100)]).
    split; [|split; [done|split; [done|split]]].
    + rewrite Hra, Hrb, Hrc. apply run_tasks_ended. by left.
    + rewrite Hec, Heb, Hea. by rewrite <- !app_assoc.
    + rewrite !fetches_app, Hfa, Hfb, Hfc. reflexivity.
  - intros t w0 w1 resp w' t' Hs Hl Hf Hturn.
    apply listExecutions_answer_fulfilled in Hl as (-> & Hfl & Hresp).
    unfold turn in Hturn. destruct (resume env lid max t w0) as [wa ta] eqn:Hres1.
    destruct (resume_paging env lid max t w0 wa ta Hs Hres1)
      as [(m & Hm & _)|[(_ & _ & -> & ->)|(_ & _ & -> & ->)]]; [congruence| |].
    + cbn [state with_state] in Hturn. inversion Hturn; subst. by left.
    + cbn [state with_state] in Hturn. rewrite <- Hresp in Hturn.
      exact (indexing_exhausted lid max (with_state (Indexing resp) t) resp _ _ _ eq_refl Hf Hturn).
  - intros t resp w0 w' t' Hs Hf Hr. by eapply indexing_exhausted.
Qed.

End Exhaustion.

Lemma round_double_small z : Z.abs z < 2 ^ 53 -> Js.round_double z = z.
Proof.
  intros Hz. unfold Js.round_double.
  destruct (Z.ltb_spec (Z.abs z) (2 ^ 53)); [done|lia].
Qed.

Lemma bulk_upsert_lookup `{Runtime} docs : forall m i source,
    bulk_upsert (docsToBulk docs) m !! i = Some source ->
    m !! i = Some source \/
    exists doc, In doc docs /\ _id doc = i /\ source = withoutId doc.
Proof.
  induction docs as [|d ds IH]; intros m i source Hl; [by left|].
  simpl in Hl. apply IH in Hl as [Hl|(doc & Hin & Hid & Hs)].
  - destruct (decide (_id d = i)) as [E|Hne].
    + rewrite E, lookup_insert_eq in Hl. inversion Hl. right. exists d.
      split; [by left|done].
    + rewrite lookup_insert_ne in Hl by done. by left.
  - right. exists doc. split; [by right|done].
Qed.

Section DocumentClaims.
Context `{Runtime}.

Lemma executionDocs_In workflowId executions doc :
  In doc (executionDocs workflowId executions) <->
  exists e, In e executions /\ status e <> "RUNNING" /\ doc = executionToDoc workflowId e.
Proof.
  unfold executionDocs. rewrite in_map_iff. split.
  - intros (e & <- & He). apply filter_In in He as [He Hn].
    exists e. split; [done|]. split; [by apply notRunning_true|done].
  - intros (e & He & Hn & ->). exists e. split; [done|].
    apply filter_In. split; [done|by apply notRunning_true].
Qed.

(** C6. The document of an execution has the name as [_id], the id of
  the workflow, the collection and granule parsed from the name, the
  parsed start and stop dates, their difference as elapsed time, and
  [success] exactly when the status is SUCCEEDED. The documents of
  [indexExecutions] are those of the executions that are not running;
  the only bulk body it sends holds these documents, and it stores
  nothing else in the index. *)
Theorem execution_documents workflowId executions :
  (forall e,
      let doc := executionToDoc workflowId e in
      _id doc = name e /\
      workflow_id doc = workflowId /\
      collection_id doc = collectionId (parseExecutionName (name e)) /\
      granule_id doc = granuleId (parseExecutionName (name e)) /\
      start_date doc = Date_parse_field (startDate e) /\
      stop_date doc = Date_parse_field (stopDate e) /\
      elapsed_ms doc = Js.sub (stop_date doc) (start_date doc) /\
      (forall a b, start_date doc = Int a -> stop_date doc = Int b ->
                   Z.abs (b - a) < 2 ^ 53 -> elapsed_ms doc = Int (b - a)) /\
      (success doc = true <-> status e = "SUCCEEDED")) /\
  (forall doc,
      In doc (executionDocs workflowId executions) <->
      exists e, In e executions /\ status e <> "RUNNING" /\ doc = executionToDoc workflowId e) /\
  (forall env w w' r,
      indexExecutions env workflowId executions w = (w', r) ->
      (forall t body, In (t, Bulk body) (events w') ->
                      In (t, Bulk body) (events w) \/
                      body = docsToBulk (executionDocs workflowId executions)) /\
      (forall i source,
          executions_index w' !! i = Some source ->
          executions_index w !! i = Some source \/
          exists e, In e executions /\ status e <> "RUNNING" /\
                    i = name e /\ source = withoutId (executionToDoc workflowId e))).
Proof.
  split; [|split].
  - intros e doc. subst doc. simpl. repeat split; try done.
    + intros a b -> -> Hsmall. simpl. by rewrite round_double_small.
    + by intros ->%String.eqb_eq.
    + intros ->. apply String.eqb_refl.
  - apply executionDocs_In.
  - intros env w w' r Hrun. apply indexExecutions_cases in Hrun. simpl in Hrun.
    destruct Hrun as
      [(_ & -> & _)|(_ & [(m & _ & -> & _)|[(_ & _ & -> & _)|(_ & _ & -> & _)]])];
      simpl; (split; [intros t body Hin | intros i source Hl]); auto.
    + destruct Hin as [[= <- <-]|Hin]; auto.
    + destruct Hin as [[=]|[[= <- <-]|Hin]]; auto.
    + apply bulk_upsert_lookup in Hl as [Hl|(doc & Hin & <- & ->)]; [by left|]. right.
      apply executionDocs_In in Hin as (e & He & Hn & ->). by exists e.
    + destruct Hin as [[=]|[[= <- <-]|Hin]]; auto.
Qed.

End DocumentClaims.

Section FirstCycle.
Context `{Runtime} (env : Env).

Lemma getLastIndexedDate_empty w w1 r :
  executions_meta w = ∅ ->
  getLastIndexedDate env w = (w1, r) ->
  r = Fulfilled None \/ exists m, r = Rejected m.
Proof.
  intros Hm. unfold getLastIndexedDate, es_search_meta, bind.
  rewrite request_called. destruct (fault env _) as [m|].
  - intros [= <- <-]. right. by exists m.
  - simpl. rewrite Hm, map_to_list_empty. simpl. intros [= <- <-]. by left.
Qed.

Lemma not_before_null e :
  (Date_parse_field (stopDate e) = NaN \/
   exists s, Date_parse_field (stopDate e) = Int s /\ -300000 <= s) ->
  executionBeforeLastIndexed None e = false.
Proof.
  unfold executionBeforeLastIndexed. intros [->|(s & -> & Hs)]; [done|].
  simpl. apply Z.ltb_ge. exact Hs.
Qed.

(** C10, as amended. With no watermark document [getLastIndexedDate]
  returns [null] unless its search fails; the cutoff predicate of [null]
  compares the parsed stop date with -300000, and is false for every
  execution whose stop date does not parse or is not below -300000
  milliseconds; on a page of such executions a turn of a first cycle,
  whole or from the answer to the bulk write on, returns only for want of
  a token, for an empty batch or for the cap. *)
Theorem first_cycle_cutoff w w1 r :
  executions_meta w = ∅ ->
  getLastIndexedDate env w = (w1, r) ->
  (r = Fulfilled None \/ exists m, r = Rejected m) /\
  (forall e, executionBeforeLastIndexed None e =
             Js.ltb (Date_parse_field (stopDate e)) (Int (-300000))) /\
  (forall e,
      (Date_parse_field (stopDate e) = NaN \/
       exists s, Date_parse_field (stopDate e) = Int s /\ -300000 <= s) ->
      executionBeforeLastIndexed None e = false) /\
  (forall max t resp w2 w' t',
      state t = Indexing resp ->
      (forall e, In e (executions resp) ->
                 Date_parse_field (stopDate e) = NaN \/
                 exists s, Date_parse_field (stopDate e) = Int s /\ -300000 <= s) ->
      resume env None max t w2 = (w', t') ->
      state t' = Returned ->
      Js.falsy (resp_nextToken resp) = true \/
      List.filter notRunning (executions resp) = [] \/
      max <= totalIndexed t') /\
  (forall max t w2 w3 resp w' t',
      state t = Paging ->
      listExecutions_answer env (arn (workflow t)) (nextToken t) 100 w2 = (w3, Fulfilled resp) ->
      (forall e, In e (executions resp) ->
                 Date_parse_field (stopDate e) = NaN \/
                 exists s, Date_parse_field (stopDate e) = Int s /\ -300000 <= s) ->
      turn env None max t w2 = (w', t') ->
      state t' = Returned ->
      Js.falsy (resp_nextToken resp) = true \/
      List.filter notRunning (executions resp) = [] \/
      max <= totalIndexed t').
Proof.
  intros Hm Hg. split; [by eapply getLastIndexedDate_empty|].
  split; [done|]. split; [apply not_before_null|].
  assert (forall max t resp w2 w' t',
             state t = Indexing resp ->
             (forall e, In e (executions resp) ->
                        Date_parse_field (stopDate e) = NaN \/
                        exists s, Date_parse_field (stopDate e) = Int s /\ -300000 <= s) ->
             resume env None max t w2 = (w', t') ->
             state t' = Returned ->
             Js.falsy (resp_nextToken resp) = true \/
             List.filter notRunning (executions resp) = [] \/
             max <= totalIndexed t') as Hstep.
  { intros max t resp w2 w' t' Hs Hall Hr Hret.
    destruct (resume_indexing env None max t resp w2 w' t' Hs Hr)
      as [(m & _ & _ & ->)|[(_ & _ & _ & ->)|(_ & _ & E)]]; try done.
    simpl in E. destruct E as [-> _].
    rewrite executionDocs_length in Hret.
    destruct (List.filter notRunning (executions resp)) as [|e0 l] eqn:Ef; [auto|].
    set (n := Z.of_nat (length (e0 :: l))) in *.
    assert (0 < n) as Hpos by (unfold n; simpl length; lia).
    destruct (afterIndexing_pos None max t resp n Hpos) as (_ & Ht & _ & _ & Hp).
    destruct (Js.falsy (resp_nextToken resp)) eqn:Ek; [auto|].
    right; right. rewrite executionDocs_length, Ef. fold n. rewrite Ht.
    destruct (Z_lt_le_dec (totalIndexed t + n) max) as [Hlt|]; [|done].
    assert (state (afterIndexing None max t resp n) = Paging) as Hpg.
    { apply Hp. repeat split; try done.
      apply filter_none. intros e He. by apply not_before_null, Hall. }
    congruence. }
  split; [exact Hstep|].
  intros max t w2 w3 resp w' t' Hs Hl Hall Hturn Hret.
  apply listExecutions_answer_fulfilled in Hl as (-> & Hfl & Hresp).
  unfold turn in Hturn. destruct (resume env None max t w2) as [wa ta] eqn:Hr1.
  destruct (resume_paging env None max t w2 wa ta Hs Hr1)
    as [(m & Hf & _)|[(_ & Hd & -> & ->)|(_ & _ & -> & ->)]]; [congruence| |].
  - right; left. rewrite <- Hresp in Hd.
    apply (f_equal (@length _)) in Hd. rewrite executionDocs_length in Hd.
    by destruct (List.filter notRunning (executions resp)).
  - cbn [state with_state] in Hturn. rewrite <- Hresp in Hturn.
    exact (Hstep max (with_state (Indexing resp) t) resp _ _ _ eq_refl Hall Hturn Hret).
Qed.

End FirstCycle.

(** The events added between two worlds are determined. *)
Lemma added_unique {A} (l evs1 evs2 : list A) l' :
  l' = evs1 ++ l -> l' = evs2 ++ l -> evs1 = evs2.
Proof. intros -> E. by apply app_inv_tail in E. Qed.

Section PoolFacts.
Context `{Runtime} (env : Env).

Lemma promise_all_thrown ts m :
  promise_all ts = Rejected m -> exists t, In t ts /\ state t = Thrown m.
Proof.
  induction ts as [|t ts IH]; [done|]. simpl. intros E.
  destruct (state t) eqn:Hs.
  - destruct (promise_all ts) eqn:Ep; try done. inversion E; subst.
    destruct (IH eq_refl) as (t0 & Hin & Ht0). exists t0. auto.
  - destruct (promise_all ts) eqn:Ep; try done. inversion E; subst.
    destruct (IH eq_refl) as (t0 & Hin & Ht0). exists t0. auto.
  - destruct (promise_all ts) eqn:Ep; try done. inversion E; subst.
    destruct (IH eq_refl) as (t0 & Hin & Ht0). exists t0. auto.
  - inversion E; subst. exists t. auto.
Qed.

Lemma promise_all_rejected ts m :
  promise_all ts = Rejected m -> ~ none_thrown ts.
Proof.
  intros E Hn. destruct (promise_all_thrown ts m E) as (t & Hin & Ht).
  unfold none_thrown in Hn. rewrite List.Forall_forall in Hn. by eapply Hn.
Qed.

Lemma none_thrown_not_rejected ts m : none_thrown ts -> promise_all ts <> Rejected m.
Proof. intros Hn E. by eapply promise_all_rejected. Qed.

Lemma not_rejected_none_thrown ts :
  (forall m, promise_all ts <> Rejected m) -> none_thrown ts.
Proof.
  induction ts as [|t ts IH]; [by constructor|]. simpl. intros Hnr.
  constructor.
  - intros m Hs. rewrite Hs in Hnr. by apply (Hnr m).
  - apply IH. intros m E. rewrite E in Hnr.
    destruct (state t) as [| | |m']; [by apply (Hnr m)..|by apply (Hnr m')].
Qed.

Lemma promise_all_pending ts : promise_all ts = Pending -> none_thrown ts.
Proof. intros E. apply not_rejected_none_thrown. intros m. by rewrite E. Qed.

Lemma promise_all_fulfilled ts :
  promise_all ts = Fulfilled tt -> Forall (fun t => state t = Returned) ts.
Proof.
  induction ts as [|t ts IH]; [by constructor|]. simpl. intros E.
  destruct (state t) eqn:Hs, (promise_all ts) as [| []|] eqn:Ep; try done.
  constructor; [done|by apply IH].
Qed.

Lemma promise_all_ended ts : Forall ended ts -> promise_all ts <> Pending.
Proof.
  induction 1 as [|t ts Ht _ IH]; [done|]. simpl.
  destruct Ht as [->|[m ->]]; [|done]. by destruct (promise_all ts).
Qed.

Lemma promise_all_thrown_tail t ts m :
  (forall m', state t <> Thrown m') ->
  promise_all ts = Rejected m -> promise_all (t :: ts) = Rejected m.
Proof. intros Ht E. simpl. rewrite E. destruct (state t) eqn:Hs; try done. by destruct (Ht message). Qed.

(** A turn that sees a bulk response with errors ends in the exception of
    [indexExecutions]. *)
Lemma resume_bulk_failure lid max t w w' t' evs :
  resume env lid max t w = (w', t') ->
  events w' = evs ++ events w ->
  Exists (fun te : Z * Event => bulk_failure te.2) evs ->
  state t' = Thrown "Failed saving to elasticsearch".
Proof.
  intros Hr He Hbad.
  assert (forall l, events w' = l ++ events w ->
                    Forall (fun te : Z * Event => ~ bulk_failure te.2) l -> False) as Hno.
  { intros l Hl Hall. rewrite (added_unique _ _ _ _ He Hl) in Hbad.
    apply List.Exists_exists in Hbad as (x & Hin & Hx).
    rewrite List.Forall_forall in Hall. by apply (Hall x). }
  destruct (state t) as [|resp| |m] eqn:Hs.
  - exfalso.
    destruct (resume_paging env lid max t w w' t' Hs Hr)
      as [(m & _ & -> & ->)|[(_ & _ & -> & ->)|(_ & _ & -> & ->)]].
    + by apply (Hno []).
    + by apply (Hno []).
    + eapply (Hno [_]); [reflexivity|]. repeat (constructor; [simpl; tauto|]). constructor.
  - destruct (resume_indexing env lid max t resp w w' t' Hs Hr)
      as [(m & _ & -> & ->)|[(_ & _ & -> & ->)|(_ & Hb & E)]].
    + exfalso. by apply (Hno []).
    + done.
    + exfalso. simpl in E. destruct E as [_ ->].
      destruct (state t').
      * eapply (Hno [_; _]); [reflexivity|]. repeat (constructor; [simpl; tauto|]). constructor.
      * eapply (Hno [_]); [reflexivity|]. repeat (constructor; [simpl; tauto|]). constructor.
      * eapply (Hno [_]); [reflexivity|]. repeat (constructor; [simpl; tauto|]). constructor.
      * eapply (Hno [_]); [reflexivity|]. repeat (constructor; [simpl; tauto|]). constructor.
  - exfalso. rewrite resume_ended in Hr by (by left). inversion Hr; subst. by apply (Hno []).
  - exfalso. rewrite resume_ended in Hr by (right; by exists m). inversion Hr; subst.
    by apply (Hno []).
Qed.

Lemma resume_nth_bulk_failure lid max : forall ts i w w' ts' evs,
    resume_nth env lid max i ts w = (w', ts') ->
    none_thrown ts ->
    events w' = evs ++ events w ->
    Exists (fun te : Z * Event => bulk_failure te.2) evs ->
    promise_all ts' = Rejected "Failed saving to elasticsearch".
Proof.
  induction ts as [|t ts IH]; intros i w w' ts' evs Hr Hn He Hbad.
  - assert (w' = w) as -> by (destruct i; by inversion Hr).
    assert (evs = []) as -> by (by eapply (added_unique (events w) _ [])).
    by apply Exists_nil in Hbad.
  - apply Forall_cons in Hn as [Ht Hts]. destruct i as [|j]; simpl in Hr.
    + destruct (resume env lid max t w) as [w1 t1] eqn:Hr1. inversion Hr; subst.
      simpl. by rewrite (resume_bulk_failure _ _ _ _ _ _ _ Hr1 He Hbad).
    + destruct (resume_nth env lid max j ts w) as [w1 ts1] eqn:Hr1. inversion Hr; subst.
      apply promise_all_thrown_tail; [done|]. by eapply IH.
Qed.

Lemma until_settled_stop lid max schedule ts w :
  promise_all ts <> Pending ->
  until_settled env lid max schedule ts w = (w, (ts, schedule)).
Proof. intros Hp. destruct schedule; simpl; by destruct (promise_all ts). Qed.

Lemma until_settled_bulk_failure lid max : forall schedule ts w w' ts' rest evs,
    until_settled env lid max schedule ts w = (w', (ts', rest)) ->
    events w' = evs ++ events w ->
    Exists (fun te : Z * Event => bulk_failure te.2) evs ->
    promise_all ts' = Rejected "Failed saving to elasticsearch".
Proof.
  induction schedule as [|i schedule IH]; intros ts w w' ts' rest evs Hrun He Hbad.
  - assert (w' = w) as -> by (simpl in Hrun; destruct (promise_all ts); by inversion Hrun).
    assert (evs = []) as -> by (by eapply (added_unique (events w) _ [])).
    by apply Exists_nil in Hbad.
  - simpl in Hrun. destruct (promise_all ts) eqn:Ep.
    2,3: inversion Hrun; subst;
         assert (evs = []) as -> by (by eapply (added_unique (events w') _ []));
         by apply Exists_nil in Hbad.
    destruct (resume_nth env lid max i ts w) as [w1 ts1] eqn:Hr.
    destruct (quiet_resume_nth env lid max i ts _ _ _ Hr) as (_ & _ & evs1 & He1 & _).
    destruct (quiet_until_settled env lid max schedule ts1 _ _ _ Hrun) as (_ & _ & evs2 & He2 & _).
    assert (evs = evs2 ++ evs1) as ->.
    { eapply added_unique; [exact He|]. rewrite He2, He1. by rewrite app_assoc. }
    apply Exists_app in Hbad as [Hbad|Hbad].
    + by eapply IH.
    + pose proof (resume_nth_bulk_failure lid max _ _ _ _ _ _ Hr
                    (promise_all_pending _ Ep) He1 Hbad) as Hrej.
      rewrite until_settled_stop in Hrun by (by rewrite Hrej).
      by inversion Hrun; subst.
Qed.

Lemma await_all_bulk_failure lid max schedule ts w w' r evs :
  await_all env lid max schedule ts w = (w', r) ->
  events w' = evs ++ events w ->
  Exists (fun te : Z * Event => bulk_failure te.2) evs ->
  r = Rejected "Failed saving to elasticsearch".
Proof.
  unfold await_all.
  destruct (until_settled env lid max schedule ts w) as [w1 [ts1 rest]] eqn:Hrun.
  intros [= <- <-] He Hbad. by eapply until_settled_bulk_failure.
Qed.

End PoolFacts.

Lemma admin_not_write e : admin_event e -> ~ watermark_write e.
Proof. destruct e; simpl; tauto. Qed.

Lemma admin_not_failure e : admin_event e -> ~ bulk_failure e.
Proof. destruct e; simpl; tauto. Qed.

Lemma admin_not_fetch e : admin_event e -> ~ page_fetch e.
Proof. destruct e; simpl; tauto. Qed.

Lemma paging_not_write e : paging_event e -> ~ watermark_write e.
Proof. destruct e; simpl; tauto. Qed.

Lemma not_Exists_Forall {A} (P Q : A -> Prop) l :
  Forall P l -> (forall x, P x -> ~ Q x) -> ~ Exists Q l.
Proof.
  intros Hall Hpq Hex. apply Exists_exists in Hex as (x & Hin & Hq).
  rewrite Forall_forall in Hall. apply (Hpq x); [|done]. by apply Hall.
Qed.

Section CycleFacts.
Context `{Runtime} (env : Env).

(** Set-up code before the clock is read keeps the outcome of a cycle. *)
Lemma cycle_prefix {A} (c : Async A) (k : A -> Async unit) :
  quiet (fun e => admin_event e) c ->
  (forall a w1 w' r, k a w1 = (w', r) -> stopped_short w1 w' r \/ reached_save w1 w' r) ->
  forall w w' r, bind c k w = (w', r) -> stopped_short w w' r \/ reached_save w w' r.
Proof.
  intros Hc Hk w w' r Hrun.
  destruct (bind_inv _ _ _ _ _ Hrun) as [(w1 & a & Ec & Ek)|[(m & Ec & ->)|[Ec ->]]].
  - destruct (Hc _ _ _ Ec) as (Hn1 & Hm1 & evs1 & He1 & Hall1).
    assert (Forall (fun te : Z * Event => admin_event te.2) evs1) as Hadm.
    { eapply Forall_impl; [exact Hall1|]. by intros te [_ ?]. }
    destruct (Hk _ _ _ _ Ek) as [(Hm & Hn & Hr & evs & He & Hw & Hb)|
                                 (t0 & t1 & mid & pre & He & Hpre & Hmid & Hn & Ht & Hn' & Hres)].
    + left. split; [congruence|]. split; [lia|]. split; [done|].
      exists (evs ++ evs1). split; [by rewrite He, He1, app_assoc|]. split.
      * apply Forall_app. split; [done|].
        eapply Forall_impl; [exact Hadm|]. intros te. apply admin_not_write.
      * intros Hbad. apply Exists_app in Hbad as [Hbad|Hbad]; [by apply Hb|].
        exfalso. revert Hbad. eapply not_Exists_Forall; [exact Hadm|].
        intros te. apply admin_not_failure.
    + right. exists t0, t1, mid, (pre ++ evs1).
      split; [by rewrite He, He1, <- app_assoc|].
      split; [by apply Forall_app|]. split; [done|].
      split; [lia|]. split; [done|]. split; [done|].
      destruct Hres as [[-> Hm]|(m & -> & Hm)]; [left|right; exists m]; split; congruence.
  - destruct (Hc _ _ _ Ec) as (Hn1 & Hm1 & evs1 & He1 & Hall1).
    left. split; [done|]. split; [done|]. split; [done|].
    exists evs1. split; [done|]. split.
    + eapply Forall_impl; [exact Hall1|]. intros te [_ ?]. by apply admin_not_write.
    + intros Hbad. exfalso. revert Hbad. eapply not_Exists_Forall; [exact Hall1|].
      intros te [_ ?]. by apply admin_not_failure.
  - destruct (Hc _ _ _ Ec) as (Hn1 & Hm1 & evs1 & He1 & Hall1).
    left. split; [done|]. split; [done|]. split; [done|].
    exists evs1. split; [done|]. split.
    + eapply Forall_impl; [exact Hall1|]. intros te [_ ?]. by apply admin_not_write.
    + intros Hbad. exfalso. revert Hbad. eapply not_Exists_Forall; [exact Hall1|].
      intros te [_ ?]. by apply admin_not_failure.
Qed.

Lemma saveIndexedDate_run date w :
  let w1 := called env (Index "executions-meta" "executionMeta" "executionMeta-id" date) w in
  saveIndexedDate env date w =
    match fault env (Index "executions-meta" "executionMeta" "executionMeta-id" date) w1 with
    | Some m => (w1, Rejected m)
    | None => (set_executions_meta (<["executionMeta-id" := date]> (executions_meta w1)) w1,
               Fulfilled tt)
    end.
Proof.
  intros w1. unfold saveIndexedDate, es_index_meta, bind. rewrite request_called.
  fold w1. by destruct (fault env _ w1).
Qed.

(** From the reading of the clock on. *)
Lemma cycle_tail schedule stackName max lid w w' r :
  (indexingStartTime <- Date_now ;;
   workflows <- loadCollectionConfig env stackName ;;
   promises <- start_all workflows ;;
   await_all env lid max schedule promises ;;;
   saveIndexedDate env indexingStartTime) w = (w', r) ->
  stopped_short w w' r \/ reached_save w w' r.
Proof.
  intros Hrun. unfold bind at 1 in Hrun. unfold Date_now at 1 in Hrun.
  set (wa := record DateNow w) in *.
  destruct (bind_inv _ _ _ _ _ Hrun) as [(wb & wfs & Ec & Ek)|Hstop].
  2: { (* the configuration is not loaded *)
    assert (exists r0 : Promise (list Workflow),
               loadCollectionConfig env stackName wa = (w', r0) /\ r <> Fulfilled tt)
      as (r0 & Ec & Hr).
    { destruct Hstop as [(m & Ec & ->)|[Ec ->]]; eauto. }
    destruct (quiet_loadCollectionConfig env stackName _ _ _ Ec) as (Hn1 & Hm1 & evs1 & He1 & Hall1).
    left. split; [done|]. split; [done|]. split; [done|].
    exists (evs1 ++ [(now w, DateNow)]). split; [by rewrite He1, <- app_assoc|]. split.
    - apply Forall_app. split.
      + eapply Forall_impl; [exact Hall1|]. intros te [_ ?]. by apply admin_not_write.
      + constructor; [|constructor]. simpl. tauto.
    - intros Hbad. exfalso. apply Exists_app in Hbad as [Hbad|Hbad].
      + revert Hbad. eapply not_Exists_Forall; [exact Hall1|].
        intros te [_ ?]. by apply admin_not_failure.
      + apply Exists_cons in Hbad as [[]|Hbad]. by apply Exists_nil in Hbad. }
  destruct (quiet_loadCollectionConfig env stackName _ _ _ Ec) as (Hn0 & Hm0 & evs0 & He0 & Hall0).
  destruct (start_all_fulfilled wfs wb) as (wb' & Est).
  unfold bind at 1 in Ek. rewrite Est in Ek.
  destruct (quiet_start_all wfs _ _ _ Est) as (Hns & Hms & evss & Hes & Halls).
  assert (exists evs1,
             now wa <= now wb' /\ executions_meta wb' = executions_meta wa /\
             events wb' = evs1 ++ events wa /\
             Forall (fun te : Z * Event =>
                       now wa <= te.1 <= now wb' /\ ~ watermark_write te.2 /\
                       ~ bulk_failure te.2) evs1)
    as (evs1 & Hn1 & Hm1 & He1 & Hall1).
  { exists (evss ++ evs0). split; [lia|]. split; [congruence|].
    split; [by rewrite Hes, He0, app_assoc|]. apply Forall_app. split.
    - eapply Forall_impl; [exact Halls|]. intros te [? Hp]. split; [lia|].
      split; [apply paging_not_write; by apply fetch_is_paging|].
      destruct te as [? []]; simpl in *; tauto.
    - eapply Forall_impl; [exact Hall0|]. intros te [? Ha]. split; [lia|].
      split; [by apply admin_not_write|by apply admin_not_failure]. }
  clear Hn0 Hm0 He0 Hall0 Hns Hms Hes Halls.
  destruct (bind_inv _ _ _ _ _ Ek) as [(wc & [] & Ea & Es)|Hstop].
  2: { (* the tasks do not all return *)
    assert (exists r0 : Promise unit,
               await_all env lid max schedule (List.map newTask wfs) wb' = (w', r0) /\
               r0 = r /\ r <> Fulfilled tt) as (r0 & Ea & -> & Hr).
    { destruct Hstop as [(m & Ea & ->)|[Ea ->]]; eauto. }
    destruct (quiet_await_all env lid max schedule _ _ _ _ Ea) as (Hn2 & Hm2 & evs2 & He2 & Hall2).
    left. split; [by rewrite Hm2, Hm1|]. split; [simpl in *; lia|]. split; [done|].
    exists (evs2 ++ evs1 ++ [(now w, DateNow)]).
    split; [by rewrite He2, He1, <- !app_assoc|]. split.
    - apply Forall_app. split; [|apply Forall_app; split].
      + eapply Forall_impl; [exact Hall2|]. intros te [_ ?]. by apply paging_not_write.
      + eapply Forall_impl; [exact Hall1|]. by intros te (_ & ? & _).
      + constructor; [|constructor]. simpl. tauto.
    - intros Hbad. apply Exists_app in Hbad as [Hbad|Hbad].
      + by eapply await_all_bulk_failure.
      + exfalso. apply Exists_app in Hbad as [Hbad|Hbad].
        * revert Hbad. eapply not_Exists_Forall; [exact Hall1|].
          by intros te (_ & _ & ?).
        * apply Exists_cons in Hbad as [[]|Hbad]. by apply Exists_nil in Hbad. }
  destruct (quiet_await_all env lid max schedule _ _ _ _ Ea) as (Hn2 & Hm2 & evs2 & He2 & Hall2).
  right. exists (now w), (now wc), (evs2 ++ evs1), [].
  rewrite saveIndexedDate_run in Es. simpl in Es.
  set (wd := called env (Index "executions-meta" "executionMeta" "executionMeta-id" (now w)) wc)
    in *.
  assert (events wd =
            (now wc, Index "executions-meta" "executionMeta" "executionMeta-id" (now w))
              :: (evs2 ++ evs1) ++ (now w, DateNow) :: [] ++ events w) as Hev.
  { change (events wd) with
      ((now wc, Index "executions-meta" "executionMeta" "executionMeta-id" (now w)) :: events wc).
    by rewrite He2, He1, <- app_assoc. }
  assert (now wc <= now wd) as Hnd by (simpl; lia).
  assert (executions_meta wd = executions_meta w) as Hmd.
  { change (executions_meta wd) with (executions_meta wc). by rewrite Hm2, Hm1. }
  assert (Forall (fun te : Z * Event =>
                    now w <= te.1 /\ ~ watermark_write te.2 /\ ~ bulk_failure te.2)
                 (evs2 ++ evs1)) as Hmid.
  { apply Forall_app. split.
    - apply Forall_forall. intros te Hin. rewrite Forall_forall in Hall2.
      destruct (Hall2 te Hin) as [[Ht _] Hp]. simpl in *.
      split; [lia|]. split; [by apply paging_not_write|].
      intros Hbad.
      assert (Fulfilled () = Rejected "Failed saving to elasticsearch"); [|done].
      eapply await_all_bulk_failure; [exact Ea|exact He2|].
      apply Exists_exists. by exists te.
    - eapply Forall_impl; [exact Hall1|]. intros te ([Ht _] & ? & ?). simpl in *.
      split; [lia|]. by split. }
  destruct (fault env _ wd) as [m|]; inversion Es; subst.
  - split; [done|]. split; [constructor|]. split; [done|].
    split; [lia|]. split; [simpl in *; lia|]. split; [done|].
    right. by exists m.
  - split; [done|]. split; [constructor|]. split; [done|].
    split; [lia|]. split; [simpl in *; lia|]. split; [done|].
    left. split; [done|]. simpl. by rewrite Hm2, Hm1.
Qed.

(** Every cycle stops short of the write or reaches it. *)
Lemma cycle_run schedule stackName max w w' r :
  findAndIndexExecutions env schedule stackName max w = (w', r) ->
  stopped_short w w' r \/ reached_save w w' r.
Proof.
  unfold findAndIndexExecutions.
  apply cycle_prefix; [apply quiet_createOrUpdateIndex|]. intros _.
  apply cycle_prefix; [apply quiet_createOrUpdateIndex|]. intros _.
  apply cycle_prefix; [apply quiet_getLastIndexedDate|]. intros lid.
  intros w1 w2 r2. apply cycle_tail.
Qed.

End CycleFacts.

Section CycleClaims.
Context `{Runtime} (env : Env).

(** C1. In every cycle of [findAndIndexExecutions]: a turn of a workflow
  that receives a bulk response reporting errors ends the task with the
  exception of [indexExecutions]; when such a response occurs in the
  cycle, the cycle is rejected with that exception, [saveIndexedDate]
  makes no call and the stored watermark document is unchanged; when the
  cycle completes, the watermark document is written exactly once, as the
  last event, with the clock reading taken before any page was fetched;
  whenever the cycle does not complete the stored document is unchanged. *)
Theorem watermark_all_or_nothing schedule stackName max w w' r :
  findAndIndexExecutions env schedule stackName max w = (w', r) ->
  (forall lid t wa wb t' evs,
      resume env lid max t wa = (wb, t') ->
      events wb = evs ++ events wa ->
      Exists (fun te : Z * Event => bulk_failure te.2) evs ->
      state t' = Thrown "Failed saving to elasticsearch") /\
  exists evs,
    events w' = evs ++ events w /\
    (Exists (fun te : Z * Event => bulk_failure te.2) evs ->
     r = Rejected "Failed saving to elasticsearch" /\
     Forall (fun te : Z * Event => ~ watermark_write te.2) evs /\
     executions_meta w' = executions_meta w) /\
    (r = Fulfilled tt ->
     exists t0 t1 mid pre,
       evs = (t1, Index "executions-meta" "executionMeta" "executionMeta-id" t0)
               :: mid ++ (t0, DateNow) :: pre /\
       Forall (fun te : Z * Event => ~ page_fetch te.2 /\ ~ watermark_write te.2) pre /\
       Forall (fun te : Z * Event => ~ watermark_write te.2) mid /\
       executions_meta w' = <["executionMeta-id" := t0]> (executions_meta w)) /\
    (r <> Fulfilled tt -> executions_meta w' = executions_meta w).
Proof.
  intros Hrun. split.
  { intros lid t wa wb t' evs. apply resume_bulk_failure. }
  destruct (cycle_run env _ _ _ _ _ _ Hrun) as
    [(Hm & Hn & Hr & evs & He & Hw & Hb)|
     (t0 & t1 & mid & pre & He & Hpre & Hmid & Hn & Ht & Hn' & Hres)].
  - exists evs. split; [done|]. split; [|split]; try done.
    intros Hbad. split; [by apply Hb|]. by split.
  - exists ((t1, Index "executions-meta" "executionMeta" "executionMeta-id" t0)
              :: mid ++ (t0, DateNow) :: pre).
    split; [rewrite He; simpl; f_equal; by rewrite <- app_assoc|]. split; [|split].
    + intros Hbad. exfalso.
      apply Exists_cons in Hbad as [[]|Hbad].
      apply Exists_app in Hbad as [Hbad|Hbad].
      * revert Hbad. eapply not_Exists_Forall; [exact Hmid|]. by intros te (_ & _ & ?).
      * apply Exists_cons in Hbad as [[]|Hbad].
        revert Hbad. eapply not_Exists_Forall; [exact Hpre|].
        intros te. apply admin_not_failure.
    + intros ->. destruct Hres as [[_ Hm]|(m & ? & _)]; [|done].
      exists t0, t1, mid, pre. split; [done|]. split; [|split; [|done]].
      * eapply Forall_impl; [exact Hpre|]. intros te Ha.
        split; [by apply admin_not_fetch|by apply admin_not_write].
      * eapply Forall_impl; [exact Hmid|]. by intros te (_ & ? & _).
    + intros Hr. by destruct Hres as [[-> _]|(m & _ & Hm)].
Qed.


Lemma cycle_keeps_watermark d schedule stackName max w w' r :
  watermark_from d w ->
  findAndIndexExecutions env schedule stackName max w = (w', r) ->
  watermark_from d w'.
Proof.
  intros (d' & Hw & Hd & Hn0) Hrun. unfold watermark_from, watermark in *.
  destruct (cycle_run env _ _ _ _ _ _ Hrun) as
    [(Hm & Hn & _)|(t0 & t1 & mid & pre & _ & _ & _ & Hn & Ht & Hn' & Hres)].
  - exists d'. rewrite Hm. split; [done|lia].
  - destruct Hres as [[_ Hm]|(m & _ & Hm)]; rewrite Hm.
    + exists t0. rewrite lookup_insert_eq. split; [done|lia].
    + exists d'. split; [done|lia].
Qed.

Lemma cycle_sets_watermark schedule stackName max w w' :
  findAndIndexExecutions env schedule stackName max w = (w', Fulfilled tt) ->
  exists d, watermark w' = Some d /\ now w <= d /\ d <= now w'.
Proof.
  intros Hrun. unfold watermark.
  destruct (cycle_run env _ _ _ _ _ _ Hrun) as
    [(_ & _ & Hr & _)|(t0 & t1 & mid & pre & _ & _ & _ & Hn & Ht & Hn' & Hres)]; [done|].
  destruct Hres as [[_ Hm]|(m & ? & _)]; [|done].
  exists t0. rewrite Hm, lookup_insert_eq. split; [done|lia].
Qed.

Lemma quiet_Date_now (Q : Event -> Prop) : Q DateNow -> quiet Q Date_now.
Proof.
  intros HQ w w' r [= <- <-]. simpl. repeat split; try lia.
  exists [(now w, DateNow)]. split; [done|].
  constructor; [|constructor]. simpl. split; [lia|done].
Qed.

Lemma quiet_cycle_setup stackName :
  quiet (fun e => ~ watermark_write e /\ ~ paging_event e) (cycle_setup env stackName).
Proof.
  assert (forall e, admin_event e -> ~ watermark_write e /\ ~ paging_event e) as Hadm.
  { intros e. destruct e; simpl; tauto. }
  unfold cycle_setup.
  apply quiet_bind; [eapply quiet_weaken; [exact Hadm|apply quiet_createOrUpdateIndex]|].
  intros _.
  apply quiet_bind; [eapply quiet_weaken; [exact Hadm|apply quiet_createOrUpdateIndex]|].
  intros _.
  apply quiet_bind; [eapply quiet_weaken; [exact Hadm|apply quiet_getLastIndexedDate]|].
  intros lid.
  apply quiet_bind; [apply quiet_Date_now; simpl; tauto|]. intros t0.
  apply quiet_bind; [eapply quiet_weaken; [exact Hadm|apply quiet_loadCollectionConfig]|].
  intros wfs. apply quiet_ret.
Qed.

(** The cycle is its set-up, then the tasks and the write of the date. *)
Lemma cycle_unfold schedule stackName max w :
  findAndIndexExecutions env schedule stackName max w =
    match cycle_setup env stackName w with
    | (w1, Fulfilled (lid, t0, wfs)) =>
        (promises <- start_all wfs ;;
         await_all env lid max schedule promises ;;;
         saveIndexedDate env t0) w1
    | (w1, Rejected m) => (w1, Rejected m)
    | (w1, Pending) => (w1, Pending)
    end.
Proof.
  unfold findAndIndexExecutions, cycle_setup.
  unfold bind at 1 8.
  destruct (createOrUpdateIndex env executionsIndex w) as [w1 [|[]|m]]; try reflexivity.
  unfold bind at 1 7.
  destruct (createOrUpdateIndex env executionsMetaIndex w1) as [w2 [|[]|m]]; try reflexivity.
  unfold bind at 1 6.
  destruct (getLastIndexedDate env w2) as [w3 [|lid|m]]; try reflexivity.
  unfold bind at 1 5. unfold Date_now at 1 2.
  unfold bind at 1 4.
  destruct (loadCollectionConfig env stackName (record DateNow w3)) as [w5 [|wfs|m]];
    reflexivity.
Qed.

Lemma until_settled_pending lid max : forall schedule ts w w' ts' rest,
    until_settled env lid max schedule ts w = (w', (ts', rest)) ->
    promise_all ts' = Pending -> rest = [].
Proof.
  induction schedule as [|i schedule IH]; intros ts w w' ts' rest; simpl.
  - destruct (promise_all ts); by intros [= <- <- <-].
  - destruct (promise_all ts) eqn:Ep; try (intros [= <- <- <-]; congruence).
    destruct (resume_nth env lid max i ts w) as [w1 ts1]. apply IH.
Qed.

(** A cycle fails in its set-up and starts no task; or it starts the
    tasks, they run until [Promise.all] settles and the cycle goes on from
    there, and the tasks run on through what remains of the schedule. *)
Lemma cycle_cases schedule stackName max w :
  (exists w1 r,
      findAndIndexExecutions env schedule stackName max w = (w1, r) /\
      r <> Fulfilled tt /\
      cycle_pool env schedule stackName max w = (w1, [])) \/
  (exists w1 lid t0 wfs w2 w3 ps3 rest,
      cycle_setup env stackName w = (w1, Fulfilled (lid, t0, wfs)) /\
      start_all wfs w1 = (w2, Fulfilled (List.map newTask wfs)) /\
      until_settled env lid max schedule (List.map newTask wfs) w2 = (w3, (ps3, rest)) /\
      cycle_pool env schedule stackName max w = run_tasks env lid max rest ps3 w3 /\
      findAndIndexExecutions env schedule stackName max w =
        match promise_all ps3 with
        | Fulfilled _ => saveIndexedDate env t0 w3
        | Rejected m => (w3, Rejected m)
        | Pending => (w3, Pending)
        end).
Proof.
  rewrite cycle_unfold. unfold cycle_pool.
  destruct (cycle_setup env stackName w) as [w1 [|[[lid t0] wfs]|m]] eqn:Es.
  - left. exists w1. by eexists.
  - right. destruct (start_all_fulfilled wfs w1) as (w2 & Est).
    destruct (until_settled env lid max schedule (List.map newTask wfs) w2)
      as [w3 [ps3 rest]] eqn:Eu.
    exists w1, lid, t0, wfs, w2, w3, ps3, rest.
    split; [done|]. split; [done|]. split; [done|]. split.
    + unfold pool. rewrite Est. by apply run_tasks_until_settled.
    + unfold bind at 1. rewrite Est. unfold bind, await_all. rewrite Eu.
      by destruct (promise_all ps3).
  - left. exists w1. by eexists.
Qed.

Lemma cycle_pool_quiet schedule stackName max w we ts :
  cycle_pool env schedule stackName max w = (we, ts) ->
  now w <= now we /\ executions_meta we = executions_meta w /\
  exists evs, events we = evs ++ events w /\
              Forall (fun te : Z * Event => ~ watermark_write te.2) evs.
Proof.
  unfold cycle_pool.
  destruct (cycle_setup env stackName w) as [w1 r] eqn:Es.
  destruct (quiet_cycle_setup stackName _ _ _ Es) as (Hn1 & Hm1 & evs1 & He1 & Hall1).
  assert (Forall (fun te : Z * Event => ~ watermark_write te.2) evs1) as Hw1.
  { eapply Forall_impl; [exact Hall1|]. by intros te (_ & ? & _). }
  destruct r as [|[[lid t0] wfs]|m]; try (intros [= <- <-]; repeat split; try done; by exists evs1).
  unfold pool. destruct (start_all_fulfilled wfs w1) as (w2 & Est). rewrite Est.
  destruct (quiet_start_all wfs _ _ _ Est) as (Hn2 & Hm2 & evs2 & He2 & Hall2).
  intros Hrun.
  destruct (quiet_run_tasks env lid max schedule _ _ _ _ Hrun) as (Hn3 & Hm3 & evs3 & He3 & Hall3).
  split; [lia|]. split; [congruence|].
  exists (evs3 ++ evs2 ++ evs1). split; [by rewrite He3, He2, He1, <- !app_assoc|].
  apply Forall_app. split; [|apply Forall_app; split; [|done]].
  - eapply Forall_impl; [exact Hall3|]. intros te [_ ?]. by apply paging_not_write.
  - eapply Forall_impl; [exact Hall2|]. intros te [_ ?].
    apply paging_not_write. by apply fetch_is_paging.
Qed.

Lemma existsb_thrown ts :
  existsb thrown ts = true <-> exists t m, In t ts /\ state t = Thrown m.
Proof.
  rewrite existsb_exists. split.
  - intros (t & Hin & Ht). unfold thrown in Ht. destruct (state t) eqn:Hs; try done. eauto.
  - intros (t & m & Hin & Hs). exists t. split; [done|]. unfold thrown. by rewrite Hs.
Qed.

(** A task has thrown by the end of the schedule exactly when the cycle
    was rejected by [Promise.all]. *)
Lemma cycle_thrown schedule stackName max w t m :
  In t (cycle_tasks env schedule stackName max w) ->
  state t = Thrown m ->
  exists w1 lid t0 wfs w2 w3 ps3 rest m1,
    cycle_setup env stackName w = (w1, Fulfilled (lid, t0, wfs)) /\
    start_all wfs w1 = (w2, Fulfilled (List.map newTask wfs)) /\
    until_settled env lid max schedule (List.map newTask wfs) w2 = (w3, (ps3, rest)) /\
    cycle_pool env schedule stackName max w = run_tasks env lid max rest ps3 w3 /\
    promise_all ps3 = Rejected m1 /\
    findAndIndexExecutions env schedule stackName max w = (w3, Rejected m1).
Proof.
  unfold cycle_tasks. intros Hin Hs.
  destruct (cycle_cases schedule stackName max w)
    as [(w1 & r & _ & _ & Ep)|(w1 & lid & t0 & wfs & w2 & w3 & ps3 & rest & Es & Est & Eu & Ep & Ef)].
  { rewrite Ep in Hin. destruct Hin. }
  exists w1, lid, t0, wfs, w2, w3, ps3, rest.
  rewrite Ep in Hin.
  destruct (promise_all ps3) as [|[]|m1] eqn:Epa.
  - exfalso. rewrite (until_settled_pending _ _ _ _ _ _ _ _ Eu Epa) in Hin. simpl in Hin.
    pose proof (promise_all_pending _ Epa) as Hn. unfold none_thrown in Hn.
    rewrite List.Forall_forall in Hn. by eapply Hn.
  - exfalso. pose proof (promise_all_fulfilled _ Epa) as Hret.
    rewrite run_tasks_all_ended in Hin.
    + simpl in Hin. rewrite List.Forall_forall in Hret. rewrite (Hret t Hin) in Hs. done.
    + eapply Forall_impl; [exact Hret|]. intros t1 ?. by left.
  - exists m1. by repeat split.
Qed.

Lemma cycle_end_fulfilled schedule stackName max w w' :
  findAndIndexExecutions env schedule stackName max w = (w', Fulfilled tt) ->
  cycle_end env schedule stackName max w = w'.
Proof.
  intros Hrun. unfold cycle_end.
  destruct (cycle_pool env schedule stackName max w) as [we ts] eqn:Ep.
  destruct (existsb thrown ts) eqn:Et; [|by rewrite Hrun].
  exfalso. apply existsb_thrown in Et as (t & m & Hin & Hs).
  assert (In t (cycle_tasks env schedule stackName max w)) as Hin'
      by (unfold cycle_tasks; by rewrite Ep).
  destruct (cycle_thrown _ _ _ _ _ _ Hin' Hs)
    as (? & ? & ? & ? & ? & ? & ? & ? & m1 & _ & _ & _ & _ & _ & Ef).
  congruence.
Qed.

Lemma cycle_end_keeps_watermark d schedule stackName max w :
  watermark_from d w ->
  watermark_from d (cycle_end env schedule stackName max w).
Proof.
  intros Hw. unfold cycle_end.
  destruct (cycle_pool env schedule stackName max w) as [we ts] eqn:Ep.
  destruct (existsb thrown ts).
  - destruct (cycle_pool_quiet _ _ _ _ _ _ Ep) as (Hn & Hm & _).
    destruct Hw as (d' & Hd & Hle & Hnow). exists d'. unfold watermark in *.
    rewrite Hm. split; [done|lia].
  - destruct (findAndIndexExecutions env schedule stackName max w) as [w' r] eqn:Hrun.
    by eapply cycle_keeps_watermark.
Qed.

Lemma run_cycles_keep_watermark d max : forall triggers w j wj rj,
    watermark_from d w ->
    run_cycles env max triggers w !! j = Some (wj, rj) ->
    watermark_from d wj.
Proof.
  induction triggers as [|c rest IH]; intros w j wj rj Hw Hl; [done|].
  simpl in Hl.
  assert (watermark_from d (advance (idle c) w)) as Hw0.
  { destruct Hw as (d' & ? & ? & ?). exists d'. simpl. repeat split; try done; lia. }
  destruct j as [|j]; simpl in Hl.
  - inversion Hl as [Hrun]. by eapply cycle_keeps_watermark.
  - eapply IH; [|exact Hl]. by apply cycle_end_keeps_watermark.
Qed.

(** C7. In cycles run one after another, the watermark stored by a cycle
  that completed is not above the watermark stored by a later cycle that
  completed. *)
Theorem watermark_monotone max triggers w i j wi wj :
  (i < j)%nat ->
  run_cycles env max triggers w !! i = Some (wi, Fulfilled tt) ->
  run_cycles env max triggers w !! j = Some (wj, Fulfilled tt) ->
  exists di dj, watermark wi = Some di /\ watermark wj = Some dj /\ di <= dj.
Proof.
  revert w i j. induction triggers as [|c rest IH]; intros w i j Hij Hi Hj; [done|].
  simpl in Hi, Hj.
  destruct j as [|j]; [lia|]. simpl in Hj.
  destruct i as [|i]; simpl in Hi.
  - inversion Hi as [Hrun].
    destruct (cycle_sets_watermark _ _ _ _ _ Hrun) as (d & Hd & _ & Hn).
    assert (watermark_from d wi) as Hw by (exists d; repeat split; try done; lia).
    rewrite (cycle_end_fulfilled _ _ _ _ _ Hrun) in Hj.
    destruct (run_cycles_keep_watermark d max _ _ _ _ _ Hw Hj) as (d' & Hd' & Hle & _).
    by exists d, d'.
  - eapply (IH _ i j); [lia|exact Hi|exact Hj].
Qed.

End CycleClaims.

Section HandlerFacts.
Context `{Runtime} (env : Env).

(** A turn of one task leaves the other tasks as they are. *)
Lemma resume_nth_others lid max : forall ts i w w' ts' j,
    resume_nth env lid max i ts w = (w', ts') ->
    j <> i -> ts' !! j = ts !! j.
Proof.
  induction ts as [|t ts IH]; intros i w w' ts' j Hr Hne.
  - assert (ts' = []) as -> by (destruct i; by inversion Hr). done.
  - destruct i as [|i]; simpl in Hr.
    + destruct (resume env lid max t w) as [w1 t1]. inversion Hr; subst.
      destruct j; [done|reflexivity].
    + destruct (resume_nth env lid max i ts w) as [w1 ts1] eqn:Hr1. inversion Hr; subst.
      destruct j as [|j]; [reflexivity|]. simpl. eapply IH; [exact Hr1|lia].
Qed.

Lemma resume_nth_lookup lid max : forall ts i w w' ts' t,
    resume_nth env lid max i ts w = (w', ts') ->
    ts !! i = Some t ->
    resume env lid max t w = (w', snd (resume env lid max t w)) /\
    ts' !! i = Some (snd (resume env lid max t w)).
Proof.
  induction ts as [|t0 ts IH]; intros i w w' ts' t Hr Hl; [done|].
  destruct i as [|i]; simpl in Hr, Hl.
  - inversion Hl; subst. destruct (resume env lid max t w) as [w1 t1]. by inversion Hr.
  - destruct (resume_nth env lid max i ts w) as [w1 ts1] eqn:Hr1. inversion Hr; subst.
    simpl. by eapply IH.
Qed.

Lemma resume_nth_beyond lid max : forall ts i w,
    ts !! i = None -> resume_nth env lid max i ts w = (w, ts).
Proof.
  induction ts as [|t0 ts IH]; intros i w Hl; [by destruct i|].
  destruct i as [|i]; [done|]. simpl in *. by rewrite IH.
Qed.

Lemma after_turns_ended lid max ws t : ended t -> after_turns env lid max ws t = t.
Proof.
  intros He. unfold after_turns. induction ws as [|w ws IH]; [done|].
  simpl. by rewrite resume_ended.
Qed.

(** No task is stopped by another: each takes every turn the schedule
    gives it, and how it stands in the end comes of its own turns. *)
Lemma run_tasks_own_turns lid max : forall schedule ts w w' ts' j t,
    run_tasks env lid max schedule ts w = (w', ts') ->
    ts !! j = Some t ->
    exists ws, length ws = count_occ Nat.eq_dec schedule j /\
               ts' !! j = Some (after_turns env lid max ws t).
Proof.
  induction schedule as [|i schedule IH]; intros ts w w' ts' j t Hrun Hl.
  - simpl in Hrun. inversion Hrun; subst. by exists [].
  - simpl in Hrun. destruct (resume_nth env lid max i ts w) as [w1 ts1] eqn:Hr.
    destruct (Nat.eq_dec i j) as [->|Hne].
    + destruct (resume_nth_lookup lid max _ _ _ _ _ _ Hr Hl) as (_ & Hl1).
      destruct (IH _ _ _ _ _ _ Hrun Hl1) as (ws & Hlen & Hl').
      exists (w :: ws). split.
      * simpl. destruct (Nat.eq_dec j j); [|done]. by rewrite Hlen.
      * exact Hl'.
    + assert (ts1 !! j = Some t) as Hl1.
      { rewrite (resume_nth_others lid max _ _ _ _ _ j Hr); [done|lia]. }
      destruct (IH _ _ _ _ _ _ Hrun Hl1) as (ws & Hlen & Hl').
      exists ws. split; [|done].
      simpl. by destruct (Nat.eq_dec i j).
Qed.

Lemma run_tasks_keeps_ended lid max schedule ts w w' ts' t :
  run_tasks env lid max schedule ts w = (w', ts') ->
  In t ts -> ended t -> In t ts'.
Proof.
  intros Hrun Hin He. apply list_elem_of_In, list_elem_of_lookup in Hin as [j Hl].
  destruct (run_tasks_own_turns lid max _ _ _ _ _ _ _ Hrun Hl) as (ws & _ & Hl').
  rewrite after_turns_ended in Hl' by done.
  apply list_elem_of_In, list_elem_of_lookup. by exists j.
Qed.

Lemma handler_run schedule1 schedule2 event w :
  let w0 := record DateNow w in
  let '(w1, r1) := findAndIndexExecutions env schedule1 (StackName event)
                                          MAX_EXECUTIONS_TO_INDEX w0 in
  match r1 with
  | Pending => handler env schedule1 schedule2 event w = (w1, Pending)
  | Rejected m => handler env schedule1 schedule2 event w = (w1, Fulfilled (CallbackError m))
  | Fulfilled _ =>
      exists w', handler env schedule1 schedule2 event w = (w', Pending) \/
                 handler env schedule1 schedule2 event w =
                   (w', Fulfilled (CallbackResult "Elasticsearch indexing complete")) \/
                 exists m, handler env schedule1 schedule2 event w =
                             (w', Fulfilled (CallbackError m))
  end.
Proof.
  intros w0. subst w0. unfold handler, try_catch, bind, Date_now, sleep.
  destruct (findAndIndexExecutions env schedule1 (StackName event)
                                   MAX_EXECUTIONS_TO_INDEX (record DateNow w))
    as [w1 [|[]|m]]; try done.
  match goal with
  | |- context [findAndIndexExecutions env schedule2 ?a ?b ?c] =>
      destruct (findAndIndexExecutions env schedule2 a b c) as [w2 [|[]|m]]
  end; eauto.
Qed.

(** C2, as amended. The failure of one workflow is kept from the tasks of
  the others: a turn of one task leaves the other tasks as they are, and
  no task is stopped by another, each takes every turn the schedule gives
  it, also after a task has thrown, and how it stands in the end comes of
  its own turns. But when a task has thrown, on a page fetch or on a bulk
  write, [Promise.all] and with it the cycle were rejected with the error
  of a task that has thrown; the watermark is not written, neither then
  nor while the other tasks run on, which add page fetches and bulk
  writes only. The handler passes the error message of a rejected first
  cycle to its callback without running the second cycle, and the value
  the handler reports is an error message or the fixed text of
  completion, never counts per workflow. *)
Theorem partition_failure_rejects_cycle schedule1 schedule2 event w :
  (forall lid max ts i wa wb ts' j,
      resume_nth env lid max i ts wa = (wb, ts') ->
      j <> i -> ts' !! j = ts !! j) /\
  (forall lid max schedule ts wa wb ts' j t,
      run_tasks env lid max schedule ts wa = (wb, ts') ->
      ts !! j = Some t ->
      exists ws, length ws = count_occ Nat.eq_dec schedule j /\
                 ts' !! j = Some (after_turns env lid max ws t)) /\
  (forall schedule stackName max wa t m,
      In t (cycle_tasks env schedule stackName max wa) ->
      state t = Thrown m ->
      exists wb m1 t1 evs,
        findAndIndexExecutions env schedule stackName max wa = (wb, Rejected m1) /\
        In t1 (cycle_tasks env schedule stackName max wa) /\
        state t1 = Thrown m1 /\
        executions_meta wb = executions_meta wa /\
        events (fst (cycle_pool env schedule stackName max wa)) = evs ++ events wb /\
        Forall (fun te : Z * Event => paging_event te.2) evs /\
        executions_meta (fst (cycle_pool env schedule stackName max wa)) =
          executions_meta wa) /\
  (forall w1 m,
      findAndIndexExecutions env schedule1 (StackName event) MAX_EXECUTIONS_TO_INDEX
                             (record DateNow w) = (w1, Rejected m) ->
      handler env schedule1 schedule2 event w = (w1, Fulfilled (CallbackError m))) /\
  (forall w' r,
      handler env schedule1 schedule2 event w = (w', r) ->
      r = Pending \/
      r = Fulfilled (CallbackResult "Elasticsearch indexing complete") \/
      exists m, r = Fulfilled (CallbackError m)).
Proof.
  split; [|split; [|split; [|split]]].
  - intros lid max. apply resume_nth_others.
  - intros lid max. apply run_tasks_own_turns.
  - intros schedule stackName max wa t m Hin Hs.
    destruct (cycle_thrown env _ _ _ _ _ _ Hin Hs)
      as (w1 & lid & t0 & wfs & w2 & w3 & ps3 & rest & m1 & Es & Est & Eu & Ep & Epa & Ef).
    destruct (promise_all_thrown ps3 m1 Epa) as (t1 & Hin1 & Hs1).
    destruct (run_tasks env lid max rest ps3 w3) as [we ts] eqn:Hrest.
    destruct (quiet_run_tasks env lid max rest ps3 _ _ _ Hrest) as (_ & Hm & evs & He & Hall).
    assert (executions_meta w3 = executions_meta wa) as Hm3.
    { destruct (cycle_run env _ _ _ _ _ _ Ef) as
        [(Hm' & _)|(_ & _ & _ & _ & _ & _ & _ & _ & _ & _ & [[? _]|(? & _ & Hm')])]; done. }
    exists w3, m1, t1, evs. unfold cycle_tasks. rewrite Ep. simpl.
    split; [done|]. split.
    { eapply run_tasks_keeps_ended; [exact Hrest|done|]. right. by exists m1. }
    split; [done|]. split; [done|]. split; [done|]. split.
    + eapply Forall_impl; [exact Hall|]. by intros te [_ ?].
    + congruence.
  - intros w1 m Hrun. pose proof (handler_run schedule1 schedule2 event w) as Hh.
    simpl in Hh. by rewrite Hrun in Hh.
  - intros w' r Hh. pose proof (handler_run schedule1 schedule2 event w) as Hh'.
    simpl in Hh'.
    destruct (findAndIndexExecutions env schedule1 _ _ _) as [w1 [|[]|m]].
    + rewrite Hh' in Hh. inversion Hh. by left.
    + destruct Hh' as (w2 & [Hh'|[Hh'|(m & Hh')]]); rewrite Hh' in Hh; inversion Hh; eauto.
    + rewrite Hh' in Hh. inversion Hh. eauto.
Qed.

End HandlerFacts.

Module LockFacts.
Import Lock.

Lemma tryAcquire_free k h ttl now (ls : gmap string Lease) :
  (forall l, ls !! k = Some l -> unexpired now l = false) ->
  tryAcquire k h ttl now ls =
    (true, <[k := {| holderId := h; expiresAt := now + ttl |}]> ls).
Proof.
  intros Hfree. unfold tryAcquire. destruct (ls !! k) as [l|] eqn:E; [|done].
  by rewrite (Hfree l).
Qed.

Lemma tryAcquire_held k h ttl now (ls : gmap string Lease) l :
  ls !! k = Some l -> unexpired now l = true ->
  tryAcquire k h ttl now ls = (false, ls).
Proof. intros E Hu. unfold tryAcquire. by rewrite E, Hu. Qed.

Lemma release_own k h (ls : gmap string Lease) l :
  ls !! k = Some l -> holderId l = h -> release k h ls = delete k ls.
Proof. intros E <-. unfold release. by rewrite E, String.eqb_refl. Qed.

Lemma tryAcquire_cases k h ttl now (ls : gmap string Lease) :
  (exists l, ls !! k = Some l /\ unexpired now l = true /\
             tryAcquire k h ttl now ls = (false, ls)) \/
  ((forall l, ls !! k = Some l -> unexpired now l = false) /\
   tryAcquire k h ttl now ls =
     (true, <[k := {| holderId := h; expiresAt := now + ttl |}]> ls)).
Proof.
  destruct (ls !! k) as [l|] eqn:E.
  - destruct (unexpired now l) eqn:Hu.
    + left. exists l. split; [done|]. split; [done|]. by eapply tryAcquire_held.
    + right. split; [|apply tryAcquire_free]; intros l' Hl'; congruence.
  - right. split; [|apply tryAcquire_free]; intros l' Hl'; congruence.
Qed.

Lemma clock_act a s : clock s <= clock (act a s).
Proof.
  destruct a as [d|i]; simpl; [lia|].
  destruct (callers s !! i) as [c|]; [|lia].
  destruct (exclusive_step (clock s) c (leases s)). simpl. lia.
Qed.

Lemma act_lease_inv t0 ttl a s :
  lease_inv t0 ttl s -> clock s < t0 + ttl -> lease_inv t0 ttl (act a s).
Proof.
  intros (Httl & Hdistinct & Hclock & Hheld) Hlive.
  destruct a as [d|i]; simpl.
  { repeat split; simpl; try done. lia. }
  destruct (callers s !! i) as [c|] eqn:Ec; [|done].
  assert (i < length (callers s))%nat as Hi by (by eapply lookup_lt_Some).
  assert (forall c' ls',
             holder c' = holder c -> key c' = key c -> timeoutMs c' = timeoutMs c ->
             (stage c' = Holding ->
              exists l, ls' !! key c = Some l /\ holderId l = holder c /\
                        t0 + ttl <= expiresAt l) ->
             (forall j c2, j <> i -> callers s !! j = Some c2 -> stage c2 = Holding ->
                           exists l, ls' !! key c2 = Some l /\ holderId l = holder c2 /\
                                     t0 + ttl <= expiresAt l) ->
             lease_inv t0 ttl
               {| clock := clock s; leases := ls'; callers := <[i := c']> (callers s) |})
    as Hupd.
  { intros c' ls' Hh Hk Ht Hown Hrest. split; [|split; [|split]]; simpl.
    - intros j c2 Hj. destruct (decide (j = i)) as [->|Hne].
      + rewrite list_lookup_insert_eq in Hj by done. inversion Hj; subst.
        rewrite Ht. by eapply Httl.
      + rewrite list_lookup_insert_ne in Hj by done. by eapply Httl.
    - intros j1 j2 c1 c2 H1 H2 Heq.
      destruct (decide (j1 = i)) as [->|Hn1], (decide (j2 = i)) as [->|Hn2]; try done.
      + rewrite list_lookup_insert_eq in H1 by done. inversion H1; subst.
        rewrite list_lookup_insert_ne in H2 by done.
        symmetry. eapply Hdistinct; [exact H2|exact Ec|congruence].
      + rewrite list_lookup_insert_eq in H2 by done. inversion H2; subst.
        rewrite list_lookup_insert_ne in H1 by done.
        eapply Hdistinct; [exact H1|exact Ec|congruence].
      + rewrite list_lookup_insert_ne in H1 by done.
        rewrite list_lookup_insert_ne in H2 by done. by eapply Hdistinct.
    - done.
    - intros j c2 Hj Hs. destruct (decide (j = i)) as [->|Hne].
      + rewrite list_lookup_insert_eq in Hj by done. inversion Hj; subst.
        rewrite Hk, Hh. by apply Hown.
      + rewrite list_lookup_insert_ne in Hj by done. by eapply Hrest. }
  unfold exclusive_step. destruct (stage c) eqn:Hs.
  - (* the attempt *)
    destruct (tryAcquire_cases (key c) (holder c) (timeoutMs c) (clock s) (leases s))
      as [(l & El & Hu & ->)|(Hfree & ->)].
    + apply Hupd; try done. intros j c2 _ Hj Hs2. by eapply Hheld.
    + apply Hupd; try done.
      * intros _. eexists. split; [apply lookup_insert_eq|]. simpl. split; [done|].
        rewrite (Httl _ _ Ec). lia.
      * intros j c2 Hne Hj Hs2.
        destruct (Hheld _ _ Hj Hs2) as (l & El & Hl & Hexp).
        destruct (decide (key c = key c2)) as [Ek|Hnk].
        -- exfalso. rewrite <- Ek in El. pose proof (Hfree l El) as Hu.
           unfold unexpired in Hu. apply Z.ltb_ge in Hu. lia.
        -- exists l. by rewrite lookup_insert_ne.
  - (* the end of the function *)
    destruct (Hheld _ _ Ec Hs) as (l & El & Hl & Hexp).
    rewrite (release_own _ _ _ _ El Hl).
    apply Hupd; try done.
    intros j c2 Hne Hj Hs2.
    destruct (Hheld _ _ Hj Hs2) as (l2 & El2 & Hl2 & Hexp2).
    destruct (decide (key c = key c2)) as [Ek|Hnk].
    + exfalso. apply Hne. eapply Hdistinct; [exact Hj|exact Ec|].
      rewrite <- Ek in El2. congruence.
    + exists l2. by rewrite lookup_delete_ne.
  - (* nothing left to do *)
    rewrite list_insert_id by done.
    by destruct s.
Qed.

Lemma run_actions_snoc acts a s :
  run_actions (acts ++ [a]) s = act a (run_actions acts s).
Proof. unfold run_actions. by rewrite fold_left_app. Qed.

Lemma run_actions_lease_inv t0 ttl acts : forall s,
    lease_inv t0 ttl s ->
    clock (run_actions acts s) < t0 + ttl ->
    lease_inv t0 ttl (run_actions acts s).
Proof.
  induction acts as [|a acts IH] using rev_ind; intros s Hinv Hlive; [done|].
  rewrite run_actions_snoc in *.
  pose proof (clock_act a (run_actions acts s)).
  apply act_lease_inv; [apply IH; [done|lia]|lia].
Qed.

Lemma lease_inv_start tasks now ls :
  NoDup (List.map instanceId tasks) ->
  lease_inv now LOCK_TIMEOUT_MS
            {| clock := now; leases := ls; callers := List.map run tasks |}.
Proof.
  intros Hnd. split; [|split; [|split]]; simpl.
  - intros i c Hi. apply list_lookup_fmap_Some in Hi as (t & -> & _). done.
  - intros i j c c' Hi Hj Hh.
    apply list_lookup_fmap_Some in Hi as (t1 & -> & Hi).
    apply list_lookup_fmap_Some in Hj as (t2 & -> & Hj). simpl in Hh.
    change (List.map instanceId tasks) with (instanceId <$> tasks) in Hnd.
    eapply NoDup_lookup; [exact Hnd| |].
    + rewrite list_lookup_fmap. rewrite Hi. reflexivity.
    + rewrite list_lookup_fmap, Hj. simpl. by rewrite Hh.
  - lia.
  - intros i c Hi Hs. apply list_lookup_fmap_Some in Hi as (t & -> & _). done.
Qed.

Lemma lease_inv_exclusive t0 ttl s i j ci cj :
  lease_inv t0 ttl s ->
  callers s !! i = Some ci -> callers s !! j = Some cj ->
  stage ci = Holding -> stage cj = Holding -> key ci = key cj -> i = j.
Proof.
  intros (_ & Hdistinct & _ & Hheld) Hi Hj Hsi Hsj Hk.
  destruct (Hheld _ _ Hi Hsi) as (li & Eli & Hli & _).
  destruct (Hheld _ _ Hj Hsj) as (lj & Elj & Hlj & _).
  eapply Hdistinct; [exact Hi|exact Hj|]. rewrite Hk in Eli. congruence.
Qed.

(** C9. Two runs of the task on the same transaction key, the second
  attempted while the lease the first took is unexpired (less than the
  time-out of 20 minutes later): the first holds the lease, the second
  gets [Busy] in the step of its attempt; the first then returns the
  outcome of its function, failure or not, and the lease is released.
  Whatever the interleaving, no two runs hold the same key while the
  leases are unexpired. *)
Theorem lease_exclusivity (a b : GenerateMrfTask) (ls : gmap string Lease) (now : Z) (d1 d2 : N) :
  transactionKey a = transactionKey b ->
  (forall l, ls !! transactionKey a = Some l -> unexpired now l = false) ->
  Z.of_N d1 < LOCK_TIMEOUT_MS ->
  let s0 := {| clock := now; leases := ls; callers := [run a; run b] |} in
  let s1 := run_actions [Step 0; Tick d1; Step 1] s0 in
  let s2 := run_actions [Tick d2; Step 0] s1 in
  (callers s1 !! 0%nat = Some (at_stage Holding (run a)) /\
   leases s1 !! transactionKey a =
     Some {| holderId := instanceId a; expiresAt := now + 20 * 60 * 1000 |} /\
   result_of s1 1 = Some Busy) /\
  (result_of s2 0 = Some (Ran (runExclusive a)) /\
   result_of s2 1 = Some Busy /\
   leases s2 !! transactionKey a = None) /\
  (forall tasks acts i j ci cj,
      NoDup (List.map instanceId tasks) ->
      let s := run_actions acts
                 {| clock := now; leases := ls; callers := List.map run tasks |} in
      clock s < now + LOCK_TIMEOUT_MS ->
      callers s !! i = Some ci -> callers s !! j = Some cj ->
      stage ci = Holding -> stage cj = Holding -> key ci = key cj ->
      i = j).
Proof.
  intros Hk Hfree Hd s0 s1 s2.
  assert (s1 = {| clock := now + Z.of_N d1;
                  leases := <[transactionKey a :=
                                {| holderId := instanceId a;
                                   expiresAt := now + LOCK_TIMEOUT_MS |}]> ls;
                  callers := [at_stage Holding (run a); at_stage (Done Busy) (run b)] |})
    as Hs1.
  { unfold s1, s0, run_actions. simpl. unfold exclusive_step. simpl.
    rewrite (tryAcquire_free _ _ _ _ _ Hfree). simpl. unfold exclusive_step. simpl.
    rewrite <- Hk.
    erewrite tryAcquire_held; [done|apply lookup_insert_eq|].
    unfold unexpired. simpl. apply Z.ltb_lt. lia. }
  assert (s2 = {| clock := now + Z.of_N d1 + Z.of_N d2;
                  leases := delete (transactionKey a)
                              (<[transactionKey a :=
                                   {| holderId := instanceId a;
                                      expiresAt := now + LOCK_TIMEOUT_MS |}]> ls);
                  callers := [at_stage (Done (Ran (runExclusive a))) (run a);
                              at_stage (Done Busy) (run b)] |}) as Hs2.
  { unfold s2. rewrite Hs1. unfold run_actions. simpl. unfold exclusive_step. simpl.
    erewrite release_own; [done|apply lookup_insert_eq|done]. }
  split; [|split].
  - rewrite Hs1. simpl. split; [done|]. split; [|done]. apply lookup_insert_eq.
  - rewrite Hs2. simpl. split; [done|]. split; [done|]. apply lookup_delete_eq.
  - intros tasks acts i j ci cj Hnd s Hlive. apply (lease_inv_exclusive now LOCK_TIMEOUT_MS).
    apply run_actions_lease_inv; [by apply lease_inv_start|done].
Qed.

End LockFacts.

Section IndexProvisioning.
Context `{Runtime} (env : Env).

(** X1. [createOrUpdateIndex] always settles and removes no index. It
  asks once whether the index exists, then updates the mapping of an
  index that exists or creates one that does not, and makes no other
  call; when it is fulfilled the index exists afterwards, and it is never
  fulfilled when Elasticsearch does not acknowledge. *)
Theorem createOrUpdateIndex_outcome index w w' r :
  createOrUpdateIndex env index w = (w', r) ->
  r <> Pending /\
  indices w ⊆ indices w' /\
  (r = Fulfilled tt -> index_name index ∈ indices w') /\
  ((forall w0, acknowledge env w0 = false) -> r <> Fulfilled tt) /\
  exists evs,
    events w' = evs ++ (now w, IndicesExists (index_name index)) :: events w /\
    (evs = [] \/
     (exists t, evs = [(t, IndicesPutMapping (index_name index) (index_type index))] /\
                index_name index ∈ indices w) \/
     (exists t, evs = [(t, IndicesCreate (index_name index))] /\
                index_name index ∉ indices w)).
Proof.
  unfold createOrUpdateIndex, es_indices_exists, bind. rewrite request_called.
  set (w1 := called env (IndicesExists (index_name index)) w).
  destruct (fault env _ w1) as [m|].
  { intros [= <- <-]. split; [done|]. split; [done|]. split; [done|]. split; [done|].
    exists []. split; [done|by left]. }
  unfold get. simpl.
  change (indices w1) with (indices w).
  destruct (bool_decide (index_name index ∈ indices w)) eqn:Ex.
  - apply bool_decide_eq_true in Ex.
    unfold es_indices_putMapping, bind. rewrite request_called.
    set (w2 := called env (IndicesPutMapping (index_name index) (index_type index)) w1).
    assert (exists evs,
               events w2 = evs ++ (now w, IndicesExists (index_name index)) :: events w /\
               (evs = [] \/
                (exists t, evs = [(t, IndicesPutMapping (index_name index) (index_type index))] /\
                           index_name index ∈ indices w) \/
                (exists t, evs = [(t, IndicesCreate (index_name index))] /\
                           index_name index ∉ indices w))) as Hev.
    { eexists [_]. split; [reflexivity|]. right; left. eauto. }
    destruct (fault env _ w2) as [m|].
    { intros [= <- <-]. repeat split; try done. }
    unfold get, verifySuccessfulIndexResponse. simpl.
    destruct (acknowledge env w2) eqn:Ea; simpl; intros [= <- <-];
      (split; [done|]; split; [done|]; split; [done|]; split; [|done]); try done.
    intros Hno. by rewrite Hno in Ea.
  - apply bool_decide_eq_false in Ex.
    unfold es_indices_create, bind. rewrite request_called.
    set (w2 := called env (IndicesCreate (index_name index)) w1).
    assert (forall w3, events w3 = events w2 ->
               exists evs,
                 events w3 = evs ++ (now w, IndicesExists (index_name index)) :: events w /\
                 (evs = [] \/
                  (exists t, evs = [(t, IndicesPutMapping (index_name index) (index_type index))] /\
                             index_name index ∈ indices w) \/
                  (exists t, evs = [(t, IndicesCreate (index_name index))] /\
                             index_name index ∉ indices w))) as Hev.
    { intros w3 ->. eexists [_]. split; [reflexivity|]. right; right. eauto. }
    destruct (fault env _ w2) as [m|].
    { intros [= <- <-]. repeat split; try done. by apply Hev. }
    unfold verifySuccessfulIndexResponse.
    destruct (acknowledge env w2) eqn:Ea; simpl; intros [= <- <-].
    + split; [done|]. split; [simpl; set_solver|]. split; [simpl; set_solver|].
      split; [|by apply (Hev (set_indices ({[index_name index]} ∪ indices w2) w2))].
      intros Hno. by rewrite Hno in Ea.
    + split; [done|]. split; [done|]. split; [done|]. split; [done|by apply Hev].
Qed.

End IndexProvisioning.

Section BulkFacts.
Context `{Runtime}.

Lemma docsToBulk_length (docs : list Doc) :
  length (docsToBulk docs) = (2 * length docs)%nat.
Proof. induction docs as [|d ds IH]; [done|]. simpl. rewrite IH. lia. Qed.

Lemma docsToBulk_lookup (docs : list Doc) : forall i d,
    docs !! i = Some d ->
    docsToBulk docs !! (2 * i)%nat = Some (BulkIndex "executions" "execution" (_id d)) /\
    docsToBulk docs !! (2 * i + 1)%nat = Some (BulkDoc (withoutId d)).
Proof.
  induction docs as [|d0 ds IH]; intros i d Hi; [done|].
  destruct i as [|i]; simpl in Hi.
  - inversion Hi; subst. by split.
  - destruct (IH i d Hi) as [Ha Hb].
    replace (2 * S i)%nat with (S (S (2 * i))) by lia.
    replace (S (S (2 * i)) + 1)%nat with (S (S (2 * i + 1))) by lia.
    by split.
Qed.

(** X2. The bulk body of [docsToBulk] has two entries per document, in
  the order of the documents: the index action on
  [executions]/[execution] with the [_id] of the document, then a
  document with the seven other fields of it. For the body that
  [indexExecutions] sends this is, for every execution that is not
  running, in their order: the action with the name of the execution as
  id, then the document with the id of the workflow, the collection and
  granule parsed from the name, the parsed dates, their difference, and
  [success] exactly when the status is SUCCEEDED. *)
Theorem docsToBulk_shape workflowId (executions : list Execution) (docs : list Doc) :
  (length (docsToBulk docs) = (2 * length docs)%nat /\
   forall i d,
     docs !! i = Some d ->
     docsToBulk docs !! (2 * i)%nat = Some (BulkIndex "executions" "execution" (_id d)) /\
     exists source,
       docsToBulk docs !! (2 * i + 1)%nat = Some (BulkDoc source) /\
       src_workflow_id source = workflow_id d /\
       src_collection_id source = collection_id d /\
       src_granule_id source = granule_id d /\
       src_start_date source = start_date d /\
       src_stop_date source = stop_date d /\
       src_elapsed_ms source = elapsed_ms d /\
       src_success source = success d) /\
  (let kept := List.filter notRunning executions in
   let body := docsToBulk (executionDocs workflowId executions) in
   length body = (2 * length kept)%nat /\
   forall i e,
     kept !! i = Some e ->
     body !! (2 * i)%nat = Some (BulkIndex "executions" "execution" (name e)) /\
     exists source,
       body !! (2 * i + 1)%nat = Some (BulkDoc source) /\
       src_workflow_id source = workflowId /\
       src_collection_id source = collectionId (parseExecutionName (name e)) /\
       src_granule_id source = granuleId (parseExecutionName (name e)) /\
       src_start_date source = Date_parse_field (startDate e) /\
       src_stop_date source = Date_parse_field (stopDate e) /\
       src_elapsed_ms source =
         Js.sub (Date_parse_field (stopDate e)) (Date_parse_field (startDate e)) /\
       (src_success source = true <-> status e = "SUCCEEDED")).
Proof.
  split.
  - split; [apply docsToBulk_length|]. intros i d Hi.
    destruct (docsToBulk_lookup docs i d Hi) as [Ha Hb]. split; [done|].
    exists (withoutId d). by repeat split.
  - cbv zeta. split.
    + rewrite docsToBulk_length. unfold executionDocs. by rewrite length_map.
    + intros i e Hi.
      assert (executionDocs workflowId executions !! i = Some (executionToDoc workflowId e))
        as Hd.
      { unfold executionDocs.
        change (List.map (executionToDoc workflowId) (List.filter notRunning executions))
          with (executionToDoc workflowId <$> List.filter notRunning executions).
        by rewrite list_lookup_fmap, Hi. }
      destruct (docsToBulk_lookup _ i _ Hd) as [Ha Hb]. split; [exact Ha|].
      exists (withoutId (executionToDoc workflowId e)). split; [exact Hb|].
      simpl. repeat split; try done.
      * intros E. by apply String.eqb_eq.
      * intros ->. reflexivity.
Qed.

End BulkFacts.

Section WatermarkStore.
Context `{Runtime} (env : Env).

Lemma insert_only_document (m : gmap string Z) d :
  (forall i, is_Some (m !! i) -> i = "executionMeta-id") ->
  <["executionMeta-id" := d]> m = {["executionMeta-id" := d]}.
Proof.
  intros Honly. apply map_eq. intros i.
  destruct (decide (i = "executionMeta-id")) as [->|Hne].
  - by rewrite lookup_insert_eq, lookup_singleton_eq.
  - rewrite lookup_insert_ne, lookup_singleton_ne by done.
    destruct (m !! i) eqn:E; [|done]. destruct Hne. apply Honly. by rewrite E.
Qed.

Lemma getLastIndexedDate_single w w' r d :
  executions_meta w = {["executionMeta-id" := d]} ->
  getLastIndexedDate env w = (w', r) ->
  r = Fulfilled (Some (Date_parse (es_date env d))) \/ exists m, r = Rejected m.
Proof.
  intros Hm. unfold getLastIndexedDate, es_search_meta, bind.
  rewrite request_called. destruct (fault env _) as [m|].
  - intros [= <- <-]. right. by exists m.
  - simpl. rewrite Hm, map_to_list_singleton. simpl. intros [= <- <-]. by left.
Qed.

(** X4. When [executions-meta] holds at most the watermark document, a
  fulfilled [saveIndexedDate] leaves exactly that document, with the date
  saved, and [getLastIndexedDate] called next returns that date as
  [Date.parse] reads what Elasticsearch renders, unless its search
  fails. *)
Theorem saved_date_is_read_back d w w1 w2 r :
  only_watermark_document w ->
  saveIndexedDate env d w = (w1, Fulfilled tt) ->
  getLastIndexedDate env w1 = (w2, r) ->
  executions_meta w1 = {["executionMeta-id" := d]} /\
  (r = Fulfilled (Some (Date_parse (es_date env d))) \/ exists m, r = Rejected m).
Proof.
  intros Honly Hs Hg. rewrite saveIndexedDate_run in Hs. simpl in Hs.
  destruct (fault env _) as [m|]; [done|]. inversion Hs; subst. clear Hs.
  assert (executions_meta
            (set_executions_meta
               (<["executionMeta-id" := d]>
                  (executions_meta
                     (called env (Index "executions-meta" "executionMeta" "executionMeta-id" d) w)))
               (called env (Index "executions-meta" "executionMeta" "executionMeta-id" d) w))
          = {["executionMeta-id" := d]}) as Hm.
  { simpl. by apply insert_only_document. }
  split; [done|]. by eapply getLastIndexedDate_single.
Qed.

(** X5. A cycle started when [executions-meta] holds at most the
  watermark document ends, completed or not, with at most that document
  in it; a cycle that completes leaves exactly the watermark document,
  holding a clock reading of the cycle, and this is the date a later
  [getLastIndexedDate] returns unless its search fails. *)
Theorem cycle_leaves_one_watermark_document schedule stackName max w w' r :
  only_watermark_document w ->
  findAndIndexExecutions env schedule stackName max w = (w', r) ->
  only_watermark_document w' /\
  (r = Fulfilled tt ->
   exists d,
     now w <= d <= now w' /\
     executions_meta w' = {["executionMeta-id" := d]} /\
     forall w2 w3 r2,
       executions_meta w2 = executions_meta w' ->
       getLastIndexedDate env w2 = (w3, r2) ->
       r2 = Fulfilled (Some (Date_parse (es_date env d))) \/ exists m, r2 = Rejected m).
Proof.
  intros Honly Hrun.
  destruct (cycle_run env _ _ _ _ _ _ Hrun) as
    [(Hm & _ & Hr & _)|(t0 & t1 & mid & pre & _ & _ & _ & Hn & Ht & Hn' & Hres)].
  - split; [|done]. unfold only_watermark_document. by rewrite Hm.
  - destruct Hres as [[-> Hm]|(m & -> & Hm)].
    + rewrite (insert_only_document _ t0 Honly) in Hm. split.
      * unfold only_watermark_document. rewrite Hm. intros i [x Hx].
        apply lookup_singleton_Some in Hx as [<- _]. done.
      * intros _. exists t0. split; [lia|]. split; [done|].
        intros w2 w3 r2 Hm2 Hg. eapply getLastIndexedDate_single; [|exact Hg]. congruence.
    + split; [|done]. unfold only_watermark_document. by rewrite Hm.
Qed.

End WatermarkStore.

Section Liveness.
Context `{Runtime} (env : Env).

Lemma fair_step lid max i schedule ts w w' ts' :
  fair max (i :: schedule) ts ->
  resume_nth env lid max i ts w = (w', ts') ->
  fair max schedule ts'.
Proof.
  intros Hfair Hr j t Hj.
  destruct (decide (j = i)) as [->|Hne].
  - destruct (ts !! i) as [ti|] eqn:Ei.
    + destruct (resume_nth_lookup env lid max _ _ _ _ _ _ Hr Ei) as (Hres & Hl).
      rewrite Hl in Hj. inversion Hj; subst.
      pose proof (Hfair _ _ Ei) as Hc. simpl in Hc.
      destruct (Nat.eq_dec i i) as [_|]; [|done].
      destruct (running_or_ended ti) as [Hrun|Hend].
      * pose proof (resume_turns_left env lid max _ _ _ _ Hrun Hres). lia.
      * rewrite resume_ended by done. simpl.
        unfold turns_left. destruct Hend as [->|[m ->]]; lia.
    + rewrite resume_nth_beyond in Hr by done. inversion Hr; subst. congruence.
  - rewrite (resume_nth_others env lid max _ _ _ _ _ j Hr) in Hj by done.
    pose proof (Hfair _ _ Hj) as Hc. simpl in Hc.
    destruct (Nat.eq_dec i j) as [->|_]; [done|]. done.
Qed.

Lemma fair_nil_ended max ts : fair max [] ts -> Forall ended ts.
Proof.
  intros Hfair. apply Forall_lookup. intros i t Hi.
  pose proof (Hfair _ _ Hi) as Hc. simpl in Hc.
  destruct (running_or_ended t) as [Hrun|Hend]; [|done].
  unfold turns_left in Hc. destruct Hrun as [Hs|[resp Hs]]; rewrite Hs in Hc; lia.
Qed.

Lemma fair_run_ended lid max : forall schedule ts w,
    fair max schedule ts ->
    Forall ended (run_tasks env lid max schedule ts w).2.
Proof.
  induction schedule as [|i schedule IH]; intros ts w Hfair.
  - simpl. by apply fair_nil_ended with (max := max).
  - simpl. destruct (resume_nth env lid max i ts w) as [w1 ts1] eqn:Hr.
    apply IH. by eapply fair_step.
Qed.

Lemma fair_until_settled lid max : forall schedule ts w,
    fair max schedule ts ->
    promise_all (until_settled env lid max schedule ts w).2.1 <> Pending.
Proof.
  induction schedule as [|i schedule IH]; intros ts w Hfair.
  - assert (promise_all ts <> Pending) as Hp.
    { apply promise_all_ended. by apply fair_nil_ended with (max := max). }
    simpl. destruct (promise_all ts) eqn:Ep; simpl; congruence.
  - simpl. destruct (promise_all ts) eqn:Ep; simpl; try congruence.
    destruct (resume_nth env lid max i ts w) as [w1 ts1] eqn:Hr.
    apply IH. by eapply fair_step.
Qed.

(** X6. When the schedule names every task at least as often as the
  task has turns left, every task has ended once the schedule has run,
  and [await Promise.all] is settled. *)
Theorem fair_schedule_settles lid max schedule ts w :
  fair max schedule ts ->
  Forall ended (run_tasks env lid max schedule ts w).2 /\
  (await_all env lid max schedule ts w).2 <> Pending.
Proof.
  intros Hfair. split; [by apply fair_run_ended|].
  pose proof (fair_until_settled lid max schedule ts w Hfair) as Hp.
  unfold await_all.
  by destruct (until_settled env lid max schedule ts w) as [w1 [ts1 rest]].
Qed.

Lemma fair_start max schedule wfs :
  (forall i, (i < length wfs)%nat ->
             (2 * (Z.to_nat max + 1) <= count_occ Nat.eq_dec schedule i)%nat) ->
  fair max schedule (List.map newTask wfs).
Proof.
  intros Hc i t Hi.
  change (List.map newTask wfs) with (newTask <$> wfs) in Hi.
  apply list_lookup_fmap_Some in Hi as (wf & -> & Hi).
  apply lookup_lt_Some in Hi. specialize (Hc i Hi).
  unfold turns_left. simpl. rewrite Z.sub_0_r. lia.
Qed.

Lemma request_not_pending c w w' r : request env c w = (w', r) -> r <> Pending.
Proof. intros Hr. apply request_run in Hr as [_ [->|(m & ->)]]; done. Qed.

Lemma createOrUpdateIndex_not_pending index w w' r :
  createOrUpdateIndex env index w = (w', r) -> r <> Pending.
Proof.
  unfold createOrUpdateIndex, es_indices_exists, es_indices_putMapping, es_indices_create,
    verifySuccessfulIndexResponse, bind.
  rewrite request_called. destruct (fault env _ _); [by intros [= <- <-]|].
  unfold get. destruct (bool_decide _); rewrite request_called;
    (destruct (fault env _ _); [by intros [= <- <-]|]);
    destruct (acknowledge env _); simpl; by intros [= <- <-].
Qed.

(** X7. When the stack has at most [n] workflows and the schedule names
  each of the first [n] tasks at least [2 * (max + 1)] times, twice for
  every turn of its loop, the cycle settles: [findAndIndexExecutions] is
  fulfilled or rejected, not left pending. *)
Theorem cycle_settles schedule stackName max n w :
  (forall w0, (length (workflow_meta env w0 stackName) <= n)%nat) ->
  (forall i, (i < n)%nat ->
             (2 * (Z.to_nat max + 1) <= count_occ Nat.eq_dec schedule i)%nat) ->
  (findAndIndexExecutions env schedule stackName max w).2 <> Pending.
Proof.
  intros Hlen Hfair. unfold findAndIndexExecutions, bind.
  destruct (createOrUpdateIndex env executionsIndex w) as [w1 r1] eqn:E1.
  pose proof (createOrUpdateIndex_not_pending _ _ _ _ E1) as N1.
  destruct r1 as [|[]|m1]; [done| |done].
  destruct (createOrUpdateIndex env executionsMetaIndex w1) as [w2 r2] eqn:E2.
  pose proof (createOrUpdateIndex_not_pending _ _ _ _ E2) as N2.
  destruct r2 as [|[]|m2]; [done| |done].
  destruct (getLastIndexedDate env w2) as [w3 r3] eqn:E3.
  assert (r3 <> Pending) as N3.
  { revert E3. unfold getLastIndexedDate, es_search_meta, bind. rewrite request_called.
    destruct (fault env _ _); [by intros [= <- <-]|]. simpl.
    destruct (0 <? _); [|by intros [= <- <-]].
    destruct (List.map _ _); by intros [= <- <-]. }
  destruct r3 as [|lid|m3]; [done| |done].
  unfold Date_now.
  destruct (loadCollectionConfig env stackName (record DateNow w3)) as [w4 r4] eqn:E4.
  assert (r4 <> Pending /\ forall wfs, r4 = Fulfilled wfs -> (length wfs <= n)%nat) as [N4 L4].
  { revert E4. unfold loadCollectionConfig, bind. rewrite request_called.
    destruct (fault env _ _); [intros [= <- <-]; by split|].
    unfold get. intros [= <- <-]. split; [done|]. intros wfs [= <-]. apply Hlen. }
  destruct r4 as [|wfs|m4]; [done| |done].
  destruct (start_all_fulfilled wfs w4) as (w4' & Est). rewrite Est.
  unfold await_all.
  pose proof (fair_until_settled lid max schedule (List.map newTask wfs) w4') as Hs.
  destruct (until_settled env lid max schedule (List.map newTask wfs) w4') as [w5 [ts5 rest]].
  simpl in Hs. destruct (promise_all ts5) as [|[]|m5] eqn:E5.
  - exfalso. apply Hs; [|done]. apply fair_start. intros i Hi. apply Hfair.
    specialize (L4 wfs eq_refl). lia.
  - rewrite saveIndexedDate_run. simpl. by destruct (fault env _ _).
  - done.
Qed.

End Liveness.

Section HealthyCycle.
Context `{Runtime} (env : Env).
Hypothesis no_fault : forall c w, fault env c w = None.

Lemma createOrUpdateIndex_ok index w :
  (forall w0, acknowledge env w0 = true) ->
  exists w', createOrUpdateIndex env index w = (w', Fulfilled tt).
Proof.
  intros Hack.
  unfold createOrUpdateIndex, es_indices_exists, es_indices_putMapping, es_indices_create,
    verifySuccessfulIndexResponse, bind.
  rewrite request_called, no_fault. unfold get.
  destruct (bool_decide _); rewrite request_called, no_fault, ?Hack; simpl; eauto.
Qed.

Lemma getLastIndexedDate_ok w :
  exists w' lid, getLastIndexedDate env w = (w', Fulfilled lid).
Proof.
  unfold getLastIndexedDate, es_search_meta, bind. rewrite request_called, no_fault.
  unfold get. simpl.
  destruct (map_to_list (executions_meta _)) as [|d l]; simpl; eauto.
Qed.

Lemma loadCollectionConfig_ok stackName w :
  loadCollectionConfig env stackName w =
    (called env (LoadCollectionConfig stackName) w,
     Fulfilled (workflow_meta env (called env (LoadCollectionConfig stackName) w) stackName)).
Proof. unfold loadCollectionConfig, bind. by rewrite request_called, no_fault. Qed.

Lemma afterIndexing_not_thrown lid max t resp n m :
  state (afterIndexing lid max t resp n) <> Thrown m.
Proof.
  destruct (Z.ltb_spec 0 n) as [Hn|Hn].
  - destruct (afterIndexing_pos lid max t resp n Hn) as (_ & _ & _ & [->| ->] & _); done.
  - unfold afterIndexing. assert ((0 <? n) = false) as -> by (by apply Z.ltb_ge). done.
Qed.

Lemma resume_not_thrown lid max t w :
  (forall w0, bulk_errors env w0 = Some false) ->
  (forall m, state t <> Thrown m) ->
  forall m, state (resume env lid max t w).2 <> Thrown m.
Proof.
  intros Hok Ht m. destruct (resume env lid max t w) as [w' t'] eqn:Hr. simpl.
  destruct (state t) as [|resp| |m0] eqn:Hs.
  - destruct (resume_paging env lid max t w w' t' Hs Hr)
      as [(m1 & Hm & _)|[(_ & _ & _ & ->)|(_ & _ & _ & ->)]]; try done.
    by rewrite no_fault in Hm.
  - destruct (resume_indexing env lid max t resp w w' t' Hs Hr)
      as [(m1 & Hm & _)|[(_ & Hb & _)|(_ & _ & E)]].
    + by rewrite no_fault in Hm.
    + by rewrite Hok in Hb.
    + simpl in E. destruct E as [-> _]. apply afterIndexing_not_thrown.
  - rewrite resume_ended in Hr by (by left). inversion Hr; subst. congruence.
  - by destruct (Ht m0).
Qed.

Lemma resume_nth_none_thrown lid max i ts w :
  (forall w0, bulk_errors env w0 = Some false) ->
  none_thrown ts -> none_thrown (resume_nth env lid max i ts w).2.
Proof.
  intros Hok Hn. destruct (resume_nth env lid max i ts w) as [w1 ts1] eqn:Hr. simpl.
  unfold none_thrown in *. apply Forall_lookup. intros j t1 Hj.
  rewrite Forall_lookup in Hn.
  destruct (decide (j = i)) as [->|Hne].
  - destruct (ts !! i) as [t|] eqn:Ei.
    + destruct (resume_nth_lookup env lid max _ _ _ _ _ _ Hr Ei) as (_ & Hl).
      rewrite Hl in Hj. inversion Hj; subst.
      apply resume_not_thrown; [done|]. by apply (Hn i).
    + rewrite resume_nth_beyond in Hr by done. inversion Hr; subst. congruence.
  - rewrite (resume_nth_others env lid max _ _ _ _ _ j Hr) in Hj by done. by apply (Hn j).
Qed.

Lemma run_tasks_none_thrown lid max :
  (forall w0, bulk_errors env w0 = Some false) ->
  forall schedule ts w,
    none_thrown ts -> none_thrown (run_tasks env lid max schedule ts w).2.
Proof.
  intros Hok. induction schedule as [|i schedule IH]; intros ts w Hn; [done|].
  simpl. pose proof (resume_nth_none_thrown lid max i ts w Hok Hn) as Hn1.
  destruct (resume_nth env lid max i ts w) as [w1 ts1]. by apply IH.
Qed.

Lemma until_settled_none_thrown lid max :
  (forall w0, bulk_errors env w0 = Some false) ->
  forall schedule ts w,
    none_thrown ts -> none_thrown (until_settled env lid max schedule ts w).2.1.
Proof.
  intros Hok. induction schedule as [|i schedule IH]; intros ts w Hn.
  - simpl. by destruct (promise_all ts).
  - simpl. destruct (promise_all ts); try done.
    pose proof (resume_nth_none_thrown lid max i ts w Hok Hn) as Hn1.
    destruct (resume_nth env lid max i ts w) as [w1 ts1]. by apply IH.
Qed.

Lemma none_thrown_start wfs : none_thrown (List.map newTask wfs).
Proof. induction wfs; constructor; done. Qed.

(** X8. When no call fails, Elasticsearch acknowledges, no bulk response
  reports errors, and the schedule gives each task [2 * (max + 1)] turns,
  the cycle is fulfilled and leaves a watermark that is a clock reading
  of the cycle. *)
Theorem healthy_cycle_completes schedule stackName max n w :
  (forall w0, acknowledge env w0 = true) ->
  (forall w0, bulk_errors env w0 = Some false) ->
  (forall w0, (length (workflow_meta env w0 stackName) <= n)%nat) ->
  (forall i, (i < n)%nat ->
             (2 * (Z.to_nat max + 1) <= count_occ Nat.eq_dec schedule i)%nat) ->
  exists w' d,
    findAndIndexExecutions env schedule stackName max w = (w', Fulfilled tt) /\
    watermark w' = Some d /\ now w <= d <= now w'.
Proof.
  intros Hack Hok Hlen Hfair.
  assert (exists w', findAndIndexExecutions env schedule stackName max w = (w', Fulfilled tt))
    as (w' & Hrun).
  { unfold findAndIndexExecutions, bind.
    destruct (createOrUpdateIndex_ok executionsIndex w Hack) as (w1 & ->).
    destruct (createOrUpdateIndex_ok executionsMetaIndex w1 Hack) as (w2 & ->).
    destruct (getLastIndexedDate_ok w2) as (w3 & lid & ->).
    unfold Date_now. rewrite loadCollectionConfig_ok.
    set (w4 := called env (LoadCollectionConfig stackName) (record DateNow w3)).
    destruct (start_all_fulfilled (workflow_meta env w4 stackName) w4) as (w4' & Est).
    rewrite Est. unfold await_all.
    pose proof (fair_until_settled env lid max schedule
                  (List.map newTask (workflow_meta env w4 stackName)) w4') as Hs.
    pose proof (until_settled_none_thrown lid max Hok schedule
                  (List.map newTask (workflow_meta env w4 stackName)) w4'
                  (none_thrown_start _)) as Hn.
    destruct (until_settled env lid max schedule _ w4') as [w5 [ts5 rest]].
    simpl in Hs, Hn. destruct (promise_all ts5) as [|[]|m5] eqn:E5.
    - exfalso. apply Hs; [|done]. apply fair_start. intros i Hi. apply Hfair.
      specialize (Hlen w4). lia.
    - rewrite saveIndexedDate_run. simpl. rewrite no_fault. eauto.
    - exfalso. by eapply promise_all_rejected. }
  destruct (cycle_sets_watermark env _ _ _ _ _ Hrun) as (d & Hd & Hlo & Hhi).
  by exists w', d.
Qed.

Lemma admin_only evs :
  Forall (fun te : Z * Event => admin_event te.2) evs ->
  Forall (fun te : Z * Event => ~ page_fetch te.2 /\ ~ bulk_event te.2) evs.
Proof.
  intros Hall. eapply Forall_impl; [exact Hall|]. intros [t e]; simpl.
  destruct e; simpl; tauto.
Qed.

Lemma quiet_admin {X} (c : World -> World * X) w w' x :
  quiet (fun e => admin_event e) c -> c w = (w', x) ->
  exists evs, events w' = evs ++ events w /\
              Forall (fun te : Z * Event => admin_event te.2) evs.
Proof.
  intros Hq Hc. destruct (Hq _ _ _ Hc) as (_ & _ & evs & He & Hall).
  exists evs. split; [done|]. eapply Forall_impl; [exact Hall|]. by intros te [_ ?].
Qed.

(** X9. For a stack without workflows, when no call fails and
  Elasticsearch acknowledges, the cycle is fulfilled whatever the
  schedule, fetches no page and makes no bulk write, and still stores a
  watermark that is a clock reading of the cycle. *)
Theorem cycle_without_workflows schedule stackName max w :
  (forall w0, acknowledge env w0 = true) ->
  (forall w0, workflow_meta env w0 stackName = []) ->
  exists w' d evs,
    findAndIndexExecutions env schedule stackName max w = (w', Fulfilled tt) /\
    watermark w' = Some d /\ now w <= d <= now w' /\
    events w' = evs ++ events w /\
    Forall (fun te : Z * Event => ~ page_fetch te.2 /\ ~ bulk_event te.2) evs.
Proof.
  intros Hack Hnone.
  destruct (createOrUpdateIndex_ok executionsIndex w Hack) as (w1 & E1).
  destruct (createOrUpdateIndex_ok executionsMetaIndex w1 Hack) as (w2 & E2).
  destruct (getLastIndexedDate_ok w2) as (w3 & lid & E3).
  destruct (quiet_admin _ _ _ _ (quiet_createOrUpdateIndex env _) E1) as (evs1 & He1 & Ha1).
  destruct (quiet_admin _ _ _ _ (quiet_createOrUpdateIndex env _) E2) as (evs2 & He2 & Ha2).
  destruct (quiet_admin _ _ _ _ (quiet_getLastIndexedDate env) E3) as (evs3 & He3 & Ha3).
  set (w4 := called env (LoadCollectionConfig stackName) (record DateNow w3)).
  set (w5 := called env (Index "executions-meta" "executionMeta" "executionMeta-id" (now w3)) w4).
  assert (findAndIndexExecutions env schedule stackName max w =
            (set_executions_meta (<["executionMeta-id" := now w3]> (executions_meta w5)) w5,
             Fulfilled tt)) as Hrun.
  { unfold findAndIndexExecutions, bind. rewrite E1, E2, E3. unfold Date_now.
    rewrite loadCollectionConfig_ok. fold w4. rewrite Hnone. unfold await_all.
    simpl start_all. unfold ret at 1.
    assert (until_settled env lid max schedule [] w4 = (w4, ([], schedule))) as ->
        by (by destruct schedule).
    simpl promise_all. cbv iota beta. rewrite saveIndexedDate_run. simpl. fold w5.
    by rewrite no_fault. }
  destruct (cycle_sets_watermark env _ _ _ _ _ Hrun) as (d & Hd & Hlo & Hhi).
  eexists _, d, (((now w4, Index "executions-meta" "executionMeta" "executionMeta-id" (now w3))
                 :: (now w3, LoadCollectionConfig stackName)
                 :: (now w3, DateNow) :: evs3) ++ evs2 ++ evs1).
  split; [exact Hrun|]. split; [done|]. split; [done|]. split.
  - change (events (set_executions_meta
                      (<["executionMeta-id" := now w3]> (executions_meta w5)) w5))
      with ((now w4, Index "executions-meta" "executionMeta" "executionMeta-id" (now w3))
              :: (now w3, LoadCollectionConfig stackName)
              :: (now w3, DateNow) :: events w3).
    rewrite He3, He2, He1. by rewrite <- !app_assoc.
  - apply Forall_app. split; [|apply Forall_app; split; by apply admin_only].
    repeat (constructor; [simpl; tauto|]). by apply admin_only.
Qed.

End HealthyCycle.

Lemma watermark_writes_app evs1 evs2 :
  watermark_writes (evs1 ++ evs2) = watermark_writes evs1 ++ watermark_writes evs2.
Proof. apply List.filter_app. Qed.

Lemma watermark_writes_none evs :
  Forall (fun te : Z * Event => ~ watermark_write te.2) evs -> watermark_writes evs = [].
Proof.
  induction 1 as [|[t e] evs He _ IH]; [done|].
  unfold watermark_writes in *. simpl in *. destruct (watermark_write e); [by destruct He|done].
Qed.

Section HandlerTiming.
Context `{Runtime} (env : Env).

Lemma handler_completed schedule1 schedule2 event w w' data :
  handler env schedule1 schedule2 event w = (w', Fulfilled (CallbackResult data)) ->
  exists w1,
    findAndIndexExecutions env schedule1 (StackName event) MAX_EXECUTIONS_TO_INDEX
                           (record DateNow w) = (w1, Fulfilled tt) /\
    findAndIndexExecutions env schedule2 (StackName event) MAX_EXECUTIONS_TO_INDEX
                           (advance (Z.to_N (30000 - (now w1 - now w))
                                     + latency env (record DateNow w1))
                                    (record DateNow w1)) = (w', Fulfilled tt) /\
    data = "Elasticsearch indexing complete".
Proof.
  unfold handler, try_catch, bind, Date_now, sleep.
  destruct (findAndIndexExecutions env schedule1 (StackName event)
                                   MAX_EXECUTIONS_TO_INDEX (record DateNow w))
    as [w1 [|[]|m]]; try done.
  match goal with
  | |- context [findAndIndexExecutions env schedule2 ?a ?b ?c] =>
      destruct (findAndIndexExecutions env schedule2 a b c) as [w2 [|[]|m]] eqn:E2
  end; try done.
  unfold ret. intros [= <- <-]. by exists w1.
Qed.

Lemma completed_cycle_writes_once schedule stackName max w w' :
  findAndIndexExecutions env schedule stackName max w = (w', Fulfilled tt) ->
  exists d t evs,
    events w' = evs ++ events w /\
    watermark_writes evs = [(t, Index "executions-meta" "executionMeta" "executionMeta-id" d)] /\
    watermark w' = Some d /\ now w <= d <= now w'.
Proof.
  intros Hrun.
  destruct (cycle_run env _ _ _ _ _ _ Hrun) as
    [(_ & _ & Hr & _)|(t0 & t1 & mid & pre & He & Hpre & Hmid & Hn & Ht & Hn' & Hres)]; [done|].
  destruct Hres as [[_ Hm]|(m & ? & _)]; [|done].
  exists t0, t1,
    ((t1, Index "executions-meta" "executionMeta" "executionMeta-id" t0)
       :: mid ++ (t0, DateNow) :: pre).
  split; [rewrite He; simpl; f_equal; by rewrite <- app_assoc|].
  split.
  - change ((t1, Index "executions-meta" "executionMeta" "executionMeta-id" t0)
              :: mid ++ (t0, DateNow) :: pre)
      with ([(t1, Index "executions-meta" "executionMeta" "executionMeta-id" t0)]
              ++ mid ++ [(t0, DateNow)] ++ pre).
    rewrite !watermark_writes_app.
    rewrite (watermark_writes_none mid), (watermark_writes_none pre).
    + reflexivity.
    + eapply Forall_impl; [exact Hpre|]. intros te. apply admin_not_write.
    + eapply Forall_impl; [exact Hmid|]. by intros te (_ & ? & _).
  - unfold watermark. rewrite Hm, lookup_insert_eq. split; [done|lia].
Qed.

(** X10. When the handler calls back with a result, the result is the
  fixed text of completion, the watermark was written exactly twice,
  once per cycle, the second date is not below the first and is at least
  30000 milliseconds after the start of the handler, and it is the
  watermark stored at the end. *)
Theorem handler_second_cycle_after_half_a_minute schedule1 schedule2 event w w' data :
  handler env schedule1 schedule2 event w = (w', Fulfilled (CallbackResult data)) ->
  data = "Elasticsearch indexing complete" /\
  exists d1 d2 t1 t2 evs,
    events w' = evs ++ events w /\
    watermark_writes evs =
      [(t2, Index "executions-meta" "executionMeta" "executionMeta-id" d2);
       (t1, Index "executions-meta" "executionMeta" "executionMeta-id" d1)] /\
    now w <= d1 /\
    now w + 30000 <= d2 /\ d1 <= d2 /\ d2 <= now w' /\
    watermark w' = Some d2.
Proof.
  intros Hh. destruct (handler_completed _ _ _ _ _ _ Hh) as (w1 & Hc1 & Hc2 & ->).
  split; [done|].
  destruct (completed_cycle_writes_once _ _ _ _ _ Hc1) as (d1 & t1 & evs1 & He1 & Hw1 & _ & Hd1).
  destruct (completed_cycle_writes_once _ _ _ _ _ Hc2) as (d2 & t2 & evs2 & He2 & Hw2 & Hm2 & Hd2).
  simpl in Hd1, Hd2, He1, He2.
  exists d1, d2, t1, t2, (evs2 ++ [(now w1, DateNow)] ++ evs1 ++ [(now w, DateNow)]).
  split; [rewrite He2, He1; by rewrite <- !app_assoc|].
  split; [rewrite !watermark_writes_app, Hw1, Hw2; reflexivity|].
  split; [lia|]. split; [lia|]. split; [lia|]. split; [lia|done].
Qed.

End HandlerTiming.

Section Cutoff.
Context `{Runtime}.

(** X11. For a last indexed date [T] whose cutoff [T - 300000] is an
  exact double, [executionBeforeLastIndexed] holds exactly when the stop
  date parses and lies strictly more than 300000 milliseconds before [T];
  for a last indexed date that does not parse it holds of no
  execution. *)
Theorem cutoff_is_strict (T : Z) (e : Execution) :
  Z.abs (T - 300000) < 2 ^ 53 ->
  (executionBeforeLastIndexed (Some (Int T)) e = true <->
   exists s, Date_parse_field (stopDate e) = Int s /\ s + 300000 < T) /\
  executionBeforeLastIndexed (Some NaN) e = false.
Proof.
  intros Hsmall. unfold executionBeforeLastIndexed. simpl.
  change LAST_INDEXED_THRESHOLD with 300000.
  rewrite (round_double_small _ Hsmall). split.
  - destruct (Date_parse_field (stopDate e)) as [|s]; simpl.
    + split; [done|]. by intros (s & ? & _).
    + rewrite Z.ltb_lt. split.
      * intros Hlt. exists s. split; [done|lia].
      * intros (s' & [= <-] & Hlt). lia.
  - by destruct (Date_parse_field (stopDate e)).
Qed.

End Cutoff.

Section SoftCap.
Context `{Runtime} (env : Env).
Hypothesis page_size :
  forall w0 a tok, (length (executions (page env w0 a tok)) <= 100)%nat.

Lemma resume_within_cap lid max t w :
  within_cap max t -> within_cap max (resume env lid max t w).2.
Proof.
  intros (Hb & Hgo & Hix). destruct (resume env lid max t w) as [w' t'] eqn:Hr. simpl.
  destruct (state t) as [|resp| |m] eqn:Hs.
  - destruct (resume_paging env lid max t w w' t' Hs Hr)
      as [(m & _ & _ & ->)|[(_ & _ & _ & ->)|(_ & _ & _ & ->)]];
      unfold within_cap, running; cbn [totalIndexed state with_state];
      (split; [exact Hb|]); split.
    + intros [?|[? ?]]; discriminate.
    + intros resp; discriminate.
    + intros [?|[? ?]]; discriminate.
    + intros resp; discriminate.
    + intros _. apply Hgo. by left.
    + intros resp [= <-]. by apply page_size.
  - destruct (resume_indexing env lid max t resp w w' t' Hs Hr)
      as [(m & _ & _ & ->)|[(_ & _ & _ & ->)|(_ & _ & E)]].
    { unfold within_cap, running; cbn [totalIndexed state with_state].
      split; [exact Hb|]. split; [intros [?|[? ?]]; discriminate|intros ?; discriminate]. }
    { unfold within_cap, running; cbn [totalIndexed state with_state].
      split; [exact Hb|]. split; [intros [?|[? ?]]; discriminate|intros ?; discriminate]. }
    simpl in E. destruct E as [-> _].
    set (n := Z.of_nat (length (executionDocs (id (workflow t)) (executions resp)))).
    assert (0 <= n <= 100) as Hn.
    { unfold n. rewrite executionDocs_length.
      pose proof (List.filter_length_le notRunning (executions resp)).
      pose proof (Hix resp eq_refl). lia. }
    destruct (Z.eq_dec n 0) as [E0|Hne].
    + rewrite E0, afterIndexing_zero.
      unfold within_cap, running; cbn [totalIndexed state with_state].
      split; [exact Hb|]. split; [intros [?|[? ?]]; discriminate|intros ?; discriminate].
    + assert (0 < n) as Hpos by lia.
      destruct (afterIndexing_pos lid max t resp n Hpos) as (_ & Ht & _ & Hst & Hp).
      split; [rewrite Ht; destruct (Hgo (or_intror (ex_intro _ resp Hs))); lia|].
      split.
      * intros [Hpg|[resp' Hi]]; [|destruct Hst as [Hst|Hst]; rewrite Hst in Hi; discriminate].
        apply Hp in Hpg. rewrite Ht. lia.
      * intros resp' Hi. destruct Hst as [Hst|Hst]; rewrite Hst in Hi; discriminate.
  - rewrite resume_ended in Hr by (by left). inversion Hr; subst.
    split; [exact Hb|]. split; [exact Hgo|]. intros resp Hi. rewrite Hs in Hi. discriminate.
  - rewrite resume_ended in Hr by (right; by exists m). inversion Hr; subst.
    split; [exact Hb|]. split; [exact Hgo|]. intros resp Hi. rewrite Hs in Hi. discriminate.
Qed.

Lemma resume_nth_within_cap lid max i ts w :
  Forall (within_cap max) ts ->
  Forall (within_cap max) (resume_nth env lid max i ts w).2.
Proof.
  intros Hall. destruct (resume_nth env lid max i ts w) as [w1 ts1] eqn:Hr. simpl.
  apply Forall_lookup. intros j t1 Hj. rewrite Forall_lookup in Hall.
  destruct (decide (j = i)) as [->|Hne].
  - destruct (ts !! i) as [t|] eqn:Ei.
    + destruct (resume_nth_lookup env lid max _ _ _ _ _ _ Hr Ei) as (_ & Hl).
      rewrite Hl in Hj. inversion Hj; subst.
      apply resume_within_cap. by apply (Hall i).
    + rewrite resume_nth_beyond in Hr by done. inversion Hr; subst. congruence.
  - rewrite (resume_nth_others env lid max _ _ _ _ _ j Hr) in Hj by done. by apply (Hall j).
Qed.

Lemma run_tasks_within_cap lid max : forall schedule ts w,
    Forall (within_cap max) ts ->
    Forall (within_cap max) (run_tasks env lid max schedule ts w).2.
Proof.
  induction schedule as [|i schedule IH]; intros ts w Hall; [done|].
  simpl. pose proof (resume_nth_within_cap lid max i ts w Hall) as H1.
  destruct (resume_nth env lid max i ts w) as [w1 ts1]. by apply IH.
Qed.

(** X12. When no page holds more than 100 executions, which is the
  [maxResults] of the request, the number of documents a task has
  indexed never exceeds the cap by more than 99, whatever the schedule
  and whatever other tasks run with it. *)
Theorem cap_overshoot_is_bounded lid max schedule :
  (forall workflows w,
      Forall (fun t => 0 <= totalIndexed t <= Z.max max 1 + 99)
             (pool env lid max schedule workflows w).2) /\
  (forall wf w,
      exists w' t',
        pool env lid max schedule [wf] w = (w', [t']) /\
        0 <= totalIndexed t' <= Z.max max 1 + 99).
Proof.
  assert (forall workflows w,
             Forall (fun t => 0 <= totalIndexed t <= Z.max max 1 + 99)
                    (pool env lid max schedule workflows w).2) as Hall.
  { intros workflows w. unfold pool.
    destruct (start_all_fulfilled workflows w) as (w1 & ->).
    eapply Forall_impl; [apply run_tasks_within_cap|by intros t (? & _)].
    apply Forall_forall. intros t Hin.
    apply list_elem_of_In, in_map_iff in Hin as (wf & <- & _).
    split; [simpl; lia|]. split; [intros _; by left|]. intros resp. done. }
  split; [exact Hall|].
  intros wf w. specialize (Hall [wf] w). rewrite pool_one in *.
  destruct (run_tasks env lid max schedule [newTask wf] _) as [w' ts'] eqn:Hrun.
  destruct (single_run_fetches env lid max schedule _ _ _ _ Hrun) as (t' & _ & -> & _).
  exists w', t'. split; [done|]. simpl in Hall. by inversion Hall.
Qed.

End SoftCap.

Section Start.
Context `{Runtime} (env : Env).

Lemma start_all_run : forall workflows w,
    start_all workflows w =
      ({| now := now w;
          indices := indices w;
          executions_meta := executions_meta w;
          executions_index := executions_index w;
          events := rev (List.map (fun wf => (now w, ListExecutions (arn wf) None 100))
                                  workflows) ++ events w |},
       Fulfilled (List.map newTask workflows)).
Proof.
  induction workflows as [|wf wfs IH]; intros w.
  - simpl. by destruct w.
  - cbn [start_all]. unfold bind at 1. rewrite startTask_run.
    unfold bind. rewrite IH. unfold ret. f_equal.
    cbn [now indices executions_meta executions_index events record List.map rev].
    by rewrite <- app_assoc.
Qed.

(** X18. The tasks of the workflows start one after the other, each
  with its request for a first page: these requests are the first
  events of a pool, in the order of the workflows and all at the time of
  the start, before any answer and any bulk write; and the tasks stay
  those of the workflows, in their order, whatever the schedule. *)
Theorem first_requests_come_first lid max schedule workflows w :
  exists evs,
    events (pool env lid max schedule workflows w).1 =
      evs ++ rev (List.map (fun wf => (now w, ListExecutions (arn wf) None 100)) workflows)
          ++ events w /\
    Forall (fun te : Z * Event => now w <= te.1 /\ paging_event te.2) evs /\
    List.map workflow (pool env lid max schedule workflows w).2 = workflows.
Proof.
  unfold pool. rewrite start_all_run.
  destruct (run_tasks env lid max schedule (List.map newTask workflows) _) as [w' ts] eqn:Hrun.
  destruct (quiet_run_tasks env lid max schedule _ _ _ _ Hrun) as (_ & _ & evs & He & Hall).
  exists evs. split; [exact He|]. split.
  - eapply Forall_impl; [exact Hall|]. intros te [[? _] ?]. by split.
  - simpl. clear He Hall. revert w' ts Hrun.
    generalize ({| now := now w; indices := indices w; executions_meta := executions_meta w;
                   executions_index := executions_index w;
                   events := rev (List.map (fun wf => (now w, ListExecutions (arn wf) None 100))
                                           workflows) ++ events w |}).
    assert (List.map workflow (List.map newTask workflows) = workflows) as Hstart.
    { rewrite List.map_map. simpl. apply List.map_id. }
    revert Hstart. generalize (List.map newTask workflows) as ts0.
    induction schedule as [|i schedule IH]; intros ts0 Hstart w0 w' ts Hrun.
    + simpl in Hrun. by inversion Hrun; subst.
    + simpl in Hrun. destruct (resume_nth env lid max i ts0 w0) as [w1 ts1] eqn:Hr.
      eapply IH; [|exact Hrun]. rewrite <- Hstart. clear -Hr.
      revert i w0 w1 ts1 Hr. induction ts0 as [|t ts0 IH0]; intros i w0 w1 ts1 Hr.
      * by assert (ts1 = []) as -> by (destruct i; by inversion Hr).
      * destruct i as [|i]; simpl in Hr.
        -- destruct (resume env lid max t w0) as [w2 t2] eqn:Hres. inversion Hr; subst.
           simpl. f_equal. by eapply resume_workflow.
        -- destruct (resume_nth env lid max i ts0 w0) as [w2 ts2] eqn:Hr2. inversion Hr; subst.
           simpl. f_equal. by eapply IH0.
Qed.

End Start.

Module MrfFacts.
Import Mrf.

Lemma no_dot_app_dot stem ext : no_dot (String.append stem (String "."%char ext)) = false.
Proof.
induction stem as [|c stem IH]; simpl; [done|]. rewrite IH. apply andb_false_r.
Qed.

Lemma underscore_no_dot s : no_dot s = true -> underscoreBeforeExtension s = s.
Proof.
induction s as [|c s IH]; [done|]. simpl. intros Hn.
apply andb_true_iff in Hn as [Hc Hs]. apply negb_true_iff in Hc. rewrite Hc. simpl.
by rewrite IH.
Qed.

Lemma underscore_last_dot stem ext :
no_dot ext = true ->
underscoreBeforeExtension (String.append stem (String "."%char ext))
= String.append stem (String "_"%char (String "."%char ext)).
Proof.
intros Hext. induction stem as [|c stem IH]; simpl.
- by rewrite Hext.
- rewrite no_dot_app_dot, andb_false_r. by rewrite IH.
Qed.

(** X13. [destKeyFn] joins the destination key and the base name of the
  file with an underscore put before the last dot: a base name
  [stem.ext], [ext] without dot, becomes [stem_.ext], and a base name
  without dot is kept as it is. *)
Theorem underscore_before_extension `{Node} :
(forall s, no_dot s = true -> underscoreBeforeExtension s = s) /\
(forall stem ext,
    no_dot ext = true ->
    underscoreBeforeExtension (String.append stem (String.append "." ext))
    = String.append stem (String.append "_." ext)) /\
(forall destKey filename stem ext,
    path_basename filename = String.append stem (String.append "." ext) ->
    no_dot ext = true ->
    destKeyFn destKey filename = path_join destKey (String.append stem (String.append "_." ext))) /\
(forall destKey filename,
    no_dot (path_basename filename) = true ->
    destKeyFn destKey filename = path_join destKey (path_basename filename)).
Proof.
split; [apply underscore_no_dot|]. split; [apply underscore_last_dot|]. split.
- intros destKey filename stem ext Hb Hext. unfold destKeyFn. rewrite Hb.
  f_equal. by apply underscore_last_dot.
- intros destKey filename Hn. unfold destKeyFn. f_equal. by apply underscore_no_dot.
Qed.

Section Runs.
Context `{Node} (env : Env).

Lemma adds_weaken {A} (Q Q' : Op -> Prop) (c : Exec A) :
(forall o, Q o -> Q' o) -> adds Q c -> adds Q' c.
Proof.
intros HQ Hc ops ops' r Hrun. destruct (Hc _ _ _ Hrun) as (new & -> & Hall).
exists new. split; [done|]. eapply Forall_impl; [exact Hall|done].
Qed.

Lemma adds_pure {A} Q (a : A) : adds Q (pure a).
Proof. intros ops ops' r [= <- <-]. by exists []. Qed.

Lemma adds_and_then {A B} Q (c : Exec A) (k : A -> Exec B) :
adds Q c -> (forall a, adds Q (k a)) -> adds Q (and_then c k).
Proof.
intros Hc Hk ops ops' r. unfold and_then.
destruct (c ops) as [ops1 [a|e]] eqn:Ec; intros Hrun.
- destruct (Hc _ _ _ Ec) as (new1 & -> & Hall1).
destruct (Hk a _ _ _ Hrun) as (new2 & -> & Hall2).
exists (new2 ++ new1). split; [by rewrite app_assoc|]. by apply Forall_app.
- inversion Hrun; subst. exact (Hc _ _ _ Ec).
Qed.

Lemma adds_and_then_stuck {A B} Q (c : Exec A) (k : A -> Exec B) :
adds Q c -> (forall ops ops' a, c ops <> (ops', Ok a)) -> adds Q (and_then c k).
Proof.
intros Hc Hstuck ops ops' r. unfold and_then.
destruct (c ops) as [ops1 [a|e]] eqn:Ec; intros Hrun.
- by destruct (Hstuck ops ops1 a).
- inversion Hrun; subst. exact (Hc _ _ _ Ec).
Qed.

Lemma adds_op (Q : Op -> Prop) o : Q o -> adds Q (op env o).
Proof.
intros Ho ops ops' r. unfold op. destruct (throws env _); intros [= <- <-];
(exists [o]; split; [done|]; by constructor).
Qed.

Lemma adds_ask {A} (Q : Op -> Prop) o (answer : list Op -> A) : Q o -> adds Q (ask env o answer).
Proof.
intros Ho. apply adds_and_then; [by apply adds_op|].
intros _ ops ops' r [= <- <-]. by exists [].
Qed.

Lemma adds_for_of {A} Q (l : list A) (f : A -> Exec unit) :
(forall x, adds Q (f x)) -> adds Q (for_of l f).
Proof.
intros Hf. induction l as [|x l IH]; simpl; [apply adds_pure|].
apply adds_and_then; [apply Hf|]. intros _. apply IH.
Qed.

Lemma adds_existsSync (Q : Op -> Prop) path : Q (ExistsSync path) -> adds Q (existsSync env path).
Proof.
intros Ho ops ops' r [= <- <-]. exists [ExistsSync path]. split; [done|]. by constructor.
Qed.

Lemma adds_runMrfgen (Q : Op -> Prop) path : Q (SpawnMrfgen path) -> adds Q (runMrfgen env path).
Proof.
intros Ho ops ops' r. unfold runMrfgen. destruct (_ =? 0); intros [= <- <-];
(exists [SpawnMrfgen path]; split; [done|]; by constructor).
Qed.

Lemma adds_catch {A} Q (c : Exec A) (h : Error -> Exec A) :
adds Q c -> (forall e, adds Q (h e)) -> adds Q (catch c h).
Proof.
intros Hc Hh ops ops' r. unfold catch.
destruct (c ops) as [ops1 [a|e]] eqn:Ec; intros Hrun.
- inversion Hrun; subst. exact (Hc _ _ _ Ec).
- destruct (Hc _ _ _ Ec) as (new1 & -> & Hall1).
destruct (Hh e _ _ _ Hrun) as (new2 & -> & Hall2).
exists (new2 ++ new1). split; [by rewrite app_assoc|]. by apply Forall_app.
Qed.

Lemma adds_console_log (Q : Op -> Prop) e : Q (ConsoleLog e) -> adds Q (console_log e).
Proof.
intros Ho ops ops' r [= <- <-]. exists [ConsoleLog e]. split; [done|]. by constructor.
Qed.

Lemma adds_stage_and_generate task tempDir :
adds (staged task tempDir) (stage_and_generate env task tempDir).
Proof.
assert (forall o, ~ is_exec o ->
                match o with
                | UploadS3Files _ bucket keyPath =>
                    bucket = output_Bucket task /\ keyPath = destKeyFn (output_Key task)
                | SpawnMrfgen configPath =>
                    configPath = path_join tempDir "mrfgenConfig.xml"
                | MkdtempSync _ => False
                | _ => True
                end -> adds (staged task tempDir) (op env o)) as Hop.
{ intros o H1 H2. apply adds_op. by split. }
assert (forall A o (answer : list Op -> A),
         ~ is_exec o ->
         match o with
         | UploadS3Files _ bucket keyPath =>
             bucket = output_Bucket task /\ keyPath = destKeyFn (output_Key task)
         | SpawnMrfgen configPath =>
             configPath = path_join tempDir "mrfgenConfig.xml"
         | MkdtempSync _ => False
         | _ => True
         end -> adds (staged task tempDir) (ask env o answer)) as Hask.
{ intros A o answer H1 H2. apply adds_ask. by split. }
unfold stage_and_generate.
apply adds_and_then.
{ apply adds_for_of. intros p. apply adds_and_then.
- apply adds_existsSync. split; simpl; tauto.
- intros [|]; [apply adds_pure|apply Hop; simpl; tauto]. }
intros _. apply adds_and_then; [apply Hask; simpl; tauto|]. intros tilefiles.
apply adds_and_then; [apply adds_for_of; intros f; apply Hop; simpl; tauto|]. intros _.
apply adds_and_then; [apply Hask; simpl; tauto|]. intros mrfConfig.
apply adds_and_then; [apply Hop; simpl; tauto|]. intros _.
apply adds_and_then.
{ apply adds_for_of. intros f. destruct (filename f) as [name|]; [|apply Hop; simpl; tauto].
destruct (String.eqb name ""); apply Hop; simpl; tauto. }
intros _. apply adds_and_then; [apply Hop; simpl; tauto|]. intros _.
apply adds_and_then; [apply adds_runMrfgen; split; simpl; [tauto|reflexivity]|]. intros _.
apply adds_and_then; [apply Hask; simpl; tauto|]. intros outputs.
apply Hop; simpl; tauto.
Qed.

Lemma adds_stage_without_upload task tempDir :
(forall ops, exit_code env ops <> 0) ->
adds (fun o => ~ is_upload o) (stage_and_generate env task tempDir).
Proof.
intros Hcode. unfold stage_and_generate.
apply adds_and_then.
{ apply adds_for_of. intros p. apply adds_and_then.
- apply adds_existsSync. simpl; tauto.
- intros [|]; [apply adds_pure|apply adds_op; simpl; tauto]. }
intros _. apply adds_and_then; [apply adds_ask; simpl; tauto|]. intros tilefiles.
apply adds_and_then; [apply adds_for_of; intros f; apply adds_op; simpl; tauto|]. intros _.
apply adds_and_then; [apply adds_ask; simpl; tauto|]. intros mrfConfig.
apply adds_and_then; [apply adds_op; simpl; tauto|]. intros _.
apply adds_and_then.
{ apply adds_for_of. intros f.
destruct (filename f) as [name|]; [|apply adds_op; simpl; tauto].
destruct (String.eqb name ""); apply adds_op; simpl; tauto. }
intros _. apply adds_and_then; [apply adds_op; simpl; tauto|]. intros _.
apply adds_and_then_stuck; [apply adds_runMrfgen; simpl; tauto|].
intros ops ops' a. unfold runMrfgen.
destruct (Z.eqb_spec (exit_code env (SpawnMrfgen (path_join tempDir "mrfgenConfig.xml") :: ops)) 0)
as [E|_]; [by destruct (Hcode _ E)|done].
Qed.

Lemma catch_log_never_fails task tempDir ops ops' r :
catch (stage_and_generate env task tempDir) (fun e => console_log e) ops = (ops', r) ->
r = Ok tt.
Proof.
unfold catch. destruct (stage_and_generate env task tempDir ops) as [ops1 [[]|e]].
- by intros [= <- <-].
- by intros [= <- <-].
Qed.

(** X14. A run of [runExclusive] with an empty payload does nothing and
completes with no files. Otherwise, unless [mkdtempSync] throws, the
last operation of the run is [execSync] of [rm -rf] on the directory
made, whatever happened inside [try]. Inside [try] there is no
[execSync] and no other temporary directory is made; the one process
started there, if any, is [mrfgen], which [runMrfgen] spawns through a
shell on [mrfgenConfig.xml] of that directory. The run ends without
error unless the removal itself throws. *)
Theorem temp_dir_is_removed task ops ops' r :
runExclusive env task ops = (ops', r) ->
(payload task = [] /\ ops' = ops /\ r = Ok (Complete [])) \/
(payload task <> [] /\
((exists m, ops' = MkdtempSync "GenerateMrfTask" :: ops /\ r = Err (Exception m)) \/
(exists body,
    let tempDir := made_dir env (MkdtempSync "GenerateMrfTask" :: ops) in
    ops' = ExecSync (String.append "rm -rf " tempDir) :: body
             ++ MkdtempSync "GenerateMrfTask" :: ops /\
    Forall (staged task tempDir) body /\
    (r = Ok Undefined \/ exists m, r = Err (Exception m) /\ throws env ops' = Some m)))).
Proof.
unfold runExclusive. destruct (payload task) as [|f fs] eqn:Ep; simpl.
{ intros [= <- <-]. by left. }
intros Hrun. right. split; [done|].
unfold ask, and_then, op in Hrun.
destruct (throws env (MkdtempSync "GenerateMrfTask" :: ops)) as [m|] eqn:Et.
{ inversion Hrun; subst. left. by exists m. }
right. set (tempDir := made_dir env (MkdtempSync "GenerateMrfTask" :: ops)) in *.
unfold finally in Hrun.
destruct (catch (stage_and_generate env task tempDir) (fun e => console_log e)
              (MkdtempSync "GenerateMrfTask" :: ops)) as [ops1 r1] eqn:Ec.
pose proof (catch_log_never_fails _ _ _ _ _ Ec) as ->.
assert (adds (staged task tempDir)
           (catch (stage_and_generate env task tempDir) (fun e => console_log e))) as Hadds.
{ apply adds_catch; [apply adds_stage_and_generate|]. intros e.
apply adds_console_log. split; simpl; tauto. }
destruct (Hadds _ _ _ Ec) as (body & -> & Hbody).
exists body.
destruct (throws env (ExecSync (String.append "rm -rf " tempDir)
                      :: body ++ MkdtempSync "GenerateMrfTask" :: ops)) as [m|] eqn:Er;
inversion Hrun; subst; (split; [done|]; split; [done|]).
- right. by exists m.
- by left.
Qed.

Lemma adds_finally {A} Q (c : Exec A) (f : Exec unit) :
adds Q c -> adds Q f -> adds Q (finally c f).
Proof.
intros Hc Hf ops ops' r. unfold finally.
destruct (c ops) as [ops1 r1] eqn:Ec.
destruct (f ops1) as [ops2 [[]|e]] eqn:Ef; intros [= <- <-];
destruct (Hc _ _ _ Ec) as (new1 & -> & Hall1);
destruct (Hf _ _ _ Ef) as (new2 & -> & Hall2);
(exists (new2 ++ new1); split; [by rewrite app_assoc|]; by apply Forall_app).
Qed.

Lemma adds_runExclusive (Q : Op -> Prop) task :
Q (MkdtempSync "GenerateMrfTask") ->
(forall command, Q (ExecSync command)) ->
(forall e, Q (ConsoleLog e)) ->
(forall tempDir, adds Q (stage_and_generate env task tempDir)) ->
adds Q (runExclusive env task).
Proof.
intros Hmk Hex Hlog Hbody. unfold runExclusive.
destruct (_ =? _)%nat; [apply adds_pure|].
apply adds_and_then; [by apply adds_ask|]. intros tempDir.
apply adds_and_then; [|intros _; apply adds_pure].
apply adds_finally; [|by apply adds_op].
apply adds_catch; [apply Hbody|]. intros e. by apply adds_console_log.
Qed.

(** X15. Every upload of a run of [runExclusive] goes to the bucket of
the output configuration under the keys of [destKeyFn]; and when
[mrfgen] exits with a code other than 0, no upload is made. *)
Theorem upload_needs_successful_mrfgen task ops ops' r :
runExclusive env task ops = (ops', r) ->
exists new,
ops' = new ++ ops /\
(forall paths bucket keyPath,
    In (UploadS3Files paths bucket keyPath) new ->
    bucket = output_Bucket task /\ keyPath = destKeyFn (output_Key task)) /\
((forall ops0, exit_code env ops0 <> 0) -> Forall (fun o => ~ is_upload o) new).
Proof.
intros Hrun.
assert (adds (fun o => match o with
                     | UploadS3Files _ bucket keyPath =>
                         bucket = output_Bucket task /\
                         keyPath = destKeyFn (output_Key task)
                     | _ => True
                     end) (runExclusive env task)) as Hwell.
{ apply adds_runExclusive; try done. intros tempDir.
eapply adds_weaken; [|apply adds_stage_and_generate].
intros o [_ Ho]. by destruct o. }
destruct (Hwell _ _ _ Hrun) as (new & -> & Hall).
exists new. split; [done|]. split.
- intros paths bucket keyPath Hin. rewrite Forall_forall in Hall.
apply list_elem_of_In in Hin. exact (Hall _ Hin).
- intros Hcode.
assert (adds (fun o => ~ is_upload o) (runExclusive env task)) as Hno.
{ apply adds_runExclusive; try (simpl; tauto). intros tempDir.
  by apply adds_stage_without_upload. }
destruct (Hno _ _ _ Hrun) as (new' & E & Hall').
apply app_inv_tail in E. by subst.
Qed.

Section Healthy.
Hypothesis nothing_throws : forall ops, throws env ops = None.

Lemma op_ok o ops : op env o ops = (o :: ops, Ok tt).
Proof. unfold op. by rewrite nothing_throws. Qed.

Lemma ask_ok {A} o (answer : list Op -> A) ops :
ask env o answer ops = (o :: ops, Ok (answer (o :: ops))).
Proof. unfold ask, and_then. by rewrite op_ok. Qed.

Lemma for_of_ok {A} (l : list A) (f : A -> Exec unit) :
(forall x ops, exists ops', f x ops = (ops', Ok tt)) ->
forall ops, exists ops', for_of l f ops = (ops', Ok tt).
Proof.
intros Hf. induction l as [|x l IH]; intros ops; simpl; [by exists ops|].
unfold and_then. destruct (Hf x ops) as (ops1 & ->). apply IH.
Qed.

Lemma stage_and_generate_ok task tempDir ops :
(forall ops0, exit_code env ops0 = 0) ->
exists ops1,
let outputs := listing env (ReaddirSync (path_join tempDir "output") :: ops1) in
stage_and_generate env task tempDir ops =
(UploadS3Files (List.map (fun f => path_join (path_join tempDir "output") f) outputs)
               (output_Bucket task) (destKeyFn (output_Key task))
   :: ReaddirSync (path_join tempDir "output")
   :: ops1,
 Ok tt) /\
exists ops0, ops1 = SpawnMrfgen (path_join tempDir "mrfgenConfig.xml") :: ops0.
Proof.
intros Hcode. unfold stage_and_generate, and_then.
destruct (for_of_ok ["work"; "input"; "output"; "logs"; "emptyTiles"]
        (fun tempPath =>
           fun ops =>
             match existsSync env (path_join tempDir tempPath) ops with
             | (ops', Ok a) =>
                 (if (a : bool) then pure tt
                  else op env (MkdirSync (path_join tempDir tempPath))) ops'
             | (ops', Err e) => (ops', Err e)
             end)) with (ops := ops) as (ops1 & E1).
{ intros p ops0. unfold existsSync. destruct (is_there env _); [by eexists|].
rewrite op_ok. by eexists. }
unfold and_then in E1. simpl in E1. simpl. rewrite E1. clear E1.
rewrite ask_ok.
match goal with
| |- context [for_of ?l ?f ?o] =>
destruct (for_of_ok l f) with (ops := o) as (ops2 & E2)
end.
{ intros x ops0. rewrite op_ok. by eexists. }
rewrite E2. clear E2. rewrite ask_ok, op_ok.
match goal with
| |- context [for_of ?l ?f ?o] =>
destruct (for_of_ok l f) with (ops := o) as (ops3 & E3)
end.
{ intros x ops0. destruct (filename x) as [name|]; [|rewrite op_ok; by eexists].
destruct (String.eqb name ""); rewrite op_ok; by eexists. }
rewrite E3. clear E3. rewrite op_ok. unfold runMrfgen. rewrite Hcode. simpl.
rewrite ask_ok, op_ok. eexists. split; [reflexivity|]. by eexists.
Qed.

(** X16. With a payload that is not empty, when nothing throws and
[mrfgen] exits with code 0, the run ends without error; its last three
operations are the reading of the output directory, the upload of
every file read there to the output bucket under the keys of
[destKeyFn], and the removal of the directory made. *)
Theorem healthy_run_uploads_the_outputs task ops :
payload task <> [] ->
(forall ops0, exit_code env ops0 = 0) ->
exists ops1,
let tempDir := made_dir env (MkdtempSync "GenerateMrfTask" :: ops) in
let outputs := listing env (ReaddirSync (path_join tempDir "output") :: ops1) in
runExclusive env task ops =
(ExecSync (String.append "rm -rf " tempDir)
   :: UploadS3Files (List.map (fun f => path_join (path_join tempDir "output") f) outputs)
                    (output_Bucket task) (destKeyFn (output_Key task))
   :: ReaddirSync (path_join tempDir "output")
   :: ops1,
 Ok Undefined).
Proof.
intros Hp Hcode. unfold runExclusive.
destruct (payload task) as [|f fs]; [done|]. simpl.
unfold and_then at 1. rewrite ask_ok.
set (tempDir := made_dir env (MkdtempSync "GenerateMrfTask" :: ops)).
unfold and_then, finally, catch.
destruct (stage_and_generate_ok task tempDir (MkdtempSync "GenerateMrfTask" :: ops) Hcode)
as (ops1 & E & _).
simpl in E. rewrite E. rewrite op_ok. by exists ops1.
Qed.

End Healthy.
End Runs.
End MrfFacts.

(** * The properties on the samples *)

Import Sample.
#[local] Existing Instance runtime.

(** A cycle over one workflow that completes writes its start time; the same
    cycle with a bulk response reporting errors writes nothing. *)
Lemma watermark_all_or_nothing_witness :
  (exists t0,
      executions_meta
        (findAndIndexExecutions (services one_page [wf_a] None (Some false))
                                [0%nat; 0%nat] "gitc-stack" 50000 world0).1
      = <["executionMeta-id" := t0]> (executions_meta world0)) /\
  executions_meta
    (findAndIndexExecutions (services one_page [wf_a] None (Some true))
                            [0%nat; 0%nat] "gitc-stack" 50000 world0).1
  = executions_meta world0.
Proof.
  split.
  - destruct (watermark_all_or_nothing
                (services one_page [wf_a] None (Some false)) [0%nat; 0%nat] "gitc-stack" 50000 world0
                (findAndIndexExecutions (services one_page [wf_a] None (Some false))
                                        [0%nat; 0%nat] "gitc-stack" 50000 world0).1
                (Fulfilled tt))
      as (_ & evs & _ & _ & Hok & _); [vm_compute; reflexivity|].
    destruct (Hok eq_refl) as (t0 & _ & _ & _ & _ & _ & _ & Hm). by exists t0.
  - destruct (watermark_all_or_nothing
                (services one_page [wf_a] None (Some true)) [0%nat; 0%nat] "gitc-stack" 50000 world0
                (findAndIndexExecutions (services one_page [wf_a] None (Some true))
                                        [0%nat; 0%nat] "gitc-stack" 50000 world0).1
                (Rejected "Failed saving to elasticsearch"))
      as (_ & evs & _ & _ & _ & Hno); [vm_compute; reflexivity|].
    by apply Hno.
Defined.

(** The handler passes the same value to its callback whether the first
    workflow indexed one document or two: the value is no summary of counts. *)
Lemma handler_result_is_no_summary :
  (handler (services one_page [wf_a; wf_b] (Some (arn wf_b)) (Some false))
           [0%nat; 0%nat; 1%nat] [0%nat; 0%nat; 1%nat] event0 world0).2
  = Fulfilled (CallbackError "ThrottlingException") /\
  ~ exists decode : Callback -> list (string * Z),
      forall pages,
        In pages [one_page; two_finished] ->
        forall w' r,
          handler (services pages [wf_a; wf_b] (Some (arn wf_b)) (Some false))
                  [0%nat; 0%nat; 1%nat] [0%nat; 0%nat; 1%nat] event0 world0 = (w', Fulfilled r) ->
          decode r =
            List.map (fun t => (id (workflow t), totalIndexed t))
                     (cycle_tasks (services pages [wf_a; wf_b] (Some (arn wf_b)) (Some false))
                                  [0%nat; 0%nat; 1%nat] (StackName event0) MAX_EXECUTIONS_TO_INDEX
                                  (record DateNow world0)).
Proof.
  split; [vm_compute; reflexivity|].
  intros (decode & Hd).
  pose proof (Hd one_page (or_introl eq_refl)
                 (handler (services one_page [wf_a; wf_b] (Some (arn wf_b)) (Some false))
                          [0%nat; 0%nat; 1%nat] [0%nat; 0%nat; 1%nat] event0 world0).1
                 (CallbackError "ThrottlingException")) as H1.
  pose proof (Hd two_finished (or_intror (or_introl eq_refl))
                 (handler (services two_finished [wf_a; wf_b] (Some (arn wf_b)) (Some false))
                          [0%nat; 0%nat; 1%nat] [0%nat; 0%nat; 1%nat] event0 world0).1
                 (CallbackError "ThrottlingException")) as H2.
  assert (decode (CallbackError "ThrottlingException")
          = [("IngestVIIRS", 1); ("DiscoverVIIRS", 0)]) as E1.
  { rewrite H1; [|vm_compute; reflexivity]. vm_compute. reflexivity. }
  assert (decode (CallbackError "ThrottlingException")
          = [("IngestVIIRS", 2); ("DiscoverVIIRS", 0)]) as E2.
  { rewrite H2; [|vm_compute; reflexivity]. vm_compute. reflexivity. }
  rewrite E1 in E2. discriminate E2.
Qed.

(** The second workflow is throttled and its task throws at its first
    answer: the cycle is rejected there and writes no watermark. The task of
    the first workflow is not stopped: it goes on to fetch its second and
    third page and indexes its 240 documents. *)
Lemma partition_failure_rejects_cycle_witness :
  (exists wb m1 t1 evs,
      findAndIndexExecutions (services three_pages [wf_a; wf_b] (Some (arn wf_b)) (Some false))
                             [1; 0; 0; 0; 0; 0; 0]%nat "gitc-stack" 50000 world0
      = (wb, Rejected m1) /\
      In t1 (cycle_tasks (services three_pages [wf_a; wf_b] (Some (arn wf_b)) (Some false))
                         [1; 0; 0; 0; 0; 0; 0]%nat "gitc-stack" 50000 world0) /\
      state t1 = Thrown m1 /\
      executions_meta wb = executions_meta world0 /\
      events (cycle_pool (services three_pages [wf_a; wf_b] (Some (arn wf_b)) (Some false))
                         [1; 0; 0; 0; 0; 0; 0]%nat "gitc-stack" 50000 world0).1
      = evs ++ events wb /\
      Forall (fun te : Z * Event => paging_event te.2) evs /\
      executions_meta
        (cycle_pool (services three_pages [wf_a; wf_b] (Some (arn wf_b)) (Some false))
                    [1; 0; 0; 0; 0; 0; 0]%nat "gitc-stack" 50000 world0).1
      = executions_meta world0) /\
  List.map (fun t => (id (workflow t), state t, totalIndexed t))
           (cycle_tasks (services three_pages [wf_a; wf_b] (Some (arn wf_b)) (Some false))
                        [1; 0; 0; 0; 0; 0; 0]%nat "gitc-stack" 50000 world0)
  = [("IngestVIIRS", Returned, 240); ("DiscoverVIIRS", Thrown "ThrottlingException", 0)].
Proof.
  split; [|vm_compute; reflexivity].
  destruct (partition_failure_rejects_cycle
              (services three_pages [wf_a; wf_b] (Some (arn wf_b)) (Some false))
              [] [] event0 world0) as (_ & _ & Hrej & _).
  apply (Hrej [1; 0; 0; 0; 0; 0; 0]%nat "gitc-stack" 50000 world0
              (with_state (Thrown "ThrottlingException") (newTask wf_b))
              "ThrottlingException").
  - vm_compute. right. left. reflexivity.
  - reflexivity.
Defined.

(** A page with an execution that stopped six minutes before the last
    indexed date ends the loop, token or not. *)
Lemma overlap_cutoff_stops_paging_witness :
  exists w' t',
    turn (services page_with_older [wf_a] None (Some false))
         (Some (Int 1527811200000)) 50000 (newTask wf_a)
         (record (ListExecutions (arn wf_a) None 100) world0) = (w', t') /\
    ended t' /\
    exists evs,
      events w' = evs ++ events (record (ListExecutions (arn wf_a) None 100) world0) /\
      Forall (fun te : Z * Event => ~ page_fetch te.2) evs.
Proof.
  destruct (overlap_cutoff_stops_paging
              (services page_with_older [wf_a] None (Some false))
              (Int 1527811200000) 50000 (newTask wf_a)
              {| executions := [succeeded; older]; resp_nextToken := Some "page-2" |}
              older) as (Hpage & _).
  - simpl. auto.
  - vm_compute. reflexivity.
  - apply (Hpage (record (ListExecutions (arn wf_a) None 100) world0)
                 (answered (services page_with_older [wf_a] None (Some false))
                           (record (ListExecutions (arn wf_a) None 100) world0))).
    + reflexivity.
    + vm_compute. reflexivity.
Defined.

(** Three pages of 100, 100 and 40 finished executions: three fetches, 240
    documents. *)
Lemma three_pages_exhaust_source_witness :
  exists w' t' evs,
    pool (services three_pages [wf_a] None (Some false)) None MAX_EXECUTIONS_TO_INDEX
         [0; 0; 0; 0; 0; 0; 0]%nat [wf_a] world0 = (w', [t']) /\
    state t' = Returned /\ totalIndexed t' = 240 /\
    events w' = evs ++ events world0 /\ fetches evs = 3%nat.
Proof.
  apply (three_pages_exhaust_source
           (services three_pages [wf_a] None (Some false)) None MAX_EXECUTIONS_TO_INDEX wf_a
           {| executions := repeat succeeded 100; resp_nextToken := Some "page-2" |}
           {| executions := repeat failed 100; resp_nextToken := Some "page-3" |}
           {| executions := repeat succeeded 40; resp_nextToken := None |}
           "page-2" "page-3" [0%nat] world0); try reflexivity; try done.
  intros e He. cbn [executions] in He.
  apply in_app_or in He as [He|He]; [|apply in_app_or in He as [He|He]];
    apply repeat_spec in He; subst e; (split; [done|reflexivity]).
Defined.

(** A page of running executions: nothing is written and the loop ends. *)
Lemma empty_batch_stops_paging_witness :
  resume (services page_of_running [wf_a] None (Some false)) None 50000
         (newTask wf_a) (record (ListExecutions (arn wf_a) None 100) world0)
  = (answered (services page_of_running [wf_a] None (Some false))
              (record (ListExecutions (arn wf_a) None 100) world0),
     with_state Returned (newTask wf_a)).
Proof.
  apply (empty_batch_stops_paging
           (services page_of_running [wf_a] None (Some false)) None 50000
           (newTask wf_a) (record (ListExecutions (arn wf_a) None 100) world0)
           (answered (services page_of_running [wf_a] None (Some false))
                     (record (ListExecutions (arn wf_a) None 100) world0))
           {| executions := [running; running]; resp_nextToken := Some "page-2" |}).
  - reflexivity.
  - vm_compute. reflexivity.
  - reflexivity.
Defined.

(** The finished execution of a page is in the documents, with its elapsed
    time of ten minutes; the running one is not. *)
Lemma execution_documents_witness :
  In (executionToDoc "IngestVIIRS" succeeded)
     (executionDocs "IngestVIIRS" [succeeded; running]) /\
  elapsed_ms (executionToDoc "IngestVIIRS" succeeded) = Int 600000.
Proof.
  destruct (execution_documents "IngestVIIRS" [succeeded; running]) as (Hdoc & Hin & _).
  split.
  - apply Hin. exists succeeded. split; [simpl; auto|]. split; [discriminate|reflexivity].
  - destruct (Hdoc succeeded) as (_ & _ & _ & _ & _ & _ & _ & He & _).
    apply (He 1527811200000 1527811800000); [reflexivity|reflexivity|]. vm_compute. reflexivity.
Defined.

(** Two cycles half a minute apart: the second watermark is not before the
    first. *)
Lemma watermark_monotone_witness :
  exists wi wj di dj,
    run_cycles (services one_page [wf_a] None (Some false)) 50000 two_triggers world0
    = [(wi, Fulfilled tt); (wj, Fulfilled tt)] /\
    watermark wi = Some di /\ watermark wj = Some dj /\ di <= dj.
Proof.
  assert (exists wi wj,
             run_cycles (services one_page [wf_a] None (Some false)) 50000 two_triggers world0
             = [(wi, Fulfilled tt); (wj, Fulfilled tt)]) as (wi & wj & E).
  { vm_compute. do 2 eexists. reflexivity. }
  destruct (watermark_monotone (services one_page [wf_a] None (Some false)) 50000
                               two_triggers world0 0 1 wi wj) as (di & dj & Hi & Hj & Hle).
  - lia.
  - by rewrite E.
  - by rewrite E.
  - exists wi, wj, di, dj. split; [exact E|]. split; [exact Hi|]. split; [exact Hj|exact Hle].
Defined.

(** With a cap of two documents, six turns of the task, two for each turn
    of its loop, end the loop. *)
Lemma paging_loop_terminates_witness :
  exists w' t',
    pool (services three_pages [wf_a] None (Some false)) None 2
         (repeat 0%nat 6) [wf_a] world0 = (w', [t']) /\
    ended t'.
Proof.
  destruct (paging_loop_terminates (services three_pages [wf_a] None (Some false)) None 2)
    as (_ & _ & Hend & _).
  apply Hend. simpl. lia.
Defined.

(** On a first cycle there is no last indexed date. *)
Lemma first_cycle_cutoff_witness :
  (getLastIndexedDate (services one_page [wf_a] None (Some false)) world0).2 = Fulfilled None /\
  executionBeforeLastIndexed None succeeded = false.
Proof.
  destruct (first_cycle_cutoff
              (services one_page [wf_a] None (Some false)) world0
              (getLastIndexedDate (services one_page [wf_a] None (Some false)) world0).1
              (getLastIndexedDate (services one_page [wf_a] None (Some false)) world0).2)
    as (_ & _ & Hnot & _).
  - reflexivity.
  - vm_compute. reflexivity.
  - split; [vm_compute; reflexivity|].
    apply Hnot. right. exists 1527811800000. split; [reflexivity|lia].
Defined.

(** An execution that stopped before 1970 is before the cutoff of a first
    cycle, and ends the paging of a first cycle although there is a token, the
    batch is not empty and the cap is not reached. *)
Lemma first_cycle_cutoff_counterexample :
  ~ (forall e, Date_parse_field (stopDate e) <> NaN ->
               executionBeforeLastIndexed None e = false) /\
  (let t' := (turn (services page_before_epoch [wf_a] None (Some false)) None
                   MAX_EXECUTIONS_TO_INDEX (newTask wf_a)
                   (record (ListExecutions (arn wf_a) None 100) world0)).2 in
   state t' = Returned /\
   Js.falsy (nextToken t') = false /\
   List.filter notRunning [before_epoch] <> [] /\
   totalIndexed t' < MAX_EXECUTIONS_TO_INDEX).
Proof.
  split.
  - intros Hall. specialize (Hall before_epoch). discriminate Hall. discriminate.
  - vm_compute. repeat split; discriminate.
Qed.

(** Two instances of the task on one transaction: the first runs and fails,
    the second, a second later, is turned away; the lease is gone at the end. *)
Lemma lease_exclusivity_witness :
  let s2 := Lock.run_actions
              [Lock.Step 0; Lock.Tick 1000; Lock.Step 1; Lock.Tick 5000; Lock.Step 0]
              {| Lock.clock := 1527811260000; Lock.leases := ∅;
                 Lock.callers := [Lock.run mrf_a; Lock.run mrf_b] |} in
  Lock.result_of s2 0 = Some (Lock.Ran (Lock.Failed "ENOSPC: no space left on device, mkdtemp")) /\
  Lock.result_of s2 1 = Some Lock.Busy /\
  Lock.leases s2 !! "VNGCR_LQD_C1/2018-06-01" = None.
Proof.
  apply (LockFacts.lease_exclusivity mrf_a mrf_b ∅ 1527811260000 1000 5000).
  - reflexivity.
  - intros l Hl. rewrite lookup_empty in Hl. discriminate Hl.
  - reflexivity.
Defined.

(** The index [executions] is not there at first: it is created. *)
Lemma createOrUpdateIndex_outcome_witness :
  "executions" ∈
    indices (createOrUpdateIndex (services one_page [wf_a] None (Some false))
                                 executionsIndex world0).1.
Proof.
  destruct (createOrUpdateIndex_outcome
              (services one_page [wf_a] None (Some false)) executionsIndex world0
              (createOrUpdateIndex (services one_page [wf_a] None (Some false))
                                   executionsIndex world0).1
              (Fulfilled tt)) as (_ & _ & Hin & _); [vm_compute; reflexivity|].
  by apply Hin.
Defined.

(** The bulk body of a page with a finished, a running and a failed
    execution: the failed one is the second that is kept, and its action and
    document are the third and fourth entries. *)
Lemma docsToBulk_shape_witness :
  docsToBulk (executionDocs "IngestVIIRS" [succeeded; running; failed]) !! 2%nat
  = Some (BulkIndex "executions" "execution" "VNGCR_LQD_C1-2018152-0002") /\
  exists source,
    docsToBulk (executionDocs "IngestVIIRS" [succeeded; running; failed]) !! 3%nat
    = Some (BulkDoc source) /\
    src_workflow_id source = "IngestVIIRS" /\
    src_start_date source = Int 1527811200000 /\
    src_stop_date source = Int 1527811800000 /\
    src_elapsed_ms source = Int 600000 /\
    src_success source = false.
Proof.
  destruct (docsToBulk_shape "IngestVIIRS" [succeeded; running; failed] []) as (_ & _ & Hl).
  destruct (Hl 1%nat failed eq_refl)
    as (Ha & source & Hb & Hw & _ & _ & Hstart & Hstop & Hel & Hsucc).
  split; [exact Ha|]. exists source. split; [exact Hb|]. split; [exact Hw|].
  split; [exact Hstart|]. split; [exact Hstop|]. split; [exact Hel|].
  destruct (src_success source); [|reflexivity].
  destruct Hsucc as [Hs _]. discriminate (Hs eq_refl).
Defined.

(** The date saved is read back as Elasticsearch renders it. *)
Lemma saved_date_is_read_back_witness :
  (getLastIndexedDate (services one_page [wf_a] None (Some false))
     (saveIndexedDate (services one_page [wf_a] None (Some false)) 1527811200000 world0).1).2
  = Fulfilled (Some (Int 1527811200000)).
Proof.
  destruct (saved_date_is_read_back
              (services one_page [wf_a] None (Some false)) 1527811200000 world0
              (saveIndexedDate (services one_page [wf_a] None (Some false))
                               1527811200000 world0).1
              (getLastIndexedDate (services one_page [wf_a] None (Some false))
                 (saveIndexedDate (services one_page [wf_a] None (Some false))
                                  1527811200000 world0).1).1
              (getLastIndexedDate (services one_page [wf_a] None (Some false))
                 (saveIndexedDate (services one_page [wf_a] None (Some false))
                                  1527811200000 world0).1).2)
    as (_ & [Hr|(m & Hr)]).
  - intros i [x Hx]. simpl in Hx. rewrite lookup_empty in Hx. discriminate Hx.
  - vm_compute. reflexivity.
  - vm_compute. reflexivity.
  - exact Hr.
  - vm_compute in Hr. discriminate Hr.
Defined.

(** After a cycle that completes, the watermark document is the only one. *)
Lemma cycle_leaves_one_watermark_document_witness :
  only_watermark_document
    (findAndIndexExecutions (services one_page [wf_a] None (Some false))
                            [0%nat; 0%nat] "gitc-stack" 50000 world0).1.
Proof.
  destruct (cycle_leaves_one_watermark_document
              (services one_page [wf_a] None (Some false)) [0%nat; 0%nat] "gitc-stack" 50000 world0
              (findAndIndexExecutions (services one_page [wf_a] None (Some false))
                                      [0%nat; 0%nat] "gitc-stack" 50000 world0).1
              (Fulfilled tt)) as [Honly _].
  - intros i [x Hx]. simpl in Hx. rewrite lookup_empty in Hx. discriminate Hx.
  - vm_compute. reflexivity.
  - exact Honly.
Defined.

(** With a cap of two, six turns for the one task end it. *)
Lemma fair_schedule_settles_witness :
  Forall ended
         (run_tasks (services three_pages [wf_a] None (Some false)) None 2
                    (repeat 0%nat 6) [newTask wf_a] world0).2 /\
  (await_all (services three_pages [wf_a] None (Some false)) None 2
             (repeat 0%nat 6) [newTask wf_a] world0).2 <> Pending.
Proof.
  apply (fair_schedule_settles (services three_pages [wf_a] None (Some false)) None 2).
  intros i t Hi. destruct i as [|i]; [|done]. inversion Hi; subst. vm_compute. lia.
Defined.

Lemma cycle_settles_witness :
  (findAndIndexExecutions (services three_pages [wf_a] None (Some false))
                          (repeat 0%nat 6) "gitc-stack" 2 world0).2 <> Pending.
Proof.
  apply (cycle_settles (services three_pages [wf_a] None (Some false))
                       (repeat 0%nat 6) "gitc-stack" 2 1).
  - intros w0. simpl. lia.
  - intros i Hi. assert (i = 0%nat) as -> by lia. simpl. lia.
Defined.

Lemma healthy_cycle_completes_witness :
  exists w' d,
    findAndIndexExecutions (services three_pages [wf_a] None (Some false))
                           (repeat 0%nat 6) "gitc-stack" 2 world0 = (w', Fulfilled tt) /\
    watermark w' = Some d /\ now world0 <= d <= now w'.
Proof.
  apply (healthy_cycle_completes (services three_pages [wf_a] None (Some false)))
    with (n := 1%nat).
  - intros c w0. reflexivity.
  - intros w0. reflexivity.
  - intros w0. reflexivity.
  - intros w0. simpl. lia.
  - intros i Hi. assert (i = 0%nat) as -> by lia. simpl. lia.
Defined.

Lemma cycle_without_workflows_witness :
  exists w' d evs,
    findAndIndexExecutions (services one_page [] None (Some false))
                           [] "gitc-stack" 50000 world0 = (w', Fulfilled tt) /\
    watermark w' = Some d /\ now world0 <= d <= now w' /\
    events w' = evs ++ events world0 /\
    Forall (fun te : Z * Event => ~ page_fetch te.2 /\ ~ bulk_event te.2) evs.
Proof.
  apply (cycle_without_workflows (services one_page [] None (Some false))).
  - intros c w0. reflexivity.
  - intros w0. reflexivity.
  - intros w0. reflexivity.
Defined.

(** A handler run that completes: the last watermark is at least half a
    minute after the start. *)
Lemma handler_second_cycle_after_half_a_minute_witness :
  exists d2,
    watermark (handler (services one_page [wf_a] None (Some false))
                       [0%nat; 0%nat] [0%nat; 0%nat] event0 world0).1 = Some d2 /\
    now world0 + 30000 <= d2.
Proof.
  destruct (handler_second_cycle_after_half_a_minute
              (services one_page [wf_a] None (Some false)) [0%nat; 0%nat] [0%nat; 0%nat] event0 world0
              (handler (services one_page [wf_a] None (Some false))
                       [0%nat; 0%nat] [0%nat; 0%nat] event0 world0).1
              "Elasticsearch indexing complete")
    as (_ & d1 & d2 & t1 & t2 & evs & _ & _ & _ & Hd2 & _ & _ & Hw);
    [vm_compute; reflexivity|].
  exists d2. split; [exact Hw|exact Hd2].
Defined.

(** Six minutes before the last indexed date is before the cutoff; five
    minutes would not be. *)
Lemma cutoff_is_strict_witness :
  executionBeforeLastIndexed (Some (Int 1527811200000)) older = true.
Proof.
  destruct (cutoff_is_strict 1527811200000 older) as [[_ Hb] _]; [vm_compute; reflexivity|].
  apply Hb. exists 1527810840000. split; [reflexivity|lia].
Defined.

(** With a cap of 150 and pages of 100, the task stops at 200. *)
Lemma cap_overshoot_is_bounded_witness :
  exists w' t',
    pool (services three_pages [wf_a] None (Some false)) None 150 (repeat 0%nat 6)
         [wf_a] world0 = (w', [t']) /\
    0 <= totalIndexed t' <= Z.max 150 1 + 99.
Proof.
  apply (cap_overshoot_is_bounded (services three_pages [wf_a] None (Some false))).
  intros w0 a tok. cbn [page services]. unfold page_of, three_pages. cbn [List.find fst snd].
  repeat match goal with
         | |- context [if ?b then _ else _] => destruct b
         end; cbn [executions]; rewrite ?repeat_length; simpl; lia.
Defined.

(** The page of one finished and one running execution: the body of the
    loop indexes one document and returns, and so does the turn in two
    parts. *)
Lemma turn_is_loopBody_witness :
  exists w' t',
    loopBody (services one_page [wf_a] None (Some false)) None 50000 (newTask wf_a) world0
    = (w', Fulfilled t') /\
    totalIndexed t' = 1 /\ state t' = Returned /\
    turn (services one_page [wf_a] None (Some false)) None 50000 (newTask wf_a)
         (record (ListExecutions (arn wf_a) None 100) world0)
    = ((nextRequest t' w').1, t').
Proof.
  pose proof (turn_is_loopBody (services one_page [wf_a] None (Some false)) None 50000
                               (newTask wf_a) world0 eq_refl) as Hturn.
  cbv zeta in Hturn.
  destruct (loopBody (services one_page [wf_a] None (Some false)) None 50000
                     (newTask wf_a) world0) as [w' [|t'|m]] eqn:Ebody.
  - destruct Hturn.
  - exists w', t'. split; [reflexivity|].
    assert (totalIndexed t' = 1 /\ state t' = Returned) as [H1 H2].
    { vm_compute in Ebody. inversion Ebody; subst. by split. }
    split; [exact H1|]. split; [exact H2|exact Hturn].
  - vm_compute in Ebody. discriminate Ebody.
Defined.

#[local] Existing Instance MrfSample.node.

(** The key of an output file, and the name without extension. *)
Lemma underscore_before_extension_witness :
  Mrf.destKeyFn "EPSG4326/VNGCR_LQD_C1/2018"
                "/tmp/GenerateMrfTask-k3x9/output/VNGCR_LQD_C1.mrf"
  = "EPSG4326/VNGCR_LQD_C1/2018/VNGCR_LQD_C1_.mrf" /\
  Mrf.underscoreBeforeExtension "README" = "README".
Proof.
  destruct MrfFacts.underscore_before_extension as (Hnone & _ & Hkey & _). split.
  - apply (Hkey "EPSG4326/VNGCR_LQD_C1/2018"
                "/tmp/GenerateMrfTask-k3x9/output/VNGCR_LQD_C1.mrf" "VNGCR_LQD_C1" "mrf");
      reflexivity.
  - apply Hnone. reflexivity.
Defined.

(** When [mrfgen] exits with code 1 the directory is still removed, and the
    run ends without error. *)
Lemma temp_dir_is_removed_witness :
  exists body,
    (Mrf.runExclusive (MrfSample.outside 1) MrfSample.task []).1
    = Mrf.ExecSync "rm -rf /tmp/GenerateMrfTask-k3x9" :: body
        ++ [Mrf.MkdtempSync "GenerateMrfTask"] /\
    (Mrf.runExclusive (MrfSample.outside 1) MrfSample.task []).2 = Mrf.Ok Mrf.Undefined.
Proof.
  destruct (MrfFacts.temp_dir_is_removed
              (MrfSample.outside 1) MrfSample.task []
              (Mrf.runExclusive (MrfSample.outside 1) MrfSample.task []).1
              (Mrf.runExclusive (MrfSample.outside 1) MrfSample.task []).2)
    as [(Hp & _)|(_ & [(m & _ & Hr)|(body & He & _ & _)])].
  - vm_compute. reflexivity.
  - discriminate Hp.
  - vm_compute in Hr. discriminate Hr.
  - exists body. split; [exact He|]. vm_compute. reflexivity.
Defined.

(** When [mrfgen] exits with code 1 nothing is uploaded. *)
Lemma upload_needs_successful_mrfgen_witness :
  Forall (fun o => ~ Mrf.is_upload o)
         (Mrf.runExclusive (MrfSample.outside 1) MrfSample.task []).1.
Proof.
  destruct (MrfFacts.upload_needs_successful_mrfgen
              (MrfSample.outside 1) MrfSample.task []
              (Mrf.runExclusive (MrfSample.outside 1) MrfSample.task []).1
              (Mrf.runExclusive (MrfSample.outside 1) MrfSample.task []).2)
    as (new & He & _ & Hno); [vm_compute; reflexivity|].
  rewrite app_nil_r in He. rewrite He. apply Hno. intros ops0. discriminate.
Defined.

(** When nothing fails the two files of the output directory are uploaded
    and the directory is removed. *)
Lemma healthy_run_uploads_the_outputs_witness :
  exists ops1,
    Mrf.runExclusive (MrfSample.outside 0) MrfSample.task [] =
      (Mrf.ExecSync "rm -rf /tmp/GenerateMrfTask-k3x9"
         :: Mrf.UploadS3Files
              ["/tmp/GenerateMrfTask-k3x9/output/VNGCR_LQD_C1.mrf";
               "/tmp/GenerateMrfTask-k3x9/output/VNGCR_LQD_C1.idx"]
              "gitc-public" (Mrf.destKeyFn "EPSG4326/VNGCR_LQD_C1/2018")
         :: Mrf.ReaddirSync "/tmp/GenerateMrfTask-k3x9/output"
         :: ops1,
       Mrf.Ok Mrf.Undefined).
Proof.
  destruct (MrfFacts.healthy_run_uploads_the_outputs
              (MrfSample.outside 0) (fun _ => eq_refl) MrfSample.task [])
    as [ops1 E]; [discriminate|intros ops0; reflexivity|].
  exists ops1. exact E.
Defined.
